(** * StudyLion: session tracker, study-time scanner and scheduled sessions

    A shallow embedding of

    - [bot/modules/study/tracking/session_tracker.py]  (module [SessionTracker]),
    - [bot/modules/study/tracking/time_tracker.py]     (module [TimeTracker]),
    - [bot/modules/accountability/commands.py]         (module [Accountability]),

    together with the properties the design document states about them.

    Conventions.  Python dictionaries are [gmap]s; a [defaultdict(dict)] is a
    [gmap] of [gmap]s whose subscript operation creates the missing inner
    dictionary.  Python objects that are shared by reference (sessions, command
    contexts, asyncio tasks) live in explicit stores and are named by their
    identity.  Instants are integers (a fixed sub-second resolution of UTC
    time), except in the scanner, whose arithmetic is carried out over the
    rationals.  A Python exception is the [Raise] outcome of a [result]. *)

From Stdlib Require Import ZArith QArith Qcanon Lia.
From stdpp Require Import gmap list strings.

Open Scope Z_scope.

(** ** Python outcomes *)

Inductive exn : Type :=
  | ValueError (msg : string)
  | AttributeError (msg : string)
  | ExternalFailure (what : string).

Inductive result (A : Type) : Type :=
  | Ok (a : A)
  | Raise (e : exn).
Arguments Ok {A} a.
Arguments Raise {A} e.

(** ** [collections.defaultdict(dict)] *)

Section defaultdict.
Context {V : Type}.

(** [d[k]]: the inner dictionary, empty when [k] was never subscripted. *)
Definition dd_get (d : gmap Z (gmap Z V)) (k : Z) : gmap Z V :=
  default ∅ (d !! k).

(** The side effect of [d[k]]: the inner dictionary now exists. *)
Definition dd_touch (d : gmap Z (gmap Z V)) (k : Z) : gmap Z (gmap Z V) :=
  <[k := dd_get d k]> d.

(** [d[k][j] = v] *)
Definition dd_set (d : gmap Z (gmap Z V)) (k j : Z) (v : V) : gmap Z (gmap Z V) :=
  <[k := <[j := v]> (dd_get d k)]> d.

(** [d[k].pop(j, None)] *)
Definition dd_pop (d : gmap Z (gmap Z V)) (k j : Z) : option V * gmap Z (gmap Z V) :=
  (dd_get d k !! j, <[k := delete j (dd_get d k)]> d).

Lemma dd_get_touch d k k' : dd_get (dd_touch d k) k' = dd_get d k'.
Proof.
  unfold dd_touch, dd_get. destruct (decide (k = k')) as [->|Hne].
  - by rewrite lookup_insert_eq.
  - by rewrite lookup_insert_ne.
Qed.

Lemma dd_touch_present d k m : d !! k = Some m → dd_touch d k = d.
Proof. intros H. unfold dd_touch, dd_get. rewrite H. by apply insert_id. Qed.

Lemma dd_get_set d k j v k' j' :
  dd_get (dd_set d k j v) k' !! j' =
    if decide (k = k' ∧ j = j') then Some v else dd_get d k' !! j'.
Proof.
  unfold dd_set, dd_get. destruct (decide (k = k')) as [->|Hne].
  - rewrite lookup_insert_eq. simpl. destruct (decide (j = j')) as [->|Hj].
    + rewrite lookup_insert_eq. by rewrite decide_True.
    + rewrite lookup_insert_ne by done. rewrite decide_False; [done|tauto].
  - rewrite lookup_insert_ne by done. rewrite decide_False; [done|tauto].
Qed.

Lemma dd_get_pop d k j k' j' :
  dd_get (dd_pop d k j).2 k' !! j' =
    if decide (k = k' ∧ j = j') then None else dd_get d k' !! j'.
Proof.
  unfold dd_pop, dd_get. simpl. destruct (decide (k = k')) as [->|Hne].
  - rewrite lookup_insert_eq. simpl. destruct (decide (j = j')) as [->|Hj].
    + rewrite lookup_delete_eq. by rewrite decide_True.
    + rewrite lookup_delete_ne by done. rewrite decide_False; [done|tauto].
  - rewrite lookup_insert_ne by done. rewrite decide_False; [done|tauto].
Qed.
End defaultdict.

(** ** asyncio tasks

    A task is named by its identity; the event loop owns the table of tasks.
    Only what the tracker observes of a task is kept: whether it is still
    waiting, was cancelled, or ran to completion. *)

Inductive TaskStatus : Type := Sleeping | Cancelled | Finished.

#[global] Instance TaskStatus_eq_dec : EqDecision TaskStatus.
Proof. solve_decision. Defined.

(** [task.done()] *)
Definition status_done (s : TaskStatus) : bool :=
  match s with Sleeping => false | _ => true end.

(** [task.cancel()] on a status: a task that is done is left alone. *)
Definition status_cancel (s : TaskStatus) : TaskStatus :=
  match s with Sleeping => Cancelled | s => s end.

Lemma status_cancel_idem s : status_cancel (status_cancel s) = status_cancel s.
Proof. by destruct s. Qed.

(** * Study session tracker ([session_tracker.py]) *)

Module SessionTracker.

(** [SessionChannelType] *)
Inductive SessionChannelType : Type := STANDARD | RENTED | ACCOUNTABILITY.

(** What the tracker reads of a [discord.Member] and a [discord.VoiceState]. *)
Record Member : Type := mkMember { member_guild : Z; member_id : Z }.

Record VoiceState : Type := mkVoice {
  channel : Z;
  self_video : bool;
  self_stream : bool
}.

(** What the tracker reads of [Lion.fetch(guildid, userid)] at one instant,
    both in seconds. *)
Record Lion : Type := mkLion {
  remaining_study_today : Z;
  remaining_in_day : Z
}.

(** Guild configuration read by [start]: the row caches of the rented and
    scheduled rooms, and the two reward settings. *)
Record Config : Type := mkConfig {
  rented_cache : gset Z;
  accountability_rooms_cache : gset Z;
  hourly_reward : Z → Z;
  hourly_live_bonus : Z → Z
}.

(** A row of [current_sessions], keyed by [(guildid, userid)].  The column
    [channelid] may be null: [Session.start] always records a channel, the
    startup tests [row.channelid is not None] on the rows it finds. *)
Record Row : Type := mkRow {
  row_channelid : option Z;
  row_channel_type : SessionChannelType;
  row_start_time : Z;
  live_start : option Z;
  stream_start : option Z;
  video_start : option Z;
  live_duration : Z;
  stream_duration : Z;
  video_duration : Z;
  hourly_coins : Z;
  hourly_live_coins : Z
}.

(** A [Session] object ([__slots__]). *)
Record Session : Type := mkSession {
  guildid : Z;
  userid : Z;
  _expiry_task : option nat
}.

(** The coroutine a task runs, with the delay it sleeps for. *)
Inductive Coro : Type :=
  | DelayedStart (g u : Z) (member : Member) (state : VoiceState) (delay : Z)
  | ScheduleExpiry (self : nat) (delay : Z).

Record Task : Type := mkTask { coro : Coro; status : TaskStatus }.

(** The process state the tracker works on: the two class-level caches
    [Session.sessions] and [Session.members_pending], the [Session] objects,
    the [current_sessions] table with the rows already closed, and the tasks
    of the event loop. *)
Record World : Type := mkWorld {
  sessions : gmap Z (gmap Z nat);
  members_pending : gmap Z (gmap Z nat);
  objects : gmap nat Session;
  next_object : nat;
  current_sessions : gmap (Z * Z) Row;
  closed_sessions : list (Z * Z * Row);
  tasks : gmap nat Task;
  next_task : nat
}.

Definition empty_world : World :=
  mkWorld ∅ ∅ ∅ 0%nat ∅ [] ∅ 0%nat.

Definition with_sessions (x : gmap Z (gmap Z nat)) (w : World) : World :=
  mkWorld x (members_pending w) (objects w) (next_object w)
          (current_sessions w) (closed_sessions w) (tasks w) (next_task w).

Definition with_members_pending (x : gmap Z (gmap Z nat)) (w : World) : World :=
  mkWorld (sessions w) x (objects w) (next_object w)
          (current_sessions w) (closed_sessions w) (tasks w) (next_task w).

Definition with_objects (x : gmap nat Session) (w : World) : World :=
  mkWorld (sessions w) (members_pending w) x (next_object w)
          (current_sessions w) (closed_sessions w) (tasks w) (next_task w).

Definition with_current_sessions (x : gmap (Z * Z) Row) (w : World) : World :=
  mkWorld (sessions w) (members_pending w) (objects w) (next_object w)
          x (closed_sessions w) (tasks w) (next_task w).

Definition with_tasks (x : gmap nat Task) (w : World) : World :=
  mkWorld (sessions w) (members_pending w) (objects w) (next_object w)
          (current_sessions w) (closed_sessions w) x (next_task w).

(** [asyncio.create_task(coro)]: a new task, waiting. *)
Definition create_task (c : Coro) (w : World) : nat * World :=
  (next_task w,
   mkWorld (sessions w) (members_pending w) (objects w) (next_object w)
           (current_sessions w) (closed_sessions w)
           (<[next_task w := mkTask c Sleeping]> (tasks w)) (S (next_task w))).

(** [task.cancel()] *)
Definition cancel (t : nat) (w : World) : World :=
  with_tasks (alter (λ k, mkTask (coro k) (status_cancel (status k))) t (tasks w)) w.

(** [task.done()]; a task the loop no longer knows is done. *)
Definition done_task (t : nat) (w : World) : bool :=
  match tasks w !! t with
  | Some k => status_done (status k)
  | None => true
  end.

(** [Session.get(guildid, userid)], the value returned. *)
Definition get (g u : Z) (w : World) : option nat :=
  dd_get (sessions w) g !! u.

(** [Session.schedule_expiry] with the first step of [_schedule_expiry]: an
    existing, unfinished [_expiry_task] is cancelled, then the new task sleeps
    for the member's remaining daily budget.  The task created here is not
    stored on the session. *)
Definition schedule_expiry (self : nat) (lion : Lion) (w : World) : World :=
  let w1 :=
    match objects w !! self with
    | Some s =>
        match _expiry_task s with
        | Some t => if done_task t w then w else cancel t w
        | None => w
        end
    | None => w
    end in
  (create_task (ScheduleExpiry self (remaining_study_today lion)) w1).2.

(** [Session.activate] *)
Definition activate (self : nat) (lion : Lion) (w : World) : World :=
  match objects w !! self with
  | Some s =>
      let w1 := with_sessions (dd_set (sessions w) (guildid s) (userid s) self) w in
      schedule_expiry self lion w1
  | None => w
  end.

(** [cls(guildid, userid)] *)
Definition new_session (g u : Z) (w : World) : nat * World :=
  (next_object w,
   mkWorld (sessions w) (members_pending w)
           (<[next_object w := mkSession g u None]> (objects w)) (S (next_object w))
           (current_sessions w) (closed_sessions w) (tasks w) (next_task w)).

Definition already_exists : exn :=
  ValueError "A session for this member already exists!".

(** [Session.start(member, state)], at instant [now], where [lion] is what
    [Lion.fetch] reports of the member. *)
Definition start (cfg : Config) (now : Z) (lion : Lion)
    (member : Member) (state : VoiceState) (w : World) : result unit * World :=
  let g := member_guild member in
  let u := member_id member in
  let w0 := with_sessions (dd_touch (sessions w) g) w in
  if decide (is_Some (dd_get (sessions w) g !! u)) then
    (Raise already_exists, w0)
  else if decide (remaining_study_today lion ≤ 0) then
    let '(pending, mp) := dd_pop (members_pending w0) g u in
    let w1 := with_members_pending mp w0 in
    let w2 := match pending with Some t => cancel t w1 | None => w1 end in
    let '(task, w3) :=
      create_task (DelayedStart g u member state (remaining_in_day lion)) w2 in
    (Ok (), with_members_pending (dd_set (members_pending w3) g u task) w3)
  else
    let channel_type :=
      if decide (channel state ∈ rented_cache cfg) then RENTED
      else if decide (channel state ∈ accountability_rooms_cache cfg) then ACCOUNTABILITY
      else STANDARD in
    (* the duration columns are not passed to create_row: they start at the
       table's default, zero *)
    let row := {|
      row_channelid := Some (channel state);
      row_channel_type := channel_type;
      row_start_time := now;
      live_start := if self_video state || self_stream state then Some now else None;
      stream_start := if self_stream state then Some now else None;
      video_start := if self_video state then Some now else None;
      live_duration := 0;
      stream_duration := 0;
      video_duration := 0;
      hourly_coins := hourly_reward cfg g;
      hourly_live_coins := hourly_live_bonus cfg g
    |} in
    let w1 := with_current_sessions (<[(g, u) := row]> (current_sessions w0)) w0 in
    let '(self, w2) := new_session g u w1 in
    (Ok (), activate self lion w2).

(** Modelled from the spec: the stored procedure behind
    [current_sessions.queries.close_study_session], which is not part of the
    tracker.  It persists the closing accounting of the member's open row: the
    row leaves [current_sessions] and is kept among the closed ones.  Without
    an open row it does nothing. *)
Definition close_study_session (g u : Z) (w : World) : World :=
  match current_sessions w !! (g, u) with
  | Some r =>
      mkWorld (sessions w) (members_pending w) (objects w) (next_object w)
              (delete (g, u) (current_sessions w)) (closed_sessions w ++ [(g, u, r)])
              (tasks w) (next_task w)
  | None => w
  end.

(** [Session.finish] *)
Definition finish (self : nat) (w : World) : World :=
  match objects w !! self with
  | Some s =>
      let w1 := close_study_session (guildid s) (userid s) w in
      let w2 := with_sessions (dd_pop (sessions w1) (guildid s) (userid s)).2 w1 in
      match _expiry_task s with
      | Some t => if done_task t w2 then w2 else cancel t w2
      | None => w2
      end
  | None => w
  end.

(** The rest of [_schedule_expiry], run when the sleep of task [t] ends
    without having been cancelled.  [asyncio.sleep] returns [None], and that
    is what the assignment stores in [_expiry_task]. *)
Definition expiry_wake (t : nat) (lion : Lion) (w : World) : World :=
  match tasks w !! t with
  | Some (mkTask (ScheduleExpiry self d) Sleeping) =>
      let w1 :=
        with_objects
          (alter (λ s, mkSession (guildid s) (userid s) None) self (objects w)) w in
      let w2 :=
        if decide (remaining_study_today lion ≤ 0) then finish self w1
        else schedule_expiry self lion w1 in
      with_tasks (<[t := mkTask (ScheduleExpiry self d) Finished]> (tasks w2)) w2
  | _ => w
  end.

(** [Session.save_live_status(state)] at instant [now]. *)
Definition save_live_status (self : nat) (now : Z) (state : VoiceState)
    (w : World) : result unit * World :=
  let has_video := self_video state in
  let has_stream := self_stream state in
  let is_live := has_video || has_stream in
  match objects w !! self with
  | None => (Raise (AttributeError "session"), w)
  | Some s =>
      match current_sessions w !! (guildid s, userid s) with
      | None => (Raise (AttributeError "batch_update"), w)
      | Some data =>
          let video_duration' :=
            match video_start data with
            | Some t => video_duration data + (now - t)
            | None => video_duration data
            end in
          let video_start' := if has_video then Some now else None in
          let stream_duration' :=
            match stream_start data with
            | Some t => stream_duration data + (now - t)
            | None => stream_duration data
            end in
          let stream_start' := if has_stream then Some now else None in
          let live_duration' :=
            match live_start data with
            | Some t => live_duration data + (now - t)
            | None => live_duration data
            end in
          let live_start' := if is_live then Some now else None in
          let data' := {|
            row_channelid := row_channelid data;
            row_channel_type := row_channel_type data;
            row_start_time := row_start_time data;
            live_start := live_start';
            stream_start := stream_start';
            video_start := video_start';
            live_duration := live_duration';
            stream_duration := stream_duration';
            video_duration := video_duration';
            hourly_coins := hourly_coins data;
            hourly_live_coins := hourly_live_coins data
          |} in
          (Ok (),
           with_current_sessions
             (<[(guildid s, userid s) := data']> (current_sessions w)) w)
      end
  end.

(** The rule of the design document for one sub-timer, as it is worded: a
    running timer folds the time elapsed up to the pivot instant into its
    cumulative duration; then it runs from the pivot instant if its flag is
    on, and is stopped otherwise. *)
Definition subtimer_rule (flag : bool) (pivot : Z) (timer : option Z * Z)
    : option Z * Z :=
  let folded :=
    match timer.1 with
    | Some since => timer.2 + (pivot - since)
    | None => timer.2
    end in
  (if flag then Some pivot else None, folded).

(** The row of a member's session. *)
Definition data (g u : Z) (w : World) : option Row :=
  current_sessions w !! (g, u).

(** ** The voice-state dispatcher and the delayed start *)

(** A [discord.VoiceState] as an event carries it: the member may be in no
    channel. *)
Record Voice : Type := mkVoiceEv {
  voice_channel : option Z;
  voice_video : bool;
  voice_stream : bool
}.

(** The state passed on to [start] and [save_live_status].  The latter reads
    the two flags only, so the channel given to it when the member is in none
    does not matter. *)
Definition in_channel (ch : Z) (v : Voice) : VoiceState :=
  mkVoice ch (voice_video v) (voice_stream v).

(** The lists the dispatcher consults: the guild's untracked channels,
    [client.objects['blacklisted_users']] and
    [client.objects['ignored_members'][guild.id]]. *)
Record Exempt : Type := mkExempt {
  untracked : Z → gset Z;
  blacklisted_users : gset Z;
  ignored_members : Z → gset Z
}.

(** The end of the dispatcher, "if after.channel": a session is started when
    the member is now in a channel that is tracked and is on neither list. *)
Definition start_if_tracked (cfg : Config) (ex : Exempt) (now : Z) (lion : Lion)
    (member : Member) (after : Voice) (w : World) : result unit * World :=
  match voice_channel after with
  | None => (Ok (), w)
  | Some ch =>
      if decide ((ch ∉ untracked ex (member_guild member))
                 ∧ (member_id member ∉ blacklisted_users ex)
                 ∧ (member_id member ∉ ignored_members ex (member_guild member)))
      then start cfg now lion member (in_channel ch after) w
      else (Ok (), w)
  end.

(** [session_voice_tracker(client, member, before, after)] at instant [now]. *)
Definition session_voice_tracker (cfg : Config) (ex : Exempt) (now : Z) (lion : Lion)
    (member : Member) (before after : Voice) (w : World) : result unit * World :=
  let g := member_guild member in
  let u := member_id member in
  let session := dd_get (sessions w) g !! u in
  let w0 := with_sessions (dd_touch (sessions w) g) w in
  if decide (voice_channel before = voice_channel after) then
    (* Voice state change without moving channel *)
    match session with
    | Some self =>
        if xorb (voice_video before) (voice_video after)
           || xorb (voice_stream before) (voice_stream after)
        then save_live_status self now (in_channel (default 0 (voice_channel after)) after) w0
        else (Ok (), w0)
    | None => (Ok (), w0)
    end
  else
    (* Member changed channel *)
    let ended : result unit * World :=
      match session with
      | Some self =>
          match objects w0 !! self with
          | None => (Raise (AttributeError "session"), w0)
          | Some s =>
              match current_sessions w0 !! (guildid s, userid s) with
              | None => (Raise (AttributeError "channelid"), w0)
              | Some _ => (Ok (), finish self w0)
              end
          end
      | None =>
          let '(pending, mp) := dd_pop (members_pending w0) g u in
          let w1 := with_members_pending mp w0 in
          (Ok (), match pending with Some t => cancel t w1 | None => w1 end)
      end in
    match ended with
    | (Raise e, w1) => (Raise e, w1)
    | (Ok _, w1) => start_if_tracked cfg ex now lion member after w1
    end.

(** The rest of [_delayed_start], run when the sleep of task [t] ends without
    having been cancelled: [cls.start] on the member and the state
    the task was created with.  The task is done afterwards, cancelled if
    [start] has cancelled it as the member's pending start. *)
Definition delayed_start_wake (cfg : Config) (now : Z) (lion : Lion) (t : nat)
    (w : World) : result unit * World :=
  match tasks w !! t with
  | Some (mkTask (DelayedStart g u member state d) Sleeping) =>
      let '(r, w1) := start cfg now lion member state w in
      (r, with_tasks
            (alter (λ k, mkTask (coro k)
                           (match status k with Sleeping => Finished | st => st end))
                   t (tasks w1)) w1)
  | _ => (Ok (), w)
  end.

(** ** Startup *)

(** What [_init_session_tracker] asks of the client: whether a guild is
    known ([client.get_guild]), and the voice state of a user among the
    members of a channel of a guild, if the channel exists and the member is there.
    [lion_of] is what [Lion.fetch] reports, [clock] the instant at which the
    session of a member is dealt with. *)
Record Presence : Type := mkPresence {
  known_guild : Z → bool;
  voice_of : Z → Z → Z → option VoiceState;
  lion_of : Z → Z → Lion;
  clock : Z → Z → Z
}.

(** The body of the loop over the saved rows: resume or end one session.
    A row of a guild the client does not know, or without a channel, is
    skipped. *)
Definition resume_row (p : Presence) (k : Z * Z * Row) (w : World)
    : result unit * World :=
  let g := k.1.1 in
  let u := k.1.2 in
  match known_guild p g, row_channelid k.2 with
  | true, Some channelid =>
      let '(session, w1) := new_session g u w in
      match voice_of p g channelid u with
      | Some voice =>
          save_live_status session (clock p g u) voice
            (activate session (lion_of p g u) w1)
      | None => (Ok (), finish session w1)
      end
  | _, _ => (Ok (), w)
  end.

(** The loop: it stops at the first exception (the module is then marked as
    not ready). *)
Fixpoint resume_rows (p : Presence) (rows : list (Z * Z * Row)) (w : World)
    : result unit * World :=
  match rows with
  | [] => (Ok (), w)
  | k :: rest =>
      match resume_row p k w with
      | (Ok _, w1) => resume_rows p rest w1
      | (Raise e, w1) => (Raise e, w1)
      end
  end.

(** The loop over [new_members]: a session is started for each. *)
Fixpoint start_members (cfg : Config) (p : Presence)
    (new_members : list (Member * VoiceState)) (w : World) : result unit * World :=
  match new_members with
  | [] => (Ok (), w)
  | (member, voice) :: rest =>
      match start cfg (clock p (member_guild member) (member_id member))
                  (lion_of p (member_guild member) (member_id member)) member voice w with
      | (Ok _, w1) => start_members cfg p rest w1
      | (Raise e, w1) => (Raise e, w1)
      end
  end.

(** The list [new_members]: the members of the tracked channels for whom
    [Session.get] finds nothing; each [Session.get] subscripts the cache. *)
Definition new_members (present : list (Member * VoiceState)) (w : World)
    : list (Member * VoiceState) * World :=
  (filter (λ mv, get (member_guild mv.1) (member_id mv.1) w = None) present,
   foldl (λ acc mv, with_sessions (dd_touch (sessions acc) (member_guild mv.1)) acc)
         w present).

(** [_init_session_tracker(client)], up to attaching the event handler:
    [present] are the members of the tracked voice channels with their voice
    states.  The saved rows are taken in the order of the table. *)
Definition _init_session_tracker (cfg : Config) (p : Presence)
    (present : list (Member * VoiceState)) (w : World) : result unit * World :=
  match resume_rows p (map_to_list (current_sessions w)) w with
  | (Raise e, w1) => (Raise e, w1)
  | (Ok _, w1) =>
      let '(members, w2) := new_members present w1 in
      start_members cfg p members w2
  end.

(** Live-status updates in a row: [(now, state)] for each. *)
Fixpoint save_live_statuses (self : nat) (updates : list (Z * VoiceState)) (w : World)
    : World :=
  match updates with
  | [] => w
  | (now, state) :: rest =>
      save_live_statuses self rest (save_live_status self now state w).2
  end.

(** The time a sub-timer records over a row of updates: at each update a
    timer that runs adds the time since it was started, and runs on from the
    update when its flag is on. *)
Fixpoint on_time (flag : VoiceState → bool) (start : option Z)
    (updates : list (Z * VoiceState)) : Z :=
  match updates with
  | [] => 0
  | (now, state) :: rest =>
      match start with Some since => now - since | None => 0 end
      + on_time flag (if flag state then Some now else None) rest
  end.

(** The sub-timers of a row agree with one another: those that run all run
    since [since], the combined one runs exactly when one of the others
    does, and the durations are ordered. *)
Definition timers_consistent (since : Z) (row : Row) : Prop :=
  (∀ t, video_start row = Some t → t = since)
  ∧ (∀ t, stream_start row = Some t → t = since)
  ∧ (∀ t, live_start row = Some t → t = since)
  ∧ (is_Some (live_start row)
     ↔ is_Some (video_start row) ∨ is_Some (stream_start row))
  ∧ 0 ≤ video_duration row ≤ live_duration row
  ∧ 0 ≤ stream_duration row ≤ live_duration row
  ∧ live_duration row ≤ video_duration row + stream_duration row.

(** The state of the process is well formed: a session is registered under
    its own member and has its row, objects and tasks that are referred to
    exist, and no session holds an expiry task. *)
Definition registered_own_key (w : World) : Prop :=
  ∀ g u self, dd_get (sessions w) g !! u = Some self →
    ∃ s, objects w !! self = Some s ∧ guildid s = g ∧ userid s = u
         ∧ is_Some (current_sessions w !! (g, u)).

Definition objects_fresh (w : World) : Prop :=
  ∀ self, (next_object w ≤ self)%nat → objects w !! self = None.

(** A guild paying 6 coins an hour, 2 more when live, with no special rooms;
    and the state after member 2 of guild 1 joined room 10 on camera, at
    instant 100, with an hour of budget left. *)
Definition demo_config : Config := mkConfig ∅ ∅ (λ _, 6) (λ _, 2).

Definition demo_world : World :=
  (start demo_config 100 (mkLion 3600 7200) (mkMember 1 2) (mkVoice 10 true false)
         empty_world).2.

(** The state a restart finds: the open rows the table has kept, member 2
    of guild 1 in room 10 and member 3 with no channel recorded, and nothing
    in memory.  The client knows every guild and finds nobody in a voice
    channel. *)
Definition demo_saved : World :=
  mkWorld ∅ ∅ ∅ 0%nat
          {[(1, 2) := mkRow (Some 10) STANDARD 100 None None None 0 0 0 6 2;
            (1, 3) := mkRow None STANDARD 100 None None None 0 0 0 6 2]}
          [] ∅ 0%nat.

Definition demo_presence : Presence :=
  mkPresence (λ _, true) (λ _ _ _, None) (λ _ _, mkLion 3000 100) (λ _ _, 500).

(** ** Properties of the session tracker *)

Lemma with_sessions_id w : with_sessions (sessions w) w = w.
Proof. by destruct w. Qed.

Lemma get_present_touch g u w sid :
  get g u w = Some sid → with_sessions (dd_touch (sessions w) g) w = w.
Proof.
  unfold get, dd_get. intros H.
  destruct (sessions w !! g) as [m|] eqn:Hg; [|simpl in H; by rewrite lookup_empty in H].
  rewrite (dd_touch_present _ _ _ Hg). apply with_sessions_id.
Qed.

Lemma get_with_touch g u g' w :
  get g u (with_sessions (dd_touch (sessions w) g') w) = get g u w.
Proof. unfold get. simpl. by rewrite dd_get_touch. Qed.

(** A registered pending start is a task that was created: task identities
    are handed out in increasing order. *)
Definition pending_known (w : World) : Prop :=
  ∀ g u t, dd_get (members_pending w) g !! u = Some t → (t < next_task w)%nat.

(** No session object ever holds a task in [_expiry_task]. *)
Definition no_expiry_handle (w : World) : Prop :=
  ∀ self s, objects w !! self = Some s → _expiry_task s = None.

Lemma pending_known_empty : pending_known empty_world.
Proof. intros g u t H. unfold dd_get in H. simpl in H. by rewrite !lookup_empty in H. Qed.

Lemma pending_known_start cfg now lion member state w :
  pending_known w → pending_known (start cfg now lion member state w).2.
Proof.
  intros H g u t. unfold start.
  destruct (decide (is_Some _)); [exact (H g u t)|].
  destruct (decide (_ ≤ 0)).
  - unfold dd_pop. simpl.
    pose proof (dd_get_pop (members_pending w) (member_guild member)
                  (member_id member) g u) as Hp.
    unfold dd_pop in Hp. simpl in Hp.
    destruct (dd_get (members_pending w) _ !! member_id member); simpl;
      rewrite dd_get_set, Hp; case_decide; try (intros [= <-]; lia);
      intros Ht; pose proof (H g u t Ht); lia.
  - simpl. unfold activate. simpl. rewrite lookup_insert_eq.
    unfold schedule_expiry. simpl. rewrite lookup_insert_eq. simpl.
    intros Ht. pose proof (H g u t Ht). lia.
Qed.

Lemma no_expiry_handle_empty : no_expiry_handle empty_world.
Proof. intros self s H. simpl in H. by rewrite lookup_empty in H. Qed.

Lemma schedule_expiry_objects self lion w :
  objects (schedule_expiry self lion w) = objects w.
Proof.
  unfold schedule_expiry. simpl.
  destruct (objects w !! self) as [s|]; [|done].
  destruct (_expiry_task s) as [t|]; [|done].
  by destruct (done_task t w).
Qed.

Lemma schedule_expiry_no_handle self lion w :
  no_expiry_handle w →
  tasks (schedule_expiry self lion w) =
    <[next_task w := mkTask (ScheduleExpiry self (remaining_study_today lion)) Sleeping]>
      (tasks w).
Proof.
  intros H. unfold schedule_expiry.
  destruct (objects w !! self) as [s|] eqn:Hs; [|done].
  by rewrite (H _ _ Hs).
Qed.

Lemma finish_objects self w : objects (finish self w) = objects w.
Proof.
  unfold finish. destruct (objects w !! self) as [s|]; [|done].
  assert (∀ g u, objects (close_study_session g u w) = objects w) as Hc.
  { intros g u. unfold close_study_session. by destruct (current_sessions w !! (g, u)). }
  destruct (_expiry_task s) as [t|]; simpl.
  - destruct (done_task _ _); simpl; apply Hc.
  - apply Hc.
Qed.

Lemma close_study_session_tasks g u w :
  tasks (close_study_session g u w) = tasks w.
Proof. unfold close_study_session. by destruct (current_sessions w !! (g, u)). Qed.

(** Under [no_expiry_handle], [finish] cancels nothing. *)
Lemma finish_no_handle_tasks self w :
  no_expiry_handle w → tasks (finish self w) = tasks w.
Proof.
  intros H. unfold finish. destruct (objects w !! self) as [s|] eqn:Hs; [|done].
  rewrite (H _ _ Hs). simpl. apply close_study_session_tasks.
Qed.

Lemma no_expiry_handle_finish self w :
  no_expiry_handle w → no_expiry_handle (finish self w).
Proof. intros H sid s. rewrite finish_objects. apply H. Qed.

Lemma no_expiry_handle_start cfg now lion member state w :
  no_expiry_handle w → no_expiry_handle (start cfg now lion member state w).2.
Proof.
  intros H sid s. unfold start.
  destruct (decide (is_Some _)); [exact (H sid s)|].
  destruct (decide (_ ≤ 0)).
  - simpl. destruct (dd_get (members_pending w) _ !! _); exact (H sid s).
  - simpl. unfold activate. simpl. rewrite lookup_insert_eq.
    rewrite schedule_expiry_objects. simpl.
    destruct (decide (next_object w = sid)) as [<-|Hne].
    + rewrite lookup_insert_eq. by intros [= <-].
    + rewrite lookup_insert_ne by done. apply H.
Qed.

Lemma no_expiry_handle_wake t lion w :
  no_expiry_handle w → no_expiry_handle (expiry_wake t lion w).
Proof.
  intros H. unfold expiry_wake.
  destruct (tasks w !! t) as [[[|self d] []]|]; try done.
  intros sid s. simpl.
  assert (no_expiry_handle
    (with_objects (alter (λ s, mkSession (guildid s) (userid s) None) self (objects w)) w))
    as H1.
  { intros sid' s'. simpl. rewrite lookup_alter. case_decide; [subst|by apply H].
    destruct (objects w !! sid'); simpl; [by intros [= <-]|done]. }
  destruct (decide (_ ≤ 0)).
  - rewrite finish_objects. apply H1.
  - rewrite schedule_expiry_objects. apply H1.
Qed.

Lemma no_expiry_handle_save self now state w :
  no_expiry_handle w → no_expiry_handle (save_live_status self now state w).2.
Proof.
  intros H. unfold save_live_status.
  destruct (objects w !! self) as [s|]; [|done].
  by destruct (current_sessions w !! _).
Qed.

(** What [start] does to the session cache and to the table: nothing to the
    entry and row of a member who already has a session. *)
Lemma start_keeps_sessions cfg now lion member state w g u sid :
  get g u w = Some sid →
  get g u (start cfg now lion member state w).2 = Some sid
  ∧ data g u (start cfg now lion member state w).2 = data g u w.
Proof.
  intros Hget. unfold start.
  destruct (decide (is_Some _)) as [Hs|Hs]; simpl.
  { by rewrite get_with_touch. }
  assert ((member_guild member, member_id member) ≠ (g, u)) as Hne.
  { intros [= <- <-]. apply Hs. unfold get in Hget. by rewrite Hget. }
  destruct (decide (_ ≤ 0)); simpl.
  - destruct (dd_get (members_pending w) _ !! _); simpl;
      split; try done; unfold get; simpl; by rewrite dd_get_touch.
  - split.
    + unfold activate. simpl. rewrite lookup_insert_eq. unfold schedule_expiry. simpl.
      rewrite lookup_insert_eq. simpl. unfold get. simpl.
      rewrite dd_get_set, dd_get_touch. rewrite decide_False; [done|].
      intros [<- <-]. by apply Hne.
    + unfold activate. simpl. rewrite lookup_insert_eq. unfold schedule_expiry. simpl.
      rewrite lookup_insert_eq. simpl. unfold data. simpl.
      by rewrite lookup_insert_ne.
Qed.

(** C2.  A [start] for a member who already has a session raises the
    "already exists" error and leaves the whole state as it was; and whoever
    [start] is called for, the session and the row of a member who has one
    stay what they were.  So a second session never takes the place of the
    first: a member has at most one. *)
Theorem start_already_active cfg now lion member state w sid :
  get (member_guild member) (member_id member) w = Some sid →
  start cfg now lion member state w = (Raise already_exists, w)
  ∧ ∀ now' lion' member' state',
      get (member_guild member) (member_id member)
          (start cfg now' lion' member' state' w).2 = Some sid
      ∧ data (member_guild member) (member_id member)
             (start cfg now' lion' member' state' w).2
        = data (member_guild member) (member_id member) w.
Proof.
  intros Hget. split.
  - unfold start. rewrite decide_True.
    + by rewrite (get_present_touch _ _ _ _ Hget).
    + unfold get in Hget. by rewrite Hget.
  - intros. by apply start_keeps_sessions.
Qed.

Lemma start_already_active_witness :
  get 1 2 demo_world = Some 0%nat
  ∧ start demo_config 200 (mkLion 3600 7200) (mkMember 1 2) (mkVoice 10 false false)
          demo_world = (Raise already_exists, demo_world).
Proof.
  assert (get 1 2 demo_world = Some 0%nat) as H by (vm_compute; reflexivity).
  split; [exact H|].
  exact (proj1 (start_already_active demo_config 200 (mkLion 3600 7200) (mkMember 1 2)
                  (mkVoice 10 false false) demo_world 0%nat H)).
Defined.

(** C5.  After [start] has opened a session and scheduled its expiry (task 0,
    sleeping), [finish] closes the row and removes the session from the cache,
    but the expiry task is still sleeping afterwards: the session object holds
    no handle to it, so there is nothing for [finish] to cancel. *)
Theorem finish_leaves_expiry_pending :
  get 1 2 demo_world = Some 0%nat
  ∧ tasks demo_world !! 0%nat = Some (mkTask (ScheduleExpiry 0 3600) Sleeping)
  ∧ (_expiry_task <$> objects demo_world !! 0%nat) = Some None
  ∧ get 1 2 (finish 0 demo_world) = None
  ∧ data 1 2 (finish 0 demo_world) = None
  ∧ length (closed_sessions (finish 0 demo_world)) = 1%nat
  ∧ tasks (finish 0 demo_world) !! 0%nat
    = Some (mkTask (ScheduleExpiry 0 3600) Sleeping).
Proof. vm_compute. repeat split; reflexivity. Qed.

(** C6.  [start] for a member without a session whose remaining daily budget
    is not positive returns normally; it creates no row, no session object and
    no cache entry for anybody; it creates exactly one task, a delayed start
    sleeping for the time remaining in the member's day, and registers it as
    the member's pending start; the task registered before, if any, has been
    cancelled; every other task and every other member's pending start are as
    they were. *)
Theorem start_capped_is_pending cfg now lion member state w :
  pending_known w →
  get (member_guild member) (member_id member) w = None →
  remaining_study_today lion ≤ 0 →
  ∃ w',
    start cfg now lion member state w = (Ok (), w')
    ∧ current_sessions w' = current_sessions w
    ∧ objects w' = objects w
    ∧ (∀ g u, get g u w' = get g u w)
    ∧ next_task w' = S (next_task w)
    ∧ tasks w' !! next_task w
      = Some (mkTask (DelayedStart (member_guild member) (member_id member)
                        member state (remaining_in_day lion)) Sleeping)
    ∧ dd_get (members_pending w') (member_guild member) !! member_id member
      = Some (next_task w)
    ∧ (∀ old, dd_get (members_pending w) (member_guild member) !! member_id member
              = Some old →
         tasks w' !! old
         = (λ k, mkTask (coro k) (status_cancel (status k))) <$> tasks w !! old)
    ∧ (∀ t, t ≠ next_task w →
         dd_get (members_pending w) (member_guild member) !! member_id member ≠ Some t →
         tasks w' !! t = tasks w !! t)
    ∧ (∀ g u, (g, u) ≠ (member_guild member, member_id member) →
         dd_get (members_pending w') g !! u = dd_get (members_pending w) g !! u).
Proof.
  intros Hfresh Hget Hcap. unfold start.
  rewrite decide_False by (unfold get in Hget; rewrite Hget; by intros [? ?]).
  rewrite decide_True by done. unfold dd_pop. simpl.
  set (g := member_guild member). set (u := member_id member).
  destruct (dd_get (members_pending w) g !! u) as [old|] eqn:Hold; simpl;
    eexists; (split; [reflexivity|]); simpl;
    (split; [done|]); (split; [done|]);
    (split; [intros; unfold get; simpl; by rewrite dd_get_touch|]);
    (split; [done|]); (split; [by rewrite lookup_insert_eq|]);
    (split; [by rewrite dd_get_set, decide_True|]).
  - split; [|split].
    + intros ? [= <-].
      assert (old ≠ next_task w) as Hne.
      { intros ->. pose proof (Hfresh g u _ Hold). lia. }
      rewrite lookup_insert_ne by done. rewrite lookup_alter. by rewrite decide_True.
    + intros t Ht Hto. rewrite lookup_insert_ne by done. rewrite lookup_alter.
      rewrite decide_False; [done|]. intros ->. by apply Hto.
    + intros g' u' Hne. rewrite dd_get_set. rewrite decide_False.
      * pose proof (dd_get_pop (members_pending w) g u g' u') as Hp.
        unfold dd_pop in Hp. simpl in Hp. rewrite Hp. rewrite decide_False; [done|].
        intros [<- <-]. by apply Hne.
      * intros [<- <-]. by apply Hne.
  - split; [|split].
    + intros ? [=].
    + intros t Ht _. by rewrite lookup_insert_ne.
    + intros g' u' Hne. rewrite dd_get_set. rewrite decide_False.
      * pose proof (dd_get_pop (members_pending w) g u g' u') as Hp.
        unfold dd_pop in Hp. simpl in Hp. rewrite Hp. rewrite decide_False; [done|].
        intros [<- <-]. by apply Hne.
      * intros [<- <-]. by apply Hne.
Qed.

Lemma start_capped_is_pending_witness :
  ∃ w',
    start demo_config 500 (mkLion 0 300) (mkMember 1 3) (mkVoice 10 false false)
          (start demo_config 400 (mkLion 0 400) (mkMember 1 3) (mkVoice 10 false false)
                 demo_world).2 = (Ok (), w')
    ∧ tasks w' !! 1%nat
      = Some (mkTask (DelayedStart 1 3 (mkMember 1 3) (mkVoice 10 false false) 400)
                Cancelled)
    ∧ tasks w' !! 2%nat
      = Some (mkTask (DelayedStart 1 3 (mkMember 1 3) (mkVoice 10 false false) 300)
                Sleeping)
    ∧ dd_get (members_pending w') 1 !! 3 = Some 2%nat.
Proof.
  set (w := (start demo_config 400 (mkLion 0 400) (mkMember 1 3)
               (mkVoice 10 false false) demo_world).2).
  assert (pending_known w) as Hk.
  { do 2 apply pending_known_start. apply pending_known_empty. }
  assert (get 1 3 w = None) as Hg by (vm_compute; reflexivity).
  assert (remaining_study_today (mkLion 0 300) ≤ 0) as Hc by (simpl; lia).
  destruct (start_capped_is_pending demo_config 500 (mkLion 0 300) (mkMember 1 3)
              (mkVoice 10 false false) w Hk Hg Hc)
    as (w' & Hs & _ & _ & _ & _ & Hnew & Hreg & Hold & _).
  exists w'. split; [exact Hs|].
  assert (next_task w = 2%nat) as Hn by (vm_compute; reflexivity).
  rewrite Hn in Hnew, Hreg. split; [|split; [exact Hnew|exact Hreg]].
  rewrite (Hold 1%nat) by (vm_compute; reflexivity).
  vm_compute. reflexivity.
Defined.

(** C7.  One update of the live status succeeds on a session that has its
    row, and treats the video, stream and combined timers alike, all three
    with the single instant [now] taken at the start of the update: each
    timer's new start and duration are what the rule of the design gives for
    its flag (the combined flag being video or stream), and the other columns
    are untouched.  Hence a timer that had been running since [t0] and is
    updated at [t0 + D] has exactly [D] added to its duration. *)
Theorem save_live_status_subtimers self now state w s row :
  objects w !! self = Some s →
  data (guildid s) (userid s) w = Some row →
  ∃ w' row',
    save_live_status self now state w = (Ok (), w')
    ∧ data (guildid s) (userid s) w' = Some row'
    ∧ (video_start row', video_duration row')
      = subtimer_rule (self_video state) now (video_start row, video_duration row)
    ∧ (stream_start row', stream_duration row')
      = subtimer_rule (self_stream state) now (stream_start row, stream_duration row)
    ∧ (live_start row', live_duration row')
      = subtimer_rule (self_video state || self_stream state) now
          (live_start row, live_duration row)
    ∧ (row_channelid row', row_channel_type row', row_start_time row',
       hourly_coins row', hourly_live_coins row')
      = (row_channelid row, row_channel_type row, row_start_time row,
         hourly_coins row, hourly_live_coins row)
    ∧ (∀ t0 D, now = t0 + D →
         (video_start row = Some t0 → video_duration row' = video_duration row + D)
         ∧ (stream_start row = Some t0 → stream_duration row' = stream_duration row + D)
         ∧ (live_start row = Some t0 → live_duration row' = live_duration row + D)).
Proof.
  intros Hs Hrow. unfold data in Hrow. unfold save_live_status.
  rewrite Hs, Hrow. eexists; eexists. split; [reflexivity|].
  unfold data. simpl. rewrite lookup_insert_eq. split; [reflexivity|].
  unfold subtimer_rule. simpl. repeat split.
  - intros ->. f_equal. lia.
  - intros ->. f_equal. lia.
  - intros ->. f_equal. lia.
Qed.

Lemma save_live_status_subtimers_witness :
  ∃ w' row',
    save_live_status 0 (100 + 250) (mkVoice 10 false false) demo_world = (Ok (), w')
    ∧ data 1 2 w' = Some row'
    ∧ video_start row' = None
    ∧ video_duration row' = 250
    ∧ live_duration row' = 250
    ∧ stream_duration row' = 0.
Proof.
  assert (objects demo_world !! 0%nat = Some (mkSession 1 2 None)) as Ho
    by (vm_compute; reflexivity).
  assert (∃ row, data 1 2 demo_world = Some row
                 ∧ video_start row = Some 100 ∧ live_start row = Some 100
                 ∧ stream_start row = None
                 ∧ video_duration row = 0 ∧ live_duration row = 0
                 ∧ stream_duration row = 0)
    as (row & Hd & Hv & Hl & Hst & Hvd & Hld & Hsd)
    by (eexists; vm_compute; repeat split; reflexivity).
  destruct (save_live_status_subtimers 0 (100 + 250) (mkVoice 10 false false)
              demo_world (mkSession 1 2 None) row Ho Hd)
    as (w' & row' & Hr & Hd' & Hvideo & Hstream & _ & _ & HD).
  exists w', row'. split; [exact Hr|]. split; [exact Hd'|].
  destruct (HD 100 250 eq_refl) as (HDv & _ & HDl).
  rewrite Hv, Hvd in Hvideo. rewrite Hst, Hsd in Hstream.
  unfold subtimer_rule in Hvideo, Hstream. simpl in Hvideo, Hstream.
  injection Hvideo as Hv1 Hv2. injection Hstream as _ Hs2.
  rewrite (HDv Hv), (HDl Hl), Hvd, Hld. repeat split; assumption || reflexivity.
Defined.

(** ** Well-formed states *)

Definition well_formed (w : World) : Prop :=
  registered_own_key w ∧ objects_fresh w ∧ pending_known w ∧ no_expiry_handle w.

Lemma well_formed_empty : well_formed empty_world.
Proof.
  split; [|split; [|split]].
  - intros g u self H. unfold dd_get in H. simpl in H. by rewrite !lookup_empty in H.
  - intros self _. apply lookup_empty.
  - apply pending_known_empty.
  - apply no_expiry_handle_empty.
Qed.

Lemma cancel_frame t w :
  sessions (cancel t w) = sessions w
  ∧ members_pending (cancel t w) = members_pending w
  ∧ objects (cancel t w) = objects w
  ∧ next_object (cancel t w) = next_object w
  ∧ current_sessions (cancel t w) = current_sessions w
  ∧ closed_sessions (cancel t w) = closed_sessions w
  ∧ next_task (cancel t w) = next_task w.
Proof. done. Qed.

Lemma schedule_expiry_frame self lion w :
  sessions (schedule_expiry self lion w) = sessions w
  ∧ members_pending (schedule_expiry self lion w) = members_pending w
  ∧ objects (schedule_expiry self lion w) = objects w
  ∧ next_object (schedule_expiry self lion w) = next_object w
  ∧ current_sessions (schedule_expiry self lion w) = current_sessions w
  ∧ closed_sessions (schedule_expiry self lion w) = closed_sessions w
  ∧ next_task (schedule_expiry self lion w) = S (next_task w).
Proof.
  unfold schedule_expiry.
  destruct (objects w !! self) as [s|]; [|done].
  destruct (_expiry_task s) as [t|]; [|done].
  by destruct (done_task t w).
Qed.

(** What [finish] leaves of the state, for a session object that exists. *)
Lemma finish_frame self s w :
  objects w !! self = Some s →
  sessions (finish self w) = (dd_pop (sessions w) (guildid s) (userid s)).2
  ∧ members_pending (finish self w) = members_pending w
  ∧ objects (finish self w) = objects w
  ∧ next_object (finish self w) = next_object w
  ∧ current_sessions (finish self w)
    = delete (guildid s, userid s) (current_sessions w)
  ∧ next_task (finish self w) = next_task w.
Proof.
  intros Hs. unfold finish. rewrite Hs.
  assert (∀ w', sessions w' = (dd_pop (sessions w) (guildid s) (userid s)).2 →
                members_pending w' = members_pending w →
                objects w' = objects w → next_object w' = next_object w →
                current_sessions w'
                = delete (guildid s, userid s) (current_sessions w) →
                next_task w' = next_task w →
    let w'' := match _expiry_task s with
               | Some t => if done_task t w' then w' else cancel t w'
               | None => w'
               end in
    sessions w'' = (dd_pop (sessions w) (guildid s) (userid s)).2
    ∧ members_pending w'' = members_pending w
    ∧ objects w'' = objects w ∧ next_object w'' = next_object w
    ∧ current_sessions w'' = delete (guildid s, userid s) (current_sessions w)
    ∧ next_task w'' = next_task w) as Hlast.
  { intros w' ? ? ? ? ? ?. destruct (_expiry_task s) as [t|]; simpl; [|done].
    by destruct (done_task t w'). }
  apply Hlast; unfold close_study_session;
    destruct (current_sessions w !! (guildid s, userid s)) eqn:Hrow; simpl; try done.
  by rewrite delete_id.
Qed.

Lemma finish_get self s w g u :
  objects w !! self = Some s →
  get g u (finish self w)
  = if decide (guildid s = g ∧ userid s = u) then None else get g u w.
Proof.
  intros Hs. unfold get. destruct (finish_frame self s w Hs) as (-> & _).
  apply dd_get_pop.
Qed.

Lemma finish_data self s w g u :
  objects w !! self = Some s →
  data g u (finish self w)
  = if decide (guildid s = g ∧ userid s = u) then None else data g u w.
Proof.
  intros Hs. unfold data.
  destruct (finish_frame self s w Hs) as (_ & _ & _ & _ & -> & _).
  case_decide as Hk.
  - destruct Hk as [<- <-]. apply lookup_delete_eq.
  - apply lookup_delete_ne. intros [= ? ?]. by apply Hk.
Qed.

Lemma well_formed_finish self w : well_formed w → well_formed (finish self w).
Proof.
  intros (Hreg & Hfresh & Hpend & Hno).
  destruct (objects w !! self) as [s|] eqn:Hs.
  2:{ unfold finish. by rewrite Hs. }
  destruct (finish_frame self s w Hs) as (Hses & Hmp & Hobj & Hno' & Hcur & Hnt).
  split; [|split; [|split]].
  - intros g u x Hx. fold (get g u (finish self w)) in Hx.
    rewrite (finish_get _ _ _ _ _ Hs) in Hx. case_decide as Hk; [done|].
    destruct (Hreg g u x Hx) as (s' & Hs' & Hg & Hu & Hrow).
    exists s'. rewrite Hobj, Hcur. repeat split; try done.
    rewrite lookup_delete_ne; [done|]. intros [= ? ?]. by apply Hk.
  - intros x Hx. rewrite Hobj. apply Hfresh. by rewrite <- Hno'.
  - intros g u t. rewrite Hmp, Hnt. apply Hpend.
  - by apply no_expiry_handle_finish.
Qed.

(** The row [start] creates. *)
Definition session_row (cfg : Config) (now : Z) (g : Z) (state : VoiceState) : Row :=
  mkRow (Some (channel state))
        (if decide (channel state ∈ rented_cache cfg) then RENTED
         else if decide (channel state ∈ accountability_rooms_cache cfg)
              then ACCOUNTABILITY else STANDARD)
        now
        (if self_video state || self_stream state then Some now else None)
        (if self_stream state then Some now else None)
        (if self_video state then Some now else None)
        0 0 0 (hourly_reward cfg g) (hourly_live_bonus cfg g).

(** The three ways [start] goes. *)
Lemma start_exists cfg now lion member state w :
  is_Some (get (member_guild member) (member_id member) w) →
  start cfg now lion member state w = (Raise already_exists, w).
Proof.
  intros [sid Hget]. unfold start. rewrite decide_True.
  - by rewrite (get_present_touch _ _ _ _ Hget).
  - unfold get in Hget. by rewrite Hget.
Qed.

Lemma start_capped cfg now lion member state w :
  get (member_guild member) (member_id member) w = None →
  remaining_study_today lion ≤ 0 →
  (start cfg now lion member state w).1 = Ok ()
  ∧ sessions (start cfg now lion member state w).2
    = dd_touch (sessions w) (member_guild member)
  ∧ objects (start cfg now lion member state w).2 = objects w
  ∧ next_object (start cfg now lion member state w).2 = next_object w
  ∧ current_sessions (start cfg now lion member state w).2 = current_sessions w
  ∧ closed_sessions (start cfg now lion member state w).2 = closed_sessions w.
Proof.
  intros Hget Hcap. unfold start.
  rewrite decide_False by (unfold get in Hget; rewrite Hget; by intros [? ?]).
  rewrite decide_True by done. unfold dd_pop. simpl.
  by destruct (dd_get (members_pending w) _ !! _).
Qed.

Lemma start_opens cfg now lion member state w :
  get (member_guild member) (member_id member) w = None →
  0 < remaining_study_today lion →
  (start cfg now lion member state w).1 = Ok ()
  ∧ sessions (start cfg now lion member state w).2
    = dd_set (dd_touch (sessions w) (member_guild member))
             (member_guild member) (member_id member) (next_object w)
  ∧ members_pending (start cfg now lion member state w).2 = members_pending w
  ∧ objects (start cfg now lion member state w).2
    = <[next_object w := mkSession (member_guild member) (member_id member) None]>
        (objects w)
  ∧ next_object (start cfg now lion member state w).2 = S (next_object w)
  ∧ current_sessions (start cfg now lion member state w).2
    = <[(member_guild member, member_id member)
        := session_row cfg now (member_guild member) state]> (current_sessions w)
  ∧ closed_sessions (start cfg now lion member state w).2 = closed_sessions w
  ∧ tasks (start cfg now lion member state w).2
    = <[next_task w := mkTask (ScheduleExpiry (next_object w)
                                 (remaining_study_today lion)) Sleeping]> (tasks w)
  ∧ next_task (start cfg now lion member state w).2 = S (next_task w).
Proof.
  intros Hget Hbudget. unfold start.
  rewrite decide_False by (unfold get in Hget; rewrite Hget; by intros [? ?]).
  rewrite decide_False by lia. simpl.
  unfold activate. simpl. rewrite lookup_insert_eq. simpl.
  unfold schedule_expiry. simpl. rewrite lookup_insert_eq. simpl.
  done.
Qed.

Lemma well_formed_start cfg now lion member state w :
  well_formed w → well_formed (start cfg now lion member state w).2.
Proof.
  intros (Hreg & Hfresh & Hpend & Hno).
  split; [|split; [|split]];
    [| |by apply pending_known_start|by apply no_expiry_handle_start].
  - destruct (get (member_guild member) (member_id member) w) as [sid|] eqn:Hget.
    { by rewrite start_exists by (by rewrite Hget). }
    destruct (decide (remaining_study_today lion ≤ 0)) as [Hcap|Hbudget].
    { destruct (start_capped cfg now lion member state w Hget Hcap)
        as (_ & Hses & Hobj & _ & Hcur & _).
      intros g u x. rewrite Hses, Hobj, Hcur, dd_get_touch. apply Hreg. }
    destruct (start_opens cfg now lion member state w Hget ltac:(lia))
      as (_ & Hses & _ & Hobj & _ & Hcur & _).
    intros g u x. rewrite Hses, Hobj, Hcur, dd_get_set, dd_get_touch.
    case_decide as Hk.
    + destruct Hk as [<- <-]. intros [= <-]. eexists. rewrite !lookup_insert_eq.
      repeat split; eauto.
    + intros Hx. destruct (Hreg g u x Hx) as (s' & Hs' & Hg & Hu & Hrow).
      exists s'. repeat split; try done.
      * rewrite lookup_insert_ne; [done|]. intros <-.
        by rewrite (Hfresh _ (le_n _)) in Hs'.
      * destruct (decide ((member_guild member, member_id member) = (g, u)))
          as [Heq|Hne].
        -- rewrite Heq, lookup_insert_eq. eauto.
        -- by rewrite lookup_insert_ne.
  - destruct (get (member_guild member) (member_id member) w) as [sid|] eqn:Hget.
    { by rewrite start_exists by (by rewrite Hget). }
    destruct (decide (remaining_study_today lion ≤ 0)) as [Hcap|Hbudget].
    { destruct (start_capped cfg now lion member state w Hget Hcap)
        as (_ & _ & Hobj & Hn & _).
      intros x. rewrite Hobj, Hn. apply Hfresh. }
    destruct (start_opens cfg now lion member state w Hget ltac:(lia))
      as (_ & _ & _ & Hobj & Hn & _).
    intros x. rewrite Hobj, Hn. intros Hx.
    rewrite lookup_insert_ne by lia. apply Hfresh. lia.
Qed.

Lemma well_formed_with_tasks x n w :
  (next_task w ≤ n)%nat →
  well_formed w →
  well_formed (mkWorld (sessions w) (members_pending w) (objects w) (next_object w)
                       (current_sessions w) (closed_sessions w) x n).
Proof.
  intros Hn (Hreg & Hfresh & Hpend & Hno). split; [|split; [|split]]; try done.
  intros g u t Ht. simpl. pose proof (Hpend g u t Ht). lia.
Qed.

Lemma well_formed_touch g w :
  well_formed w → well_formed (with_sessions (dd_touch (sessions w) g) w).
Proof.
  intros (Hreg & Hfresh & Hpend & Hno). split; [|split; [|split]]; try done.
  intros g' u x. simpl. rewrite dd_get_touch. apply Hreg.
Qed.

Lemma well_formed_cancel t w : well_formed w → well_formed (cancel t w).
Proof. intros H. by apply (well_formed_with_tasks _ _ w). Qed.

Lemma well_formed_schedule_expiry self lion w :
  well_formed w → well_formed (schedule_expiry self lion w).
Proof.
  intros (Hreg & Hfresh & Hpend & Hno).
  destruct (schedule_expiry_frame self lion w) as (Hses & Hmp & Hobj & Hn & Hcur & _ & Hnt).
  split; [|split; [|split]].
  - intros g u x. rewrite Hses, Hobj, Hcur. apply Hreg.
  - intros x. rewrite Hobj, Hn. apply Hfresh.
  - intros g u t. rewrite Hmp, Hnt. intros Ht. pose proof (Hpend g u t Ht). lia.
  - intros x s. rewrite Hobj. apply Hno.
Qed.

Lemma save_live_status_frame self now state w :
  sessions (save_live_status self now state w).2 = sessions w
  ∧ members_pending (save_live_status self now state w).2 = members_pending w
  ∧ objects (save_live_status self now state w).2 = objects w
  ∧ next_object (save_live_status self now state w).2 = next_object w
  ∧ closed_sessions (save_live_status self now state w).2 = closed_sessions w
  ∧ tasks (save_live_status self now state w).2 = tasks w
  ∧ next_task (save_live_status self now state w).2 = next_task w
  ∧ ∀ k, is_Some (current_sessions w !! k) →
         is_Some (current_sessions (save_live_status self now state w).2 !! k).
Proof.
  unfold save_live_status. destruct (objects w !! self) as [s|]; [|done].
  destruct (current_sessions w !! (guildid s, userid s)) eqn:Hrow; [|done].
  simpl. repeat split. intros k Hk.
  destruct (decide ((guildid s, userid s) = k)) as [<-|Hne].
  - rewrite lookup_insert_eq. eauto.
  - by rewrite lookup_insert_ne.
Qed.

Lemma well_formed_save self now state w :
  well_formed w → well_formed (save_live_status self now state w).2.
Proof.
  intros (Hreg & Hfresh & Hpend & Hno).
  destruct (save_live_status_frame self now state w)
    as (Hses & Hmp & Hobj & Hn & _ & _ & Hnt & Hcur).
  split; [|split; [|split]].
  - intros g u x. rewrite Hses, Hobj. intros Hx.
    destruct (Hreg g u x Hx) as (s & ? & ? & ? & ?). exists s. eauto.
  - intros x. rewrite Hobj, Hn. apply Hfresh.
  - intros g u t. rewrite Hmp, Hnt. apply Hpend.
  - intros x s. rewrite Hobj. apply Hno.
Qed.

Lemma well_formed_wake t lion w : well_formed w → well_formed (expiry_wake t lion w).
Proof.
  intros Hwf. unfold expiry_wake.
  destruct (tasks w !! t) as [[[|self d] []]|]; try done.
  assert (well_formed
    (with_objects (alter (λ s, mkSession (guildid s) (userid s) None) self (objects w)) w))
    as H1.
  { destruct Hwf as (Hreg & Hfresh & Hpend & Hno). split; [|split; [|split]]; try done.
    - intros g u x Hx. simpl. destruct (Hreg g u x Hx) as (s & Hs & Hg & Hu & Hrow).
      rewrite lookup_alter. case_decide; subst.
      + rewrite Hs. simpl. eauto.
      + eauto.
    - intros x Hx. simpl. rewrite lookup_alter. case_decide; subst.
      + by rewrite (Hfresh _ Hx).
      + by apply Hfresh.
    - intros x s. simpl. rewrite lookup_alter. case_decide; [subst|by apply Hno].
      destruct (objects w !! x); simpl; [by intros [= <-]|done]. }
  destruct (decide (_ ≤ 0)).
  - apply well_formed_with_tasks; [done|]. by apply well_formed_finish.
  - apply well_formed_with_tasks; [done|]. by apply well_formed_schedule_expiry.
Qed.

Lemma well_formed_delayed cfg now lion t w :
  well_formed w → well_formed (delayed_start_wake cfg now lion t w).2.
Proof.
  intros Hwf. unfold delayed_start_wake.
  destruct (tasks w !! t) as [[[g u member state d|] []]|]; try done.
  pose proof (well_formed_start cfg now lion member state w Hwf) as Hs.
  destruct (start cfg now lion member state w) as [r w1]. simpl in *.
  by apply (well_formed_with_tasks _ _ w1).
Qed.

Lemma well_formed_dispatch cfg ex now lion member before after w :
  well_formed w →
  well_formed (session_voice_tracker cfg ex now lion member before after w).2.
Proof.
  intros Hwf. unfold session_voice_tracker.
  pose proof (well_formed_touch (member_guild member) w Hwf) as H0.
  set (w0 := with_sessions (dd_touch (sessions w) (member_guild member)) w) in *.
  case_decide.
  { destruct (dd_get (sessions w) _ !! _); [|done].
    destruct (_ || _); [|done]. by apply well_formed_save. }
  assert (∀ w1, well_formed w1 →
            well_formed (start_if_tracked cfg ex now lion member after w1).2) as Hrest.
  { intros w1 H1. unfold start_if_tracked. destruct (voice_channel after); [|done].
    case_decide; [|done]. by apply well_formed_start. }
  destruct (dd_get (sessions w) _ !! _) as [self|].
  - destruct (objects w0 !! self) as [s|]; [|done].
    destruct (current_sessions w0 !! _); [|done].
    apply Hrest. by apply well_formed_finish.
  - unfold dd_pop. cbn [fst snd].
    apply Hrest.
    assert (well_formed
      (with_members_pending
         (<[member_guild member := delete (member_id member)
              (dd_get (members_pending w0) (member_guild member))]>
            (members_pending w0)) w0)) as H1.
    { destruct H0 as (Hreg & Hfresh & Hpend & Hno). split; [|split; [|split]]; try done.
      intros g u t. simpl.
      pose proof (dd_get_pop (members_pending w) (member_guild member)
                    (member_id member) g u) as Hp.
      unfold dd_pop in Hp. simpl in Hp. rewrite Hp. case_decide; [done|].
      apply Hpend. }
    destruct (dd_get (members_pending w0) _ !! _); [|done].
    by apply well_formed_cancel.
Qed.

Lemma well_formed_demo : well_formed demo_world.
Proof. apply well_formed_start, well_formed_empty. Qed.

(** X1.  Every operation of the tracker keeps the state well formed: a
    session registered for a member is that member's own object and has its
    open row, the objects and pending tasks referred to exist, and no session
    object holds an expiry task. *)
Theorem tracker_keeps_well_formed cfg ex now lion member state before after self t w :
  well_formed w →
  well_formed (start cfg now lion member state w).2
  ∧ well_formed (finish self w)
  ∧ well_formed (save_live_status self now state w).2
  ∧ well_formed (expiry_wake t lion w)
  ∧ well_formed (delayed_start_wake cfg now lion t w).2
  ∧ well_formed (session_voice_tracker cfg ex now lion member before after w).2.
Proof.
  intros Hwf. split; [|split; [|split; [|split; [|split]]]].
  - by apply well_formed_start.
  - by apply well_formed_finish.
  - by apply well_formed_save.
  - by apply well_formed_wake.
  - by apply well_formed_delayed.
  - by apply well_formed_dispatch.
Qed.

Lemma tracker_keeps_well_formed_witness :
  well_formed (finish 0 demo_world)
  ∧ well_formed (expiry_wake 0 (mkLion 0 100) demo_world).
Proof.
  destruct (tracker_keeps_well_formed demo_config (mkExempt (λ _, ∅) ∅ (λ _, ∅)) 200
              (mkLion 0 100) (mkMember 1 2) (mkVoice 10 false false)
              (mkVoiceEv (Some 10) true false) (mkVoiceEv None false false)
              0%nat 0%nat demo_world well_formed_demo) as (_ & Hf & _ & Hw & _).
  split; [exact Hf|exact Hw].
Defined.

(** X2.  On a well-formed state the dispatcher never raises: when the member
    changes channel the old session is finished before a new one is started, so
    the "already exists" error of [start] cannot occur, and a session that is
    updated or finished has its row. *)
Theorem dispatcher_never_raises cfg ex now lion member before after w :
  well_formed w →
  (session_voice_tracker cfg ex now lion member before after w).1 = Ok ().
Proof.
  intros Hwf. unfold session_voice_tracker.
  set (g := member_guild member). set (u := member_id member).
  set (w0 := with_sessions (dd_touch (sessions w) g) w).
  assert (∀ w1, get g u w1 = None →
                (start_if_tracked cfg ex now lion member after w1).1 = Ok ()) as Hrest.
  { intros w1 Hnone. unfold start_if_tracked. destruct (voice_channel after); [|done].
    case_decide; [|done].
    destruct (decide (remaining_study_today lion ≤ 0)).
    - by apply start_capped.
    - apply start_opens; [done|lia]. }
  destruct (dd_get (sessions w) g !! u) as [self|] eqn:Hses.
  - destruct Hwf as (Hreg & _).
    destruct (Hreg g u self Hses) as (s & Hs & Hg & Hu & [row Hrow]).
    case_decide.
    + destruct (_ || _); [|done]. unfold save_live_status. simpl.
      by rewrite Hs, Hg, Hu, Hrow.
    + simpl. rewrite Hs, Hg, Hu, Hrow. apply Hrest.
      rewrite (finish_get self s w0 g u Hs). by rewrite decide_True.
  - case_decide; [done|]. unfold dd_pop. cbn [fst snd].
    apply Hrest. unfold get.
    destruct (dd_get (members_pending w0) g !! u); simpl;
      by rewrite dd_get_touch.
Qed.

Lemma dispatcher_never_raises_witness :
  (session_voice_tracker demo_config (mkExempt (λ _, ∅) ∅ (λ _, ∅)) 200 (mkLion 3000 100)
     (mkMember 1 2) (mkVoiceEv (Some 10) true false) (mkVoiceEv (Some 11) true false)
     demo_world).1 = Ok ().
Proof. apply dispatcher_never_raises, well_formed_demo. Defined.

Lemma finish_closed self s w :
  objects w !! self = Some s →
  closed_sessions (finish self w)
  = closed_sessions w
    ++ match current_sessions w !! (guildid s, userid s) with
       | Some row => [(guildid s, userid s, row)]
       | None => []
       end.
Proof.
  intros Hs. unfold finish. rewrite Hs.
  assert (∀ w', closed_sessions
                  (match _expiry_task s with
                   | Some t => if done_task t w' then w' else cancel t w'
                   | None => w'
                   end) = closed_sessions w') as Hlast.
  { intros w'. destruct (_expiry_task s) as [t|]; [|done]. by destruct (done_task t w'). }
  rewrite Hlast. simpl. unfold close_study_session.
  destruct (current_sessions w !! (guildid s, userid s)); simpl; [done|].
  by rewrite app_nil_r.
Qed.

Lemma finish_tasks self s w :
  objects w !! self = Some s →
  _expiry_task s = None →
  tasks (finish self w) = tasks w.
Proof.
  intros Hs Hnone. unfold finish. rewrite Hs, Hnone. simpl.
  apply close_study_session_tasks.
Qed.

Lemma start_if_untracked cfg ex now lion member after w :
  (∀ ch, voice_channel after = Some ch →
     ¬ ((ch ∉ untracked ex (member_guild member))
        ∧ (member_id member ∉ blacklisted_users ex)
        ∧ (member_id member ∉ ignored_members ex (member_guild member)))) →
  start_if_tracked cfg ex now lion member after w = (Ok (), w).
Proof.
  intros Hex. unfold start_if_tracked. destruct (voice_channel after) as [ch|]; [|done].
  rewrite decide_False; [done|]. by apply Hex.
Qed.

(** X3.  When a member changes channel and is now in no channel, in an
    untracked channel, or is on one of the two exemption lists, they have no
    session afterwards: a session they had is finished, its row closed and
    kept among the closed ones; otherwise their pending start, if any, is
    unregistered and its task cancelled.  Other members' sessions are as they
    were. *)
Theorem leaving_ends_tracking cfg ex now lion member before after w :
  well_formed w →
  voice_channel before ≠ voice_channel after →
  (∀ ch, voice_channel after = Some ch →
     ¬ ((ch ∉ untracked ex (member_guild member))
        ∧ (member_id member ∉ blacklisted_users ex)
        ∧ (member_id member ∉ ignored_members ex (member_guild member)))) →
  get (member_guild member) (member_id member)
      (session_voice_tracker cfg ex now lion member before after w).2 = None
  ∧ (∀ self row,
       get (member_guild member) (member_id member) w = Some self →
       data (member_guild member) (member_id member) w = Some row →
       data (member_guild member) (member_id member)
            (session_voice_tracker cfg ex now lion member before after w).2 = None
       ∧ closed_sessions (session_voice_tracker cfg ex now lion member before after w).2
         = closed_sessions w ++ [(member_guild member, member_id member, row)])
  ∧ (get (member_guild member) (member_id member) w = None →
     dd_get (members_pending
               (session_voice_tracker cfg ex now lion member before after w).2)
            (member_guild member) !! member_id member = None
     ∧ ∀ t, dd_get (members_pending w) (member_guild member) !! member_id member
            = Some t →
         tasks (session_voice_tracker cfg ex now lion member before after w).2 !! t
         = (λ k, mkTask (coro k) (status_cancel (status k))) <$> tasks w !! t)
  ∧ (∀ g u, (g, u) ≠ (member_guild member, member_id member) →
       get g u (session_voice_tracker cfg ex now lion member before after w).2
       = get g u w).
Proof.
  intros Hwf Hmove Hex. unfold session_voice_tracker.
  set (g := member_guild member). set (u := member_id member).
  set (w0 := with_sessions (dd_touch (sessions w) g) w).
  rewrite decide_False by done.
  destruct (dd_get (sessions w) g !! u) as [self|] eqn:Hses.
  - destruct Hwf as (Hreg & _).
    destruct (Hreg g u self Hses) as (s & Hs & Hg & Hu & [row Hrow]).
    simpl. rewrite Hs, Hg, Hu, Hrow.
    rewrite start_if_untracked by done. simpl.
    split; [|split; [|split]].
    + rewrite (finish_get self s w0 g u Hs). by rewrite decide_True.
    + intros self' row' _ Hrow'. unfold data in Hrow'. split.
      * rewrite (finish_data self s w0 g u Hs). by rewrite decide_True.
      * rewrite (finish_closed self s w0 Hs). simpl. rewrite Hg, Hu.
        fold g u. by rewrite Hrow'.
    + unfold get. by rewrite Hses.
    + intros g' u' Hne. rewrite (finish_get self s w0 g' u' Hs).
      rewrite decide_False.
      * unfold get, w0. simpl. by rewrite dd_get_touch.
      * intros [<- <-]. apply Hne. by rewrite Hg, Hu.
  - unfold dd_pop. cbn [fst snd]. rewrite start_if_untracked by done.
    pose proof (dd_get_pop (members_pending w) g u) as Hp.
    unfold dd_pop in Hp. simpl in Hp.
    cbn [fst snd]. split; [|split; [|split]].
    + unfold get. destruct (dd_get (members_pending w0) g !! u); simpl;
        by rewrite dd_get_touch.
    + intros self row Hget. unfold get in Hget. by rewrite Hses in Hget.
    + intros _. split.
      * destruct (dd_get (members_pending w0) g !! u); simpl;
          rewrite Hp; by rewrite decide_True.
      * intros t Ht. unfold w0. simpl. rewrite Ht. simpl.
        rewrite lookup_alter. by rewrite decide_True.
    + intros g' u' Hne. unfold get.
      destruct (dd_get (members_pending w0) g !! u); simpl; by rewrite dd_get_touch.
Qed.

Lemma leaving_ends_tracking_witness :
  get 1 2 (session_voice_tracker demo_config (mkExempt (λ _, ∅) ∅ (λ _, ∅)) 200
             (mkLion 3000 100) (mkMember 1 2) (mkVoiceEv (Some 10) true false)
             (mkVoiceEv None false false) demo_world).2 = None.
Proof.
  apply leaving_ends_tracking.
  - apply well_formed_demo.
  - discriminate.
  - intros ch. discriminate.
Defined.

(** X4.  When a member with daily budget left changes channel into a tracked
    channel, and is on neither exemption list, the dispatcher leaves them with
    a newly created session: a fresh object registered for them, a row that
    records the new channel, the instant of the event and sub-timer starts
    matching the camera and stream flags, and an expiry task sleeping for the
    remaining budget.  The row of the session they had before is closed. *)
Theorem entering_starts_session cfg ex now lion member before after ch w :
  well_formed w →
  voice_channel before ≠ voice_channel after →
  voice_channel after = Some ch →
  (ch ∉ untracked ex (member_guild member)) →
  (member_id member ∉ blacklisted_users ex) →
  (member_id member ∉ ignored_members ex (member_guild member)) →
  0 < remaining_study_today lion →
  (session_voice_tracker cfg ex now lion member before after w).1 = Ok ()
  ∧ get (member_guild member) (member_id member)
        (session_voice_tracker cfg ex now lion member before after w).2
    = Some (next_object w)
  ∧ objects (session_voice_tracker cfg ex now lion member before after w).2
    !! next_object w
    = Some (mkSession (member_guild member) (member_id member) None)
  ∧ data (member_guild member) (member_id member)
         (session_voice_tracker cfg ex now lion member before after w).2
    = Some (session_row cfg now (member_guild member) (in_channel ch after))
  ∧ tasks (session_voice_tracker cfg ex now lion member before after w).2
    !! next_task w
    = Some (mkTask (ScheduleExpiry (next_object w) (remaining_study_today lion))
              Sleeping)
  ∧ (∀ self row,
       get (member_guild member) (member_id member) w = Some self →
       data (member_guild member) (member_id member) w = Some row →
       closed_sessions (session_voice_tracker cfg ex now lion member before after w).2
       = closed_sessions w ++ [(member_guild member, member_id member, row)]).
Proof.
  intros Hwf Hmove Hafter Hch Hbl Hig Hbudget. unfold session_voice_tracker.
  set (g := member_guild member). set (u := member_id member).
  set (w0 := with_sessions (dd_touch (sessions w) g) w).
  rewrite decide_False by done.
  assert (∀ w1, get g u w1 = None →
            start_if_tracked cfg ex now lion member after w1
            = start cfg now lion member (in_channel ch after) w1) as Htracked.
  { intros w1 _. unfold start_if_tracked. rewrite Hafter. by rewrite decide_True. }
  assert (∀ w1, get g u w1 = None →
            next_object w1 = next_object w → next_task w1 = next_task w →
            (start cfg now lion member (in_channel ch after) w1).1 = Ok ()
            ∧ get g u (start cfg now lion member (in_channel ch after) w1).2
              = Some (next_object w)
            ∧ objects (start cfg now lion member (in_channel ch after) w1).2
              !! next_object w = Some (mkSession g u None)
            ∧ data g u (start cfg now lion member (in_channel ch after) w1).2
              = Some (session_row cfg now g (in_channel ch after))
            ∧ tasks (start cfg now lion member (in_channel ch after) w1).2
              !! next_task w
              = Some (mkTask (ScheduleExpiry (next_object w)
                                (remaining_study_today lion)) Sleeping)
            ∧ closed_sessions (start cfg now lion member (in_channel ch after) w1).2
              = closed_sessions w1) as Hstart.
  { intros w1 Hnone Hno Hnt.
    destruct (start_opens cfg now lion member (in_channel ch after) w1 Hnone Hbudget)
      as (Hr & Hses & _ & Hobj & _ & Hcur & Hclosed & Htasks & _).
    split; [done|]. unfold get, data. rewrite Hses, Hobj, Hcur, Htasks, Hno, Hnt.
    rewrite dd_get_set, decide_True by done. by rewrite !lookup_insert_eq. }
  destruct (dd_get (sessions w) g !! u) as [self|] eqn:Hses.
  - destruct Hwf as (Hreg & _ & _ & Hno).
    destruct (Hreg g u self Hses) as (s & Hs & Hg & Hu & [row Hrow]).
    simpl. rewrite Hs, Hg, Hu, Hrow.
    assert (get g u (finish self w0) = None) as Hnone.
    { rewrite (finish_get self s w0 g u Hs). by rewrite decide_True. }
    rewrite (Htracked _ Hnone).
    destruct (finish_frame self s w0 Hs) as (_ & _ & _ & Hn & _ & Hnt).
    destruct (Hstart (finish self w0) Hnone Hn Hnt) as (H1 & H2 & H3 & H4 & H5 & H6).
    repeat (split; [done|]).
    intros self' row' _ Hrow'. rewrite H6, (finish_closed self s w0 Hs). simpl.
    rewrite Hg, Hu. fold g u. unfold data in Hrow'. by rewrite Hrow'.
  - unfold dd_pop. cbn [fst snd].
    set (w1 := match dd_get (members_pending w0) g !! u with
               | Some t => cancel t _ | None => _ end).
    assert (get g u w1 = None ∧ next_object w1 = next_object w
            ∧ next_task w1 = next_task w) as (Hnone & Hn & Hnt).
    { unfold w1, get. destruct (dd_get (members_pending w0) g !! u); simpl;
        by rewrite dd_get_touch. }
    rewrite (Htracked _ Hnone).
    destruct (Hstart w1 Hnone Hn Hnt) as (H1 & H2 & H3 & H4 & H5 & H6).
    repeat (split; [done|]).
    intros self row Hget. unfold get in Hget. by rewrite Hses in Hget.
Qed.

Lemma entering_starts_session_witness :
  get 1 2 (session_voice_tracker demo_config (mkExempt (λ _, ∅) ∅ (λ _, ∅)) 200
             (mkLion 3000 100) (mkMember 1 2) (mkVoiceEv (Some 10) true false)
             (mkVoiceEv (Some 11) false true) demo_world).2 = Some 1%nat
  ∧ data 1 2 (session_voice_tracker demo_config (mkExempt (λ _, ∅) ∅ (λ _, ∅)) 200
                (mkLion 3000 100) (mkMember 1 2) (mkVoiceEv (Some 10) true false)
                (mkVoiceEv (Some 11) false true) demo_world).2
    = Some (session_row demo_config 200 1 (mkVoice 11 false true)).
Proof.
  destruct (entering_starts_session demo_config (mkExempt (λ _, ∅) ∅ (λ _, ∅)) 200
              (mkLion 3000 100) (mkMember 1 2) (mkVoiceEv (Some 10) true false)
              (mkVoiceEv (Some 11) false true) 11 demo_world)
    as (_ & Hget & _ & Hdata & _).
  - apply well_formed_demo.
  - discriminate.
  - reflexivity.
  - apply not_elem_of_empty.
  - apply not_elem_of_empty.
  - apply not_elem_of_empty.
  - simpl. lia.
  - split; [exact Hget|exact Hdata].
Defined.

(** X5.  An event that leaves the member in the same channel (camera, stream,
    mute) never starts or ends a session: sessions, session objects, pending
    starts, tasks and closed rows are as they were, the open rows are those
    of the same members, and when neither the camera nor the stream flag has
    changed no row is touched either. *)
Theorem same_channel_keeps_sessions cfg ex now lion member before after w :
  voice_channel before = voice_channel after →
  (∀ g u, get g u (session_voice_tracker cfg ex now lion member before after w).2
          = get g u w)
  ∧ objects (session_voice_tracker cfg ex now lion member before after w).2
    = objects w
  ∧ members_pending (session_voice_tracker cfg ex now lion member before after w).2
    = members_pending w
  ∧ tasks (session_voice_tracker cfg ex now lion member before after w).2 = tasks w
  ∧ closed_sessions (session_voice_tracker cfg ex now lion member before after w).2
    = closed_sessions w
  ∧ (∀ k, is_Some (current_sessions
                     (session_voice_tracker cfg ex now lion member before after w).2
                   !! k)
          ↔ is_Some (current_sessions w !! k))
  ∧ (voice_video before = voice_video after →
     voice_stream before = voice_stream after →
     current_sessions (session_voice_tracker cfg ex now lion member before after w).2
     = current_sessions w).
Proof.
  intros Hsame. unfold session_voice_tracker. rewrite decide_True by done.
  set (w0 := with_sessions (dd_touch (sessions w) (member_guild member)) w).
  assert (∀ g u, get g u w0 = get g u w) as Hget0.
  { intros g u. unfold get, w0. simpl. by rewrite dd_get_touch. }
  destruct (dd_get (sessions w) _ !! _) as [self|]; [|by repeat split].
  destruct (xorb (voice_video before) (voice_video after)
            || xorb (voice_stream before) (voice_stream after)) eqn:Hflags.
  - destruct (save_live_status_frame self now
                (in_channel (default 0 (voice_channel after)) after) w0)
      as (Hses & Hmp & Hobj & _ & Hclosed & Htasks & _ & Hcur).
    split; [intros g u; unfold get; rewrite Hses; apply Hget0|].
    rewrite Hmp, Hobj, Hclosed, Htasks. repeat (split; [done|]). split.
    + intros k. split; [|apply Hcur].
      unfold save_live_status. destruct (objects w0 !! self) as [s|]; [|done].
      destruct (current_sessions w0 !! (guildid s, userid s)) eqn:Hrow; [|done].
      simpl. destruct (decide ((guildid s, userid s) = k)) as [<-|Hne].
      * intros _. unfold w0 in Hrow. simpl in Hrow. by rewrite Hrow.
      * by rewrite lookup_insert_ne.
    + intros Hv Hst. rewrite Hv, Hst in Hflags.
      by destruct (voice_video after), (voice_stream after).
  - by repeat split.
Qed.

Lemma same_channel_keeps_sessions_witness :
  (∀ g u, get g u (session_voice_tracker demo_config (mkExempt (λ _, ∅) ∅ (λ _, ∅)) 200
                     (mkLion 3000 100) (mkMember 1 2) (mkVoiceEv (Some 10) true false)
                     (mkVoiceEv (Some 10) false true) demo_world).2
          = get g u demo_world)
  ∧ tasks (session_voice_tracker demo_config (mkExempt (λ _, ∅) ∅ (λ _, ∅)) 200
             (mkLion 3000 100) (mkMember 1 2) (mkVoiceEv (Some 10) true false)
             (mkVoiceEv (Some 10) false true) demo_world).2
    = tasks demo_world.
Proof.
  destruct (same_channel_keeps_sessions demo_config (mkExempt (λ _, ∅) ∅ (λ _, ∅)) 200
              (mkLion 3000 100) (mkMember 1 2) (mkVoiceEv (Some 10) true false)
              (mkVoiceEv (Some 10) false true) demo_world eq_refl)
    as (Hget & _ & _ & Htasks & _).
  split; [exact Hget|exact Htasks].
Defined.

(** X6.  When the expiry task of a session fires and the member has budget
    left, nothing is closed: sessions, rows and closed rows are as they were,
    the task that fired is finished, and one new expiry task sleeps for the
    budget now remaining. *)
Theorem expiry_reschedules t self d lion w :
  tasks w !! t = Some (mkTask (ScheduleExpiry self d) Sleeping) →
  (t < next_task w)%nat →
  0 < remaining_study_today lion →
  sessions (expiry_wake t lion w) = sessions w
  ∧ current_sessions (expiry_wake t lion w) = current_sessions w
  ∧ closed_sessions (expiry_wake t lion w) = closed_sessions w
  ∧ tasks (expiry_wake t lion w) !! t = Some (mkTask (ScheduleExpiry self d) Finished)
  ∧ tasks (expiry_wake t lion w) !! next_task w
    = Some (mkTask (ScheduleExpiry self (remaining_study_today lion)) Sleeping)
  ∧ next_task (expiry_wake t lion w) = S (next_task w)
  ∧ (∀ t', t' ≠ t → t' ≠ next_task w →
       tasks (expiry_wake t lion w) !! t' = tasks w !! t').
Proof.
  intros Ht Hknown Hbudget. unfold expiry_wake. rewrite Ht.
  rewrite decide_False by lia. unfold schedule_expiry. simpl.
  assert (∀ w1 : World,
            match alter (λ s, mkSession (guildid s) (userid s) None) self (objects w)
                  !! self with
            | Some s => match _expiry_task s with
                        | Some t0 => if done_task t0 w1 then w1 else cancel t0 w1
                        | None => w1
                        end
            | None => w1
            end = w1) as Hnone.
  { intros w1. rewrite lookup_alter, decide_True by done.
    by destruct (objects w !! self). }
  rewrite Hnone. simpl. rewrite lookup_insert_eq.
  rewrite lookup_insert_ne by lia. rewrite lookup_insert_eq.
  repeat (split; [done|]).
  intros t' H1 H2. by rewrite !lookup_insert_ne.
Qed.

Lemma expiry_reschedules_witness :
  sessions (expiry_wake 0 (mkLion 600 100) demo_world) = sessions demo_world
  ∧ tasks (expiry_wake 0 (mkLion 600 100) demo_world) !! 1%nat
    = Some (mkTask (ScheduleExpiry 0 600) Sleeping).
Proof.
  destruct (expiry_reschedules 0 0 3600 (mkLion 600 100) demo_world)
    as (Hses & _ & _ & _ & Hnew & _).
  - vm_compute. reflexivity.
  - vm_compute. lia.
  - simpl. lia.
  - split; [exact Hses|exact Hnew].
Defined.

(** X7.  When an expiry task fires and the member has no budget left, the
    member of the session the task was created for has no session and no
    open row afterwards, whichever session object is registered for them at
    that moment.  An expiry task is never cancelled, so the task of a session
    that was finished long ago closes the session the member has now. *)
Theorem expiry_closes_current_session t self d s lion w :
  tasks w !! t = Some (mkTask (ScheduleExpiry self d) Sleeping) →
  objects w !! self = Some s →
  remaining_study_today lion ≤ 0 →
  get (guildid s) (userid s) (expiry_wake t lion w) = None
  ∧ data (guildid s) (userid s) (expiry_wake t lion w) = None
  ∧ closed_sessions (expiry_wake t lion w)
    = closed_sessions w
      ++ match data (guildid s) (userid s) w with
         | Some row => [(guildid s, userid s, row)]
         | None => []
         end
  ∧ tasks (expiry_wake t lion w) !! t = Some (mkTask (ScheduleExpiry self d) Finished).
Proof.
  intros Ht Hs Hcap. unfold expiry_wake. rewrite Ht.
  rewrite decide_True by done.
  set (w1 := with_objects _ w).
  assert (objects w1 !! self = Some (mkSession (guildid s) (userid s) None)) as Hs1.
  { unfold w1. simpl. rewrite lookup_alter, decide_True by done. by rewrite Hs. }
  unfold get, data. simpl.
  pose proof (finish_get self _ w1 (guildid s) (userid s) Hs1) as Hget.
  pose proof (finish_data self _ w1 (guildid s) (userid s) Hs1) as Hdata.
  pose proof (finish_closed self _ w1 Hs1) as Hclosed.
  cbn [guildid userid] in Hget, Hdata, Hclosed.
  rewrite decide_True in Hget by done. rewrite decide_True in Hdata by done.
  unfold get in Hget. unfold data in Hdata.
  rewrite Hget, Hdata, Hclosed. by rewrite lookup_insert_eq.
Qed.

Lemma expiry_closes_current_session_witness :
  get 1 2 (start demo_config 300 (mkLion 3000 100) (mkMember 1 2)
             (mkVoice 11 false false) (finish 0 demo_world)).2 = Some 1%nat
  ∧ get 1 2 (expiry_wake 0 (mkLion 0 100)
               (start demo_config 300 (mkLion 3000 100) (mkMember 1 2)
                  (mkVoice 11 false false) (finish 0 demo_world)).2) = None.
Proof.
  split; [vm_compute; reflexivity|].
  apply (expiry_closes_current_session 0 0 3600 (mkSession 1 2 None)).
  - vm_compute. reflexivity.
  - vm_compute. reflexivity.
  - simpl. lia.
Defined.

Lemma world_eq w1 w2 :
  sessions w1 = sessions w2 → members_pending w1 = members_pending w2 →
  objects w1 = objects w2 → next_object w1 = next_object w2 →
  current_sessions w1 = current_sessions w2 →
  closed_sessions w1 = closed_sessions w2 →
  tasks w1 = tasks w2 → next_task w1 = next_task w2 → w1 = w2.
Proof. destruct w1, w2. simpl. by intros -> -> -> -> -> -> -> ->. Qed.

(** X8.  Finishing a session twice is finishing it once: the second call finds
    no row to close, no entry to remove and no task left to cancel. *)
Theorem finish_idempotent self w : finish self (finish self w) = finish self w.
Proof.
  destruct (objects w !! self) as [s|] eqn:Hs.
  2:{ assert (finish self w = w) as -> by (unfold finish; by rewrite Hs).
      unfold finish. by rewrite Hs. }
  assert (objects (finish self w) !! self = Some s) as Hs'.
  { by rewrite finish_objects. }
  destruct (finish_frame self s w Hs) as (Hses & Hmp & Hobj & Hn & Hcur & Hnt).
  destruct (finish_frame self s (finish self w) Hs')
    as (Hses' & Hmp' & Hobj' & Hn' & Hcur' & Hnt').
  apply world_eq; try congruence.
  - rewrite Hses', Hses. unfold dd_pop, dd_get. simpl.
    rewrite lookup_insert_eq. simpl. rewrite insert_insert_eq.
    f_equal. apply map_eq. intros k. rewrite !lookup_delete. by case_decide.
  - rewrite Hcur', Hcur. apply map_eq. intros k. rewrite !lookup_delete. by case_decide.
  - rewrite (finish_closed self s (finish self w) Hs'), Hcur, lookup_delete_eq.
    by rewrite app_nil_r.
  - unfold finish at 1. rewrite Hs'.
    assert (tasks (with_sessions
                     (dd_pop (sessions (close_study_session (guildid s) (userid s)
                                          (finish self w))) (guildid s) (userid s)).2
                     (close_study_session (guildid s) (userid s) (finish self w)))
            = tasks (finish self w)) as Hsame.
    { simpl. apply close_study_session_tasks. }
    destruct (_expiry_task s) as [t|] eqn:Hexp; [|exact Hsame].
    unfold done_task. rewrite Hsame.
    destruct (tasks (finish self w) !! t) as [k|] eqn:Hk; [|exact Hsame].
    destruct (status_done (status k)) eqn:Hdone; [exact Hsame|].
    exfalso. revert Hk. unfold finish. rewrite Hs, Hexp.
    set (w2 := with_sessions _ _). unfold done_task.
    destruct (tasks w2 !! t) as [k2|] eqn:Hk2.
    + destruct (status_done (status k2)) eqn:Hd2.
      * rewrite Hk2. intros [= <-]. by rewrite Hd2 in Hdone.
      * unfold cancel, with_tasks. cbn [tasks].
        rewrite lookup_alter, decide_True by done. rewrite Hk2. simpl.
        intros [= <-]. simpl in Hdone. by destruct (status k2).
    + by rewrite Hk2.
Qed.

(** X9.  A capped member who leaves voice while the start is pending does not
    get a session when the day resets: the dispatcher has cancelled the
    pending task, and a cancelled task does nothing when its sleep would have
    ended. *)
Theorem left_member_never_started cfg ex now lion now' lion' member before after t w :
  get (member_guild member) (member_id member) w = None →
  dd_get (members_pending w) (member_guild member) !! member_id member = Some t →
  voice_channel before ≠ voice_channel after →
  voice_channel after = None →
  delayed_start_wake cfg now' lion' t
    (session_voice_tracker cfg ex now lion member before after w).2
  = (Ok (), (session_voice_tracker cfg ex now lion member before after w).2).
Proof.
  intros Hget Hpend Hmove Hafter. unfold session_voice_tracker.
  rewrite decide_False by done. unfold get in Hget. rewrite Hget.
  unfold dd_pop. cbn [fst snd]. simpl. rewrite Hpend.
  unfold start_if_tracked. rewrite Hafter. simpl.
  unfold delayed_start_wake. simpl. rewrite lookup_alter, decide_True by done.
  destruct (tasks w !! t) as [[c st]|]; simpl; [|done].
  by destruct c, st.
Qed.

Lemma left_member_never_started_witness :
  get 1 3 (delayed_start_wake demo_config 900 (mkLion 3000 100) 1
             (session_voice_tracker demo_config (mkExempt (λ _, ∅) ∅ (λ _, ∅)) 500
                (mkLion 0 400) (mkMember 1 3) (mkVoiceEv (Some 10) false false)
                (mkVoiceEv None false false)
                (start demo_config 400 (mkLion 0 400) (mkMember 1 3)
                       (mkVoice 10 false false) demo_world).2).2).2 = None.
Proof.
  rewrite (left_member_never_started demo_config (mkExempt (λ _, ∅) ∅ (λ _, ∅)) 500
             (mkLion 0 400) 900 (mkLion 3000 100) (mkMember 1 3)
             (mkVoiceEv (Some 10) false false) (mkVoiceEv None false false) 1%nat).
  - vm_compute. reflexivity.
  - vm_compute. reflexivity.
  - vm_compute. reflexivity.
  - discriminate.
  - reflexivity.
Defined.

(** X10.  Starting a session for a member who has neither a session nor an
    open row and then finishing it leaves the table of open rows as it was,
    the member without a session, every other member's session as it was,
    and exactly the new row added to the closed ones. *)
Theorem start_then_finish cfg now lion member state w :
  get (member_guild member) (member_id member) w = None →
  data (member_guild member) (member_id member) w = None →
  0 < remaining_study_today lion →
  current_sessions (finish (next_object w) (start cfg now lion member state w).2)
  = current_sessions w
  ∧ (∀ g u, get g u (finish (next_object w) (start cfg now lion member state w).2)
            = get g u w)
  ∧ closed_sessions (finish (next_object w) (start cfg now lion member state w).2)
    = closed_sessions w
      ++ [(member_guild member, member_id member,
           session_row cfg now (member_guild member) state)].
Proof.
  intros Hget Hdata Hbudget.
  destruct (start_opens cfg now lion member state w Hget Hbudget)
    as (_ & Hses & _ & Hobj & _ & Hcur & Hclosed & _).
  set (w1 := (start cfg now lion member state w).2) in *.
  assert (objects w1 !! next_object w
          = Some (mkSession (member_guild member) (member_id member) None)) as Hs.
  { by rewrite Hobj, lookup_insert_eq. }
  destruct (finish_frame _ _ w1 Hs) as (_ & _ & _ & _ & Hcur' & _).
  simpl in Hcur'. split; [|split].
  - rewrite Hcur', Hcur. by apply delete_insert_id.
  - intros g u. rewrite (finish_get _ _ w1 g u Hs). simpl. case_decide as Hk.
    + destruct Hk as [<- <-]. by rewrite Hget.
    + unfold get. rewrite Hses, dd_get_set, dd_get_touch. by rewrite decide_False.
  - rewrite (finish_closed _ _ w1 Hs). simpl. by rewrite Hcur, lookup_insert_eq, Hclosed.
Qed.

Lemma start_then_finish_witness :
  current_sessions
    (finish 0 (start demo_config 100 (mkLion 3600 7200) (mkMember 1 2)
                 (mkVoice 10 true false) empty_world).2) = ∅.
Proof.
  destruct (start_then_finish demo_config 100 (mkLion 3600 7200) (mkMember 1 2)
              (mkVoice 10 true false) empty_world) as (Hcur & _).
  - reflexivity.
  - reflexivity.
  - simpl. lia.
  - exact Hcur.
Defined.

(** One update, on a session that has its row. *)
Lemma save_live_status_row self s row now state w :
  objects w !! self = Some s →
  data (guildid s) (userid s) w = Some row →
  objects (save_live_status self now state w).2 !! self = Some s
  ∧ ∃ row',
      data (guildid s) (userid s) (save_live_status self now state w).2 = Some row'
      ∧ video_start row' = (if self_video state then Some now else None)
      ∧ stream_start row' = (if self_stream state then Some now else None)
      ∧ live_start row'
        = (if self_video state || self_stream state then Some now else None)
      ∧ video_duration row'
        = video_duration row
          + match video_start row with Some t => now - t | None => 0 end
      ∧ stream_duration row'
        = stream_duration row
          + match stream_start row with Some t => now - t | None => 0 end
      ∧ live_duration row'
        = live_duration row
          + match live_start row with Some t => now - t | None => 0 end.
Proof.
  intros Hs Hrow. unfold data in Hrow. unfold save_live_status. rewrite Hs, Hrow.
  simpl. split; [done|]. eexists. unfold data. simpl. rewrite lookup_insert_eq.
  split; [reflexivity|]. simpl.
  destruct (video_start row), (stream_start row), (live_start row);
    repeat split; lia.
Qed.

(** X11.  Over any row of live-status updates of a session, each sub-timer
    records exactly the time between updates during which it was running:
    the camera time, the stream time and the combined time each grow by the
    sum, over the updates, of the time since the timer was last started. *)
Theorem subtimers_record_on_time self s row updates w :
  objects w !! self = Some s →
  data (guildid s) (userid s) w = Some row →
  ∃ row',
    data (guildid s) (userid s) (save_live_statuses self updates w) = Some row'
    ∧ video_duration row'
      = video_duration row + on_time self_video (video_start row) updates
    ∧ stream_duration row'
      = stream_duration row + on_time self_stream (stream_start row) updates
    ∧ live_duration row'
      = live_duration row
        + on_time (λ state, self_video state || self_stream state)
                  (live_start row) updates.
Proof.
  revert row w. induction updates as [|[now state] updates IH]; intros row w Hs Hrow.
  - exists row. simpl. repeat split; [done|lia..].
  - destruct (save_live_status_row self s row now state w Hs Hrow)
      as (Hs1 & row1 & Hrow1 & Hv & Hst & Hl & Hvd & Hsd & Hld).
    destruct (IH row1 _ Hs1 Hrow1) as (row' & Hrow' & Hv' & Hs' & Hl').
    exists row'. simpl. split; [exact Hrow'|].
    rewrite Hv', Hs', Hl', Hvd, Hsd, Hld, Hv, Hst, Hl. repeat split; lia.
Qed.

Lemma subtimers_record_on_time_witness :
  ∃ row',
    data 1 2 (save_live_statuses 0
                [(160, mkVoice 10 false true); (200, mkVoice 10 true true);
                 (230, mkVoice 10 false false)] demo_world) = Some row'
    ∧ video_duration row' = 90
    ∧ stream_duration row' = 70
    ∧ live_duration row' = 130.
Proof.
  assert (objects demo_world !! 0%nat = Some (mkSession 1 2 None)) as Ho
    by (vm_compute; reflexivity).
  assert (data 1 2 demo_world
          = Some (session_row demo_config 100 1 (mkVoice 10 true false))) as Hd
    by (vm_compute; reflexivity).
  destruct (subtimers_record_on_time 0 (mkSession 1 2 None) _
              [(160, mkVoice 10 false true); (200, mkVoice 10 true true);
               (230, mkVoice 10 false false)] demo_world Ho Hd)
    as (row' & Hrow' & Hv & Hs & Hl).
  exists row'. split; [exact Hrow'|]. rewrite Hv, Hs, Hl.
  vm_compute. repeat split; reflexivity.
Defined.

Lemma timers_consistent_start cfg now g state :
  timers_consistent now (session_row cfg now g state).
Proof.
  unfold timers_consistent, session_row. simpl.
  destruct (self_video state), (self_stream state); simpl;
    repeat split; try (intros ? [= <-]; done); try done; try lia;
    try (intros [? [=]]); try (intros [[? [=]]|[? [=]]]); eauto.
Qed.

(** X12.  The sub-timers of a session stay consistent: in the row [start]
    creates, and after every live-status update made no earlier than the
    previous one, the timers that run were all started at the last update,
    the combined timer runs exactly when the camera or the stream timer does,
    and the recorded camera time and stream time are each at most the
    recorded combined time, which is at most their sum. *)
Theorem subtimers_stay_consistent cfg g state0 self s row since now state w :
  objects w !! self = Some s →
  data (guildid s) (userid s) w = Some row →
  timers_consistent since row →
  since ≤ now →
  timers_consistent now (session_row cfg now g state0)
  ∧ ∃ row',
      data (guildid s) (userid s) (save_live_status self now state w).2 = Some row'
      ∧ timers_consistent now row'
      ∧ 0 ≤ video_duration row' ≤ live_duration row'
      ∧ 0 ≤ stream_duration row' ≤ live_duration row'
      ∧ live_duration row' ≤ video_duration row' + stream_duration row'.
Proof.
  intros Hs Hrow (Hv & Hst & Hl & Hrun & Hvd & Hsd & Hld) Hle.
  split; [apply timers_consistent_start|].
  destruct (save_live_status_row self s row now state w Hs Hrow)
    as (_ & row' & Hrow' & Hv' & Hs' & Hl' & Hvd' & Hsd' & Hld').
  exists row'. split; [exact Hrow'|].
  assert (0 ≤ video_duration row' ≤ live_duration row'
          ∧ 0 ≤ stream_duration row' ≤ live_duration row'
          ∧ live_duration row' ≤ video_duration row' + stream_duration row') as Hord.
  { rewrite Hvd', Hsd', Hld'.
    assert (∀ t, video_start row = Some t → live_start row = Some since) as Hlv.
    { intros t Ht. destruct (proj2 Hrun) as [tl Htl]; [left; by eexists|].
      by rewrite Htl, (Hl tl Htl). }
    assert (∀ t, stream_start row = Some t → live_start row = Some since) as Hls.
    { intros t Ht. destruct (proj2 Hrun) as [tl Htl]; [right; by eexists|].
      by rewrite Htl, (Hl tl Htl). }
    assert (∀ t, live_start row = Some t →
                 video_start row = Some since ∨ stream_start row = Some since) as Hli.
    { intros t Ht. destruct (proj1 Hrun) as [[tv Htv]|[ts Hts]]; [by eexists| |].
      - left. by rewrite Htv, (Hv tv Htv).
      - right. by rewrite Hts, (Hst ts Hts). }
    destruct (video_start row) as [tv|] eqn:Ev.
    - rewrite (Hv tv eq_refl), (Hlv tv eq_refl).
      destruct (stream_start row) as [ts|]; [rewrite (Hst ts eq_refl)|]; lia.
    - destruct (stream_start row) as [ts|] eqn:Es.
      + rewrite (Hst ts eq_refl), (Hls ts eq_refl). lia.
      + destruct (live_start row) as [tl|]; [|lia].
        by destruct (Hli tl eq_refl). }
  split; [|exact Hord].
  unfold timers_consistent. rewrite Hv', Hs', Hl'.
  split. { intros t Ht. destruct (self_video state); by inversion Ht. }
  split. { intros t Ht. destruct (self_stream state); by inversion Ht. }
  split. { intros t Ht. destruct (_ || _); by inversion Ht. }
  split; [|exact Hord].
  destruct (self_video state), (self_stream state); simpl; split; intros H;
    first [ by exists now
          | by left; exists now
          | by right; exists now
          | by destruct H as [? [=]]
          | by destruct H as [[? [=]]|[? [=]]] ].
Qed.

Lemma subtimers_stay_consistent_witness :
  ∃ row',
    data 1 2 (save_live_status 0 160 (mkVoice 10 false true) demo_world).2 = Some row'
    ∧ video_duration row' ≤ live_duration row'.
Proof.
  assert (objects demo_world !! 0%nat = Some (mkSession 1 2 None)) as Ho
    by (vm_compute; reflexivity).
  assert (data 1 2 demo_world
          = Some (session_row demo_config 100 1 (mkVoice 10 true false))) as Hd
    by (vm_compute; reflexivity).
  destruct (subtimers_stay_consistent demo_config 1 (mkVoice 10 true false) 0
              (mkSession 1 2 None) _ 100 160 (mkVoice 10 false true) demo_world Ho Hd
              (timers_consistent_start demo_config 100 1 (mkVoice 10 true false))
              ltac:(lia))
    as (_ & row' & Hrow' & _ & Hv & _).
  exists row'. split; [exact Hrow'|]. lia.
Defined.

(** ** Startup reconciliation *)

Lemma activate_frame self s lion w :
  objects w !! self = Some s →
  sessions (activate self lion w) = dd_set (sessions w) (guildid s) (userid s) self
  ∧ members_pending (activate self lion w) = members_pending w
  ∧ objects (activate self lion w) = objects w
  ∧ next_object (activate self lion w) = next_object w
  ∧ current_sessions (activate self lion w) = current_sessions w
  ∧ closed_sessions (activate self lion w) = closed_sessions w.
Proof.
  intros Hs. unfold activate. rewrite Hs.
  destruct (schedule_expiry_frame self lion
              (with_sessions (dd_set (sessions w) (guildid s) (userid s) self) w))
    as (-> & -> & -> & -> & -> & -> & _).
  done.
Qed.

(** What the loop makes of a saved row, [w] being the state before the loop
    and [w'] the state after it. *)
Definition reconciled (p : Presence) (k : Z * Z * Row) (w w' : World) : Prop :=
  match known_guild p k.1.1, row_channelid k.2 with
  | true, Some channelid =>
      match voice_of p k.1.1 channelid k.1.2 with
      | Some voice =>
          is_Some (get k.1.1 k.1.2 w')
          ∧ ∃ row',
              data k.1.1 k.1.2 w' = Some row'
              ∧ row_channelid row' = row_channelid k.2
              ∧ row_start_time row' = row_start_time k.2
              ∧ video_start row'
                = (if self_video voice then Some (clock p k.1.1 k.1.2) else None)
              ∧ stream_start row'
                = (if self_stream voice then Some (clock p k.1.1 k.1.2) else None)
              ∧ live_start row'
                = (if self_video voice || self_stream voice
                   then Some (clock p k.1.1 k.1.2) else None)
      | None =>
          get k.1.1 k.1.2 w' = None
          ∧ data k.1.1 k.1.2 w' = None
      end
  | _, _ =>
      get k.1.1 k.1.2 w' = get k.1.1 k.1.2 w
      ∧ data k.1.1 k.1.2 w' = Some k.2
  end.

Lemma resume_row_unfold p g u row w :
  resume_row p (g, u, row) w
  = match known_guild p g, row_channelid row with
    | true, Some channelid =>
        match voice_of p g channelid u with
        | Some voice =>
            save_live_status (next_object w) (clock p g u) voice
              (activate (next_object w) (lion_of p g u) (new_session g u w).2)
        | None => (Ok (), finish (next_object w) (new_session g u w).2)
        end
    | _, _ => (Ok (), w)
    end.
Proof. reflexivity. Qed.

Lemma resume_row_other p k w g u :
  (g, u) ≠ k.1 →
  get g u (resume_row p k w).2 = get g u w
  ∧ data g u (resume_row p k w).2 = data g u w.
Proof.
  intros Hne. destruct k as [[g0 u0] row]. rewrite resume_row_unfold. simpl in Hne.
  destruct (known_guild p g0); [|done].
  destruct (row_channelid row) as [channelid|]; [|done].
  set (w1 := (new_session g0 u0 w).2).
  assert (objects w1 !! next_object w = Some (mkSession g0 u0 None)) as Hs.
  { unfold w1. simpl. by rewrite lookup_insert_eq. }
  destruct (voice_of p g0 channelid u0) as [voice|].
  - set (w2 := activate (next_object w) (lion_of p g0 u0) w1).
    assert (sessions w2 = dd_set (sessions w) g0 u0 (next_object w)
            ∧ objects w2 !! next_object w = Some (mkSession g0 u0 None)
            ∧ current_sessions w2 = current_sessions w) as (Hses & Hs2 & Hcur).
    { destruct (activate_frame _ _ (lion_of p g0 u0) w1 Hs)
        as (Ha & _ & Hb & _ & Hc & _).
      fold w2 in Ha, Hb, Hc. by rewrite Ha, Hb, Hc. }
    destruct (save_live_status_frame (next_object w) (clock p g0 u0) voice w2)
      as (Hses' & _).
    unfold get, data. rewrite Hses', Hses. split.
    + rewrite dd_get_set. rewrite decide_False; [done|]. intros [<- <-]. by apply Hne.
    + unfold save_live_status. rewrite Hs2. simpl.
      destruct (current_sessions w2 !! (g0, u0)); simpl; [|by rewrite Hcur].
      rewrite lookup_insert_ne by (intros [= <- <-]; by apply Hne).
      by rewrite Hcur.
  - cbn [snd]. split.
    + rewrite (finish_get _ _ w1 g u Hs). simpl.
      rewrite decide_False; [done|]. intros [<- <-]. by apply Hne.
    + rewrite (finish_data _ _ w1 g u Hs). simpl.
      rewrite decide_False; [done|]. intros [<- <-]. by apply Hne.
Qed.

Lemma resume_row_own p k w :
  data k.1.1 k.1.2 w = Some k.2 →
  (resume_row p k w).1 = Ok () ∧ reconciled p k w (resume_row p k w).2.
Proof.
  intros Hrow. destruct k as [[g0 u0] row]. rewrite resume_row_unfold.
  unfold reconciled. cbn [fst snd] in *.
  destruct (known_guild p g0); [|done].
  destruct (row_channelid row) as [channelid|] eqn:Hchannel; [|done].
  set (w1 := (new_session g0 u0 w).2).
  assert (objects w1 !! next_object w = Some (mkSession g0 u0 None)) as Hs.
  { unfold w1. simpl. by rewrite lookup_insert_eq. }
  destruct (voice_of p g0 channelid u0) as [voice|].
  - set (w2 := activate (next_object w) (lion_of p g0 u0) w1).
    assert (sessions w2 = dd_set (sessions w) g0 u0 (next_object w)
            ∧ objects w2 !! next_object w = Some (mkSession g0 u0 None)
            ∧ current_sessions w2 = current_sessions w) as (Hses & Hs2 & Hcur).
    { destruct (activate_frame _ _ (lion_of p g0 u0) w1 Hs)
        as (Ha & _ & Hb & _ & Hc & _).
      fold w2 in Ha, Hb, Hc. by rewrite Ha, Hb, Hc. }
    assert (data g0 u0 w2 = Some row) as Hrow2 by (unfold data; by rewrite Hcur).
    clearbody w2. unfold save_live_status. rewrite Hs2. cbn [guildid userid].
    unfold data in Hrow2. rewrite Hrow2. cbn [fst snd].
    split; [done|]. split.
    + unfold get. simpl. rewrite Hses, dd_get_set, decide_True by done. by eexists.
    + eexists. unfold data. simpl. rewrite lookup_insert_eq. by repeat split.
  - cbn [fst snd]. split; [done|]. split.
    + rewrite (finish_get _ _ w1 g0 u0 Hs). simpl. by rewrite decide_True.
    + rewrite (finish_data _ _ w1 g0 u0 Hs). simpl. by rewrite decide_True.
Qed.

Lemma resume_rows_spec p rows w :
  NoDup rows.*1 →
  (∀ k, k ∈ rows → data k.1.1 k.1.2 w = Some k.2) →
  (resume_rows p rows w).1 = Ok ()
  ∧ (∀ k, k ∈ rows → reconciled p k w (resume_rows p rows w).2)
  ∧ (∀ g u, (g, u) ∉ rows.*1 →
       get g u (resume_rows p rows w).2 = get g u w
       ∧ data g u (resume_rows p rows w).2 = data g u w).
Proof.
  revert w. induction rows as [|k rows IH]; intros w Hnd Hrows; simpl.
  { split; [done|]. split; [by intros k ?%elem_of_nil|done]. }
  rewrite fmap_cons in Hnd. apply NoDup_cons in Hnd as [Hfresh Hnd].
  destruct (resume_row_own p k w) as [Hok Hown]; [apply Hrows, list_elem_of_here|].
  destruct (resume_row p k w) as [[[]|e] w1] eqn:Hstep; [|done]. simpl in Hown.
  assert (∀ g u, (g, u) ≠ k.1 →
            get g u w1 = get g u w ∧ data g u w1 = data g u w) as Hother.
  { intros g u Hne. pose proof (resume_row_other p k w g u Hne) as H.
    by rewrite Hstep in H. }
  assert (∀ k', k' ∈ rows → k'.1 ≠ k.1) as Hdiff.
  { intros k' Hin Heq. apply Hfresh. rewrite <- Heq. by apply list_elem_of_fmap_2. }
  destruct (IH w1 Hnd) as (Hr & Hrec & Hframe).
  { intros k' Hin. destruct k' as [[g' u'] row']. simpl.
    destruct (Hother g' u' (Hdiff _ Hin)) as [_ ->].
    apply (Hrows (g', u', row')). by apply list_elem_of_further. }
  split; [done|]. split.
  - intros k' [->|Hin]%elem_of_cons.
    + destruct k as [[g0 u0] row0]. simpl in *.
      destruct (Hframe g0 u0 Hfresh) as [Hg Hd].
      unfold reconciled in *. simpl in *. rewrite Hg, Hd. exact Hown.
    + specialize (Hrec k' Hin). destruct k' as [[g' u'] row'].
      destruct (Hother g' u' (Hdiff _ Hin)) as [Hg Hd].
      unfold reconciled in *. simpl in *.
      destruct (known_guild p g'); [|by rewrite <- Hg].
      destruct (row_channelid row'); [exact Hrec|]. by rewrite <- Hg.
  - intros g u Hnot. apply not_elem_of_cons in Hnot as [Hne Hnot].
    destruct (Hframe g u Hnot) as [-> ->]. by apply Hother.
Qed.

(** X13.  The startup loop reconciles every saved open row with the voice
    channels and never fails: where the member is still in the recorded
    channel of a known guild the session is resumed (registered again, the
    row kept, its sub-timer starts set from the present camera and stream
    flags); where not, the row is closed and there is no session; rows of
    guilds the client does not know, and rows without a channel, are left
    alone, and so is every member without a saved row. *)
Theorem startup_reconciles_rows p w :
  (resume_rows p (map_to_list (current_sessions w)) w).1 = Ok ()
  ∧ (∀ g u row,
       data g u w = Some row →
       reconciled p (g, u, row) w
         (resume_rows p (map_to_list (current_sessions w)) w).2)
  ∧ (∀ g u,
       data g u w = None →
       get g u (resume_rows p (map_to_list (current_sessions w)) w).2 = get g u w
       ∧ data g u (resume_rows p (map_to_list (current_sessions w)) w).2 = None).
Proof.
  destruct (resume_rows_spec p (map_to_list (current_sessions w)) w)
    as (Hok & Hrec & Hframe).
  - apply NoDup_fst_map_to_list.
  - intros [[g u] row] Hin. simpl. by apply elem_of_map_to_list in Hin.
  - split; [exact Hok|]. split.
    + intros g u row Hrow. apply Hrec. by apply elem_of_map_to_list.
    + intros g u Hnone. destruct (Hframe g u) as [Hg Hd].
      * intros ([gu row] & Heq & Hin)%list_elem_of_fmap. simpl in Heq. subst gu.
        apply elem_of_map_to_list in Hin. unfold data in Hnone. congruence.
      * by rewrite Hg, Hd.
Qed.

Lemma startup_reconciles_rows_witness :
  (get 1 2 (resume_rows demo_presence (map_to_list (current_sessions demo_saved))
              demo_saved).2 = None
   ∧ data 1 2 (resume_rows demo_presence (map_to_list (current_sessions demo_saved))
                 demo_saved).2 = None)
  ∧ (get 1 3 (resume_rows demo_presence (map_to_list (current_sessions demo_saved))
                demo_saved).2 = get 1 3 demo_saved
     ∧ data 1 3 (resume_rows demo_presence (map_to_list (current_sessions demo_saved))
                   demo_saved).2
       = Some (mkRow None STANDARD 100 None None None 0 0 0 6 2)).
Proof.
  destruct (startup_reconciles_rows demo_presence demo_saved) as (_ & Hrec & _).
  split.
  - assert (data 1 2 demo_saved
            = Some (mkRow (Some 10) STANDARD 100 None None None 0 0 0 6 2)) as Hd
      by (vm_compute; reflexivity).
    exact (Hrec 1 2 _ Hd).
  - assert (data 1 3 demo_saved
            = Some (mkRow None STANDARD 100 None None None 0 0 0 6 2)) as Hd
      by (vm_compute; reflexivity).
    exact (Hrec 1 3 _ Hd).
Defined.

Lemma start_other cfg now lion member state w g u :
  (g, u) ≠ (member_guild member, member_id member) →
  get g u (start cfg now lion member state w).2 = get g u w
  ∧ data g u (start cfg now lion member state w).2 = data g u w
  ∧ dd_get (members_pending (start cfg now lion member state w).2) g !! u
    = dd_get (members_pending w) g !! u.
Proof.
  intros Hne. unfold start.
  destruct (decide (is_Some _)); simpl.
  { by rewrite get_with_touch. }
  destruct (decide (_ ≤ 0)); simpl.
  - unfold dd_pop. simpl.
    pose proof (dd_get_pop (members_pending w) (member_guild member)
                  (member_id member) g u) as Hp.
    unfold dd_pop in Hp. simpl in Hp.
    destruct (dd_get (members_pending w) _ !! member_id member); simpl;
      (split; [unfold get; simpl; by rewrite dd_get_touch|]); (split; [done|]);
      rewrite dd_get_set, Hp; rewrite !decide_False; try done;
      intros [<- <-]; by apply Hne.
  - unfold activate. simpl. rewrite lookup_insert_eq. unfold schedule_expiry. simpl.
    rewrite lookup_insert_eq. simpl. split; [|split; [|done]].
    + unfold get. simpl. rewrite dd_get_set, dd_get_touch.
      rewrite decide_False; [done|]. intros [<- <-]. by apply Hne.
    + unfold data. simpl. rewrite lookup_insert_ne; [done|].
      intros [= <- <-]. by apply Hne.
Qed.

Lemma start_capped_pending cfg now lion member state w :
  get (member_guild member) (member_id member) w = None →
  remaining_study_today lion ≤ 0 →
  dd_get (members_pending (start cfg now lion member state w).2)
         (member_guild member) !! member_id member = Some (next_task w).
Proof.
  intros Hget Hcap. unfold start.
  rewrite decide_False by (unfold get in Hget; rewrite Hget; by intros [? ?]).
  rewrite decide_True by done. unfold dd_pop. simpl.
  destruct (dd_get (members_pending w) _ !! _); simpl;
    by rewrite dd_get_set, decide_True.
Qed.

(** What the second half of the startup has made of a member it found in a
    tracked channel without a session. *)
Definition started (cfg : Config) (p : Presence) (mv : Member * VoiceState)
    (w' : World) : Prop :=
  let g := member_guild mv.1 in
  let u := member_id mv.1 in
  if decide (0 < remaining_study_today (lion_of p g u)) then
    is_Some (get g u w')
    ∧ data g u w' = Some (session_row cfg (clock p g u) g mv.2)
  else
    get g u w' = None ∧ is_Some (dd_get (members_pending w') g !! u).

Lemma start_members_spec cfg p members w :
  NoDup ((λ mv : Member * VoiceState, (member_guild mv.1, member_id mv.1)) <$> members) →
  (∀ mv, mv ∈ members → get (member_guild mv.1) (member_id mv.1) w = None) →
  (start_members cfg p members w).1 = Ok ()
  ∧ (∀ mv, mv ∈ members → started cfg p mv (start_members cfg p members w).2)
  ∧ (∀ g u, (g, u) ∉ ((λ mv : Member * VoiceState, (member_guild mv.1, member_id mv.1))
                       <$> members) →
       get g u (start_members cfg p members w).2 = get g u w
       ∧ data g u (start_members cfg p members w).2 = data g u w
       ∧ dd_get (members_pending (start_members cfg p members w).2) g !! u
         = dd_get (members_pending w) g !! u).
Proof.
  revert w. induction members as [|[member voice] members IH]; intros w Hnd Hnew.
  { simpl. split; [done|]. split; [by intros mv ?%elem_of_nil|done]. }
  rewrite fmap_cons in Hnd. apply NoDup_cons in Hnd as [Hfresh Hnd]. simpl in Hfresh.
  set (g := member_guild member) in *. set (u := member_id member) in *.
  assert (get g u w = None) as Hnone by apply (Hnew (member, voice)), list_elem_of_here.
  assert ((start cfg (clock p g u) (lion_of p g u) member voice w).1 = Ok ()
          ∧ started cfg p (member, voice)
              (start cfg (clock p g u) (lion_of p g u) member voice w).2)
    as [Hok Hown].
  { unfold started. cbn [fst snd]. fold g u. case_decide as Hb.
    - destruct (start_opens cfg (clock p g u) (lion_of p g u) member voice w Hnone Hb)
        as (Hr & Hses & _ & _ & _ & Hcur & _).
      split; [done|]. unfold get, data. rewrite Hses, Hcur.
      rewrite dd_get_set, decide_True by done. rewrite lookup_insert_eq.
      split; [by eexists|done].
    - destruct (start_capped cfg (clock p g u) (lion_of p g u) member voice w Hnone
                  ltac:(lia)) as (Hr & Hses & _).
      split; [done|]. split.
      + unfold get. rewrite Hses, dd_get_touch. exact Hnone.
      + pose proof (start_capped_pending cfg (clock p g u) (lion_of p g u) member
                      voice w Hnone ltac:(lia)) as Hp.
        fold g u in Hp. rewrite Hp. by eexists. }
  cbn [start_members]. fold g u.
  destruct (start cfg (clock p g u) (lion_of p g u) member voice w) as [[[]|e] w1]
    eqn:Hstep; [|done].
  cbn [fst snd] in Hown.
  assert (∀ g' u', (g', u') ≠ (g, u) →
            get g' u' w1 = get g' u' w ∧ data g' u' w1 = data g' u' w
            ∧ dd_get (members_pending w1) g' !! u'
              = dd_get (members_pending w) g' !! u') as Hother.
  { intros g' u' Hne.
    pose proof (start_other cfg (clock p g u) (lion_of p g u) member voice w g' u' Hne)
      as H. by rewrite Hstep in H. }
  assert (∀ mv, mv ∈ members → (member_guild mv.1, member_id mv.1) ≠ (g, u)) as Hdiff.
  { intros mv Hin Heq. apply Hfresh. rewrite <- Heq.
    by apply (list_elem_of_fmap_2
                (λ mv : Member * VoiceState, (member_guild mv.1, member_id mv.1))). }
  destruct (IH w1 Hnd) as (Hr & Hst & Hframe).
  { intros mv Hin. destruct (Hother _ _ (Hdiff mv Hin)) as [-> _].
    apply Hnew. by apply list_elem_of_further. }
  split; [done|]. split.
  - intros mv [->|Hin]%elem_of_cons; [|by apply Hst].
    destruct (Hframe g u Hfresh) as (Hg & Hd & Hp).
    unfold started in *. cbn [fst snd] in *. fold g u in Hown |- *.
    rewrite Hg, Hd, Hp. exact Hown.
  - intros g' u' Hnot. rewrite fmap_cons in Hnot.
    apply not_elem_of_cons in Hnot as [Hne Hnot]. simpl in Hne.
    destruct (Hframe g' u' Hnot) as (-> & -> & ->). by apply Hother.
Qed.

(** X14.  The second half of the startup never fails when it is given each
    member once, and leaves every member it found in a tracked channel
    without a session either with a session whose row records the channel
    and flags, or, when there is no daily budget left, with a pending start
    and no session.  Every member it found there with a session, and every
    member it did not find there, keeps the session, the row and the pending
    start they had.  The exemption lists are not consulted. *)
Theorem startup_starts_members cfg p present w :
  NoDup ((λ mv : Member * VoiceState, (member_guild mv.1, member_id mv.1)) <$> present) →
  (start_members cfg p (new_members present w).1 (new_members present w).2).1 = Ok ()
  ∧ (∀ mv, mv ∈ present →
       get (member_guild mv.1) (member_id mv.1) w = None →
       started cfg p mv
         (start_members cfg p (new_members present w).1 (new_members present w).2).2)
  ∧ (∀ g u,
       (∀ mv, mv ∈ present → member_guild mv.1 = g → member_id mv.1 = u →
              is_Some (get g u w)) →
       get g u
           (start_members cfg p (new_members present w).1 (new_members present w).2).2
       = get g u w
       ∧ data g u
           (start_members cfg p (new_members present w).1 (new_members present w).2).2
         = data g u w
       ∧ dd_get (members_pending
                   (start_members cfg p (new_members present w).1
                      (new_members present w).2).2) g !! u
         = dd_get (members_pending w) g !! u).
Proof.
  intros Hnd. unfold new_members. cbn [fst snd].
  set (w0 := foldl _ w present).
  assert ((∀ g u, get g u w0 = get g u w)
          ∧ current_sessions w0 = current_sessions w
          ∧ members_pending w0 = members_pending w) as (Hget0 & Hcur0 & Hpend0).
  { unfold w0. generalize w. clear.
    induction present as [|mv present IH]; intros w; simpl; [done|].
    destruct (IH (with_sessions (dd_touch (sessions w) (member_guild mv.1)) w))
      as (Hg & -> & ->).
    split; [|done]. intros g u. rewrite Hg. unfold get. simpl.
    by rewrite dd_get_touch. }
  set (members := filter _ present).
  assert (NoDup ((λ mv : Member * VoiceState, (member_guild mv.1, member_id mv.1))
                 <$> members)) as Hnd'.
  { eapply sublist_NoDup; [exact Hnd|]. apply fmap_sublist, sublist_filter. }
  destruct (start_members_spec cfg p members w0 Hnd') as (Hok & Hst & Hframe).
  { intros mv Hin. apply list_elem_of_filter in Hin as [Hnone _].
    by rewrite Hget0. }
  split; [exact Hok|]. split.
  - intros mv Hin Hnone. apply Hst. apply list_elem_of_filter. by split.
  - intros g u Hkept. destruct (Hframe g u) as (-> & -> & ->).
    + intros (mv' & Heq & Hin')%list_elem_of_fmap.
      apply list_elem_of_filter in Hin' as [Hnone Hin'].
      injection Heq as Hg Hu.
      destruct (Hkept mv' Hin' (eq_sym Hg) (eq_sym Hu)) as [x Hx].
      rewrite Hg, Hu in Hx. by rewrite Hnone in Hx.
    + unfold data. by rewrite Hget0, Hcur0, Hpend0.
Qed.

Lemma startup_starts_members_witness :
  started demo_config demo_presence (mkMember 1 5, mkVoice 10 false true)
    (start_members demo_config demo_presence
       (new_members [(mkMember 1 2, mkVoice 10 true false);
                     (mkMember 1 5, mkVoice 10 false true)] demo_world).1
       (new_members [(mkMember 1 2, mkVoice 10 true false);
                     (mkMember 1 5, mkVoice 10 false true)] demo_world).2).2
  ∧ data 1 2
      (start_members demo_config demo_presence
         (new_members [(mkMember 1 2, mkVoice 10 true false);
                       (mkMember 1 5, mkVoice 10 false true)] demo_world).1
         (new_members [(mkMember 1 2, mkVoice 10 true false);
                       (mkMember 1 5, mkVoice 10 false true)] demo_world).2).2
    = data 1 2 demo_world.
Proof.
  destruct (startup_starts_members demo_config demo_presence
              [(mkMember 1 2, mkVoice 10 true false);
               (mkMember 1 5, mkVoice 10 false true)] demo_world)
    as (_ & Hst & Hkept).
  - simpl. apply NoDup_cons. split.
    + intros Hin. apply list_elem_of_singleton in Hin. discriminate.
    + apply NoDup_singleton.
  - split.
    + apply (Hst (mkMember 1 5, mkVoice 10 false true)).
      * apply list_elem_of_further, list_elem_of_here.
      * vm_compute. reflexivity.
    + apply (Hkept 1 2). intros mv Hin Hg Hu.
      exists 0%nat. vm_compute. reflexivity.
Defined.

End SessionTracker.

(** * Study-time scanner ([time_tracker.py]) *)

Module TimeTracker.

Local Open Scope Qc_scope.

(** What the scanner reads of a guild.  Wall-clock instants ([time()]) and
    amounts are rationals: the scanner divides. *)
Record VoiceState : Type := mkVoice { self_stream : bool; self_video : bool }.

Record Member : Type := mkMember { id : Z; bot : bool; voice : VoiceState }.

Record VoiceChannel : Type := mkChannel { channel_id : Z; members : list Member }.

Record Guild : Type := mkGuild { guild_id : Z; voice_channels : list VoiceChannel }.

(** The settings and exemption lists the scanner consults. *)
Record Env : Type := mkEnv {
  untracked_channels : Z → gset Z;
  hourly_reward : Z → Qc;
  hourly_live_bonus : Z → Qc;
  user_blacklist : gset Z;
  ignored_members : Z → gset Z
}.

(** The calls the scanner makes on a member's [Lion]. *)
Inductive LedgerCall : Type :=
  | addTime (guildid userid : Z) (amount : Qc) (flush : bool)
  | addCoins (guildid userid : Z) (amount : Qc) (flush bonus : bool).

(** The loop over the members of [_scan]. *)
Fixpoint scan_members (env : Env) (gid : Z) (interval : Qc) (ms : list Member)
    : list LedgerCall :=
  match ms with
  | [] => []
  | member :: rest =>
      if bot member then scan_members env gid interval rest
      else if decide (id member ∈ user_blacklist env ∨ id member ∈ ignored_members env gid)
      then scan_members env gid interval rest
      else
        let hour_reward :=
          if self_stream (voice member) || self_video (voice member)
          then hourly_reward env gid + hourly_live_bonus env gid
          else hourly_reward env gid in
        addTime gid (id member) interval false
        :: addCoins gid (id member) (hour_reward * interval / Qc_of_Z 3600) false true
        :: scan_members env gid interval rest
  end.

(** [_scan(guild)] run at instant [now]: the new [last_scan] and the ledger
    calls made, in order. *)
Definition _scan (env : Env) (now : Qc) (guild : Guild) (last_scan : gmap Z Qc)
    : gmap Z Qc * list LedgerCall :=
  let last_scan' := <[guild_id guild := now]> last_scan in
  match last_scan !! guild_id guild with
  | None => (last_scan', [])
  | Some last =>
      let interval := now - last in
      if decide (Qc_of_Z (60 * 20) < interval) then (last_scan', [])
      else
        let channel_members :=
          map members
            (filter (λ c, channel_id c ∉ untracked_channels env (guild_id guild))
                    (voice_channels guild)) in
        (last_scan', scan_members env (guild_id guild) interval (concat channel_members))
  end.

(** The time, and the coins, a list of ledger calls credits to a member. *)
Fixpoint time_credited (g u : Z) (calls : list LedgerCall) : Qc :=
  match calls with
  | [] => 0
  | addTime g' u' amount _ :: rest =>
      (if decide (g' = g ∧ u' = u) then amount else 0) + time_credited g u rest
  | addCoins _ _ _ _ _ :: rest => time_credited g u rest
  end.

Fixpoint coins_credited (g u : Z) (calls : list LedgerCall) : Qc :=
  match calls with
  | [] => 0
  | addCoins g' u' amount _ _ :: rest =>
      (if decide (g' = g ∧ u' = u) then amount else 0) + coins_credited g u rest
  | addTime _ _ _ _ :: rest => coins_credited g u rest
  end.

(** Whether a call asks the ledger to write through at once. *)
Definition flushes (c : LedgerCall) : bool :=
  match c with
  | addTime _ _ _ flush => flush
  | addCoins _ _ _ flush _ => flush
  end.

(** The members the scan looks at: those of the channels not on the guild's
    untracked list. *)
Definition present (env : Env) (guild : Guild) : list Member :=
  concat (map members
    (filter (λ c, channel_id c ∉ untracked_channels env (guild_id guild))
            (voice_channels guild))).

(** A member the scan credits: not a bot, on neither exemption list. *)
Definition eligible (env : Env) (gid : Z) (m : Member) : Prop :=
  bot m = false ∧ (id m ∉ user_blacklist env) ∧ (id m ∉ ignored_members env gid).

(** The hourly rate that applies to a member. *)
Definition rate (env : Env) (gid : Z) (m : Member) : Qc :=
  hourly_reward env gid
  + (if self_stream (voice m) || self_video (voice m) then hourly_live_bonus env gid else 0).

(** A guild of one room (not untracked) with one member, who is neither
    streaming nor on camera; 6 coins an hour. *)
Definition demo_guild : Guild :=
  mkGuild 1 [mkChannel 10 [mkMember 7 false (mkVoice false false)]].

Definition demo_env : Env :=
  mkEnv (λ _, ∅) (λ _, Qc_of_Z 6) (λ _, Qc_of_Z 2) ∅ (λ _, ∅).

(** ** Properties of the scanner *)

Lemma scan_members_unflushed env gid interval ms :
  Forall (λ c, flushes c = false) (scan_members env gid interval ms).
Proof.
  induction ms as [|m ms IH]; simpl; [constructor|].
  destruct (bot m); [done|]. case_decide; [done|].
  by repeat constructor.
Qed.

Lemma scan_members_absent env gid interval ms u :
  u ∉ (id <$> ms) →
  time_credited gid u (scan_members env gid interval ms) = 0
  ∧ coins_credited gid u (scan_members env gid interval ms) = 0.
Proof.
  induction ms as [|m ms IH]; simpl; [done|].
  intros Hu. apply not_elem_of_cons in Hu as [Hne Hu].
  destruct (bot m); [by apply IH|]. case_decide; [by apply IH|].
  simpl. rewrite !decide_False by (intros [_ ?]; by apply Hne).
  destruct (IH Hu) as [-> ->]. split; ring.
Qed.

Lemma scan_members_credit env gid interval ms m :
  NoDup (id <$> ms) →
  m ∈ ms →
  eligible env gid m →
  time_credited gid (id m) (scan_members env gid interval ms) = interval
  ∧ coins_credited gid (id m) (scan_members env gid interval ms)
    = rate env gid m * interval / Qc_of_Z 3600.
Proof.
  intros Hnd Hin (Hbot & Hbl & Hig).
  induction ms as [|m' ms IH]; [by apply elem_of_nil in Hin|].
  rewrite fmap_cons in Hnd. apply NoDup_cons in Hnd as [Hfresh Hnd].
  apply elem_of_cons in Hin as [<-|Hin].
  - simpl. rewrite Hbot. rewrite decide_False by tauto. simpl.
    rewrite !decide_True by done.
    destruct (scan_members_absent env gid interval ms (id m) Hfresh) as [-> ->].
    unfold rate. split; [ring|].
    destruct (self_stream (voice m) || self_video (voice m)); unfold Qcdiv; ring.
  - assert (id m' ≠ id m) as Hne.
    { intros Heq. apply Hfresh. rewrite Heq. by apply list_elem_of_fmap_2. }
    simpl. destruct (bot m'); [by apply IH|]. case_decide; [by apply IH|].
    simpl. rewrite !decide_False by (intros [_ ?]; by apply Hne).
    destruct (IH Hnd Hin) as [-> ->]. split; ring.
Qed.

(** C8 (as amended).  Every scan records [now] as the guild's last scan.  A
    first scan, and a scan more than twenty minutes after the last one, make
    no ledger call.  Any other scan makes only calls that do not force a
    flush, and credits every present, eligible member with the interval as
    time and with the member's hourly rate (the base rate, plus the live bonus
    when streaming or on camera) times interval over 3600 as coins.  With an
    interval of 600 seconds and a rate of 6 coins an hour, no bonus, that is
    600 seconds and 1 coin. *)
Theorem scan_credits env now guild last_scan :
  (_scan env now guild last_scan).1 = <[guild_id guild := now]> last_scan
  ∧ (last_scan !! guild_id guild = None → (_scan env now guild last_scan).2 = [])
  ∧ (∀ last, last_scan !! guild_id guild = Some last →
       Qc_of_Z 1200 < now - last → (_scan env now guild last_scan).2 = [])
  ∧ (∀ last, last_scan !! guild_id guild = Some last →
       ¬ Qc_of_Z 1200 < now - last →
       NoDup (id <$> present env guild) →
       Forall (λ c, flushes c = false) (_scan env now guild last_scan).2
       ∧ ∀ m, m ∈ present env guild → eligible env (guild_id guild) m →
           time_credited (guild_id guild) (id m) (_scan env now guild last_scan).2
           = now - last
           ∧ coins_credited (guild_id guild) (id m) (_scan env now guild last_scan).2
             = rate env (guild_id guild) m * (now - last) / Qc_of_Z 3600
           ∧ (now - last = Qc_of_Z 600 → rate env (guild_id guild) m = Qc_of_Z 6 →
              time_credited (guild_id guild) (id m) (_scan env now guild last_scan).2
              = Qc_of_Z 600
              ∧ coins_credited (guild_id guild) (id m) (_scan env now guild last_scan).2
                = Qc_of_Z 1)).
Proof.
  unfold _scan. split; [|split; [|split; [|]]].
  - destruct (last_scan !! guild_id guild); [|done]. by case_decide.
  - by intros ->.
  - intros last -> Hlt. by rewrite decide_True.
  - intros last -> Hle Hnd. rewrite decide_False by done. simpl. split.
    { apply scan_members_unflushed. }
    intros m Hm Hel.
    destruct (scan_members_credit env (guild_id guild) (now - last)
                (present env guild) m Hnd Hm Hel) as [Ht Hc].
    unfold present in Ht, Hc. split; [exact Ht|]. split; [exact Hc|].
    intros Hi Hr. rewrite Ht, Hc, Hi, Hr. split; [done|].
    apply Qc_is_canon. vm_compute. reflexivity.
Qed.

Lemma scan_credits_witness :
  time_credited 1 7 (_scan demo_env (Qc_of_Z 600) demo_guild {[1%Z := Qc_of_Z 0]}).2
  = Qc_of_Z 600
  ∧ coins_credited 1 7 (_scan demo_env (Qc_of_Z 600) demo_guild {[1%Z := Qc_of_Z 0]}).2
    = Qc_of_Z 1.
Proof.
  destruct (scan_credits demo_env (Qc_of_Z 600) demo_guild {[1%Z := Qc_of_Z 0]})
    as (_ & _ & _ & H).
  assert (({[1%Z := Qc_of_Z 0]} : gmap Z Qc) !! guild_id demo_guild = Some (Qc_of_Z 0))
    as Hlast by (vm_compute; reflexivity).
  assert (¬ Qc_of_Z 1200 < Qc_of_Z 600 - Qc_of_Z 0) as Hle
    by (intros Hlt; vm_compute in Hlt; discriminate).
  assert (present demo_env demo_guild = [mkMember 7 false (mkVoice false false)])
    as Hp by (vm_compute; reflexivity).
  assert (NoDup (id <$> present demo_env demo_guild)) as Hnd
    by (rewrite Hp; apply NoDup_singleton).
  destruct (H (Qc_of_Z 0) Hlast Hle Hnd) as [_ Hm].
  assert (mkMember 7 false (mkVoice false false) ∈ present demo_env demo_guild) as Hin
    by (rewrite Hp; apply list_elem_of_here).
  assert (eligible demo_env (guild_id demo_guild) (mkMember 7 false (mkVoice false false)))
    as Hel by (unfold eligible; simpl; repeat split; apply not_elem_of_empty).
  destruct (Hm _ Hin Hel) as (_ & _ & Hex).
  apply Hex.
  - apply Qc_is_canon. vm_compute. reflexivity.
  - apply Qc_is_canon. vm_compute. reflexivity.
Defined.

(** The example the amended claim replaces: a scan 1800 seconds after the
    last one, at 6 coins an hour, is beyond the twenty-minute ceiling; it
    makes no ledger call, so the member is credited neither 1800 seconds nor
    3 coins. *)
Lemma scan_1800_credits_nothing :
  (_scan demo_env (Qc_of_Z 1800) demo_guild {[1%Z := Qc_of_Z 0]}).2 = []
  ∧ time_credited 1 7 (_scan demo_env (Qc_of_Z 1800) demo_guild {[1%Z := Qc_of_Z 0]}).2
    ≠ Qc_of_Z 1800
  ∧ coins_credited 1 7 (_scan demo_env (Qc_of_Z 1800) demo_guild {[1%Z := Qc_of_Z 0]}).2
    ≠ Qc_of_Z 3.
Proof.
  assert ((_scan demo_env (Qc_of_Z 1800) demo_guild {[1%Z := Qc_of_Z 0]}).2 = []) as H.
  { unfold _scan. simpl. rewrite lookup_singleton_eq.
    rewrite decide_True; [done|]. vm_compute. reflexivity. }
  rewrite H. simpl. split; [done|]. split; intros Heq; apply (f_equal this) in Heq;
    vm_compute in Heq; discriminate.
Qed.

Lemma scan_members_exempt env gid interval ms u :
  (∀ m, m ∈ ms → id m = u → ¬ eligible env gid m) →
  time_credited gid u (scan_members env gid interval ms) = 0
  ∧ coins_credited gid u (scan_members env gid interval ms) = 0.
Proof.
  induction ms as [|m ms IH]; simpl; [done|].
  intros Hex.
  assert (∀ m', m' ∈ ms → id m' = u → ¬ eligible env gid m') as Hrest.
  { intros m' Hin. apply Hex. by apply list_elem_of_further. }
  destruct (bot m) eqn:Hbot; [by apply IH|]. case_decide as Hbl; [by apply IH|].
  simpl. destruct (decide (id m = u)) as [Hu|Hu].
  - exfalso. apply (Hex m (list_elem_of_here _ _) Hu).
    unfold eligible. split; [done|]. split; intros ?; apply Hbl; tauto.
  - rewrite !decide_False by (intros [_ ?]; by apply Hu).
    destruct (IH Hrest) as [-> ->]. split; ring.
Qed.

Lemma scan_members_guild env gid interval ms g u :
  g ≠ gid →
  time_credited g u (scan_members env gid interval ms) = 0
  ∧ coins_credited g u (scan_members env gid interval ms) = 0.
Proof.
  intros Hg. induction ms as [|m ms IH]; simpl; [done|].
  destruct (bot m); [done|]. case_decide; [done|].
  simpl. rewrite !decide_False by (intros [? _]; by apply Hg).
  destruct IH as [-> ->]. split; ring.
Qed.

(** X15.  A scan credits nothing to a user who is not there as an eligible
    member: bots, users on the blacklist or on the guild's ignore list, and
    users who are only in untracked channels or in none get neither time nor
    coins. *)
Theorem scan_skips_exempt env now guild last_scan u :
  (∀ m, m ∈ present env guild → id m = u → ¬ eligible env (guild_id guild) m) →
  time_credited (guild_id guild) u (_scan env now guild last_scan).2 = 0
  ∧ coins_credited (guild_id guild) u (_scan env now guild last_scan).2 = 0.
Proof.
  intros Hex. unfold _scan.
  destruct (last_scan !! guild_id guild) as [last|]; [|done].
  case_decide; [done|]. simpl. by apply scan_members_exempt.
Qed.

Lemma scan_skips_exempt_witness :
  time_credited 1 7
    (_scan demo_env (Qc_of_Z 600)
       (mkGuild 1 [mkChannel 10 [mkMember 7 true (mkVoice false false)]])
       {[1%Z := Qc_of_Z 0]}).2 = 0.
Proof.
  apply (scan_skips_exempt demo_env (Qc_of_Z 600)
           (mkGuild 1 [mkChannel 10 [mkMember 7 true (mkVoice false false)]])
           {[1%Z := Qc_of_Z 0]} 7).
  intros m Hm _ (Hbot & _).
  assert (present demo_env
            (mkGuild 1 [mkChannel 10 [mkMember 7 true (mkVoice false false)]])
          = [mkMember 7 true (mkVoice false false)]) as Hp by (vm_compute; reflexivity).
  rewrite Hp in Hm. apply list_elem_of_singleton in Hm. subst m. discriminate.
Defined.



(** X17.  The time before a scan that credits nothing is never credited
    later: after a first scan of the guild, or a scan discarded as more than
    twenty minutes late, the next scan credits a present, eligible member
    with the time since that scan only. *)
Theorem discarded_time_is_lost env now1 now2 guild last_scan m :
  (last_scan !! guild_id guild = None
   ∨ ∃ last, last_scan !! guild_id guild = Some last ∧ Qc_of_Z 1200 < now1 - last) →
  ¬ Qc_of_Z 1200 < now2 - now1 →
  NoDup (id <$> present env guild) →
  m ∈ present env guild →
  eligible env (guild_id guild) m →
  (_scan env now1 guild last_scan).2 = []
  ∧ time_credited (guild_id guild) (id m)
      (_scan env now2 guild (_scan env now1 guild last_scan).1).2
    = now2 - now1.
Proof.
  intros Hfirst H2 Hnd Hin Hel.
  assert (_scan env now1 guild last_scan = (<[guild_id guild := now1]> last_scan, []))
    as ->.
  { unfold _scan. destruct Hfirst as [->|(last & -> & Hlate)]; [done|].
    by rewrite decide_True. }
  split; [done|]. unfold _scan. simpl. rewrite lookup_insert_eq.
  rewrite decide_False by done. simpl.
  by destruct (scan_members_credit env (guild_id guild) (now2 - now1)
                 (present env guild) m Hnd Hin Hel) as [Ht _].
Qed.

Lemma discarded_time_is_lost_witness :
  time_credited 1 7
    (_scan demo_env (Qc_of_Z 2400) demo_guild
       (_scan demo_env (Qc_of_Z 1800) demo_guild {[1%Z := Qc_of_Z 0]}).1).2
  = Qc_of_Z 2400 - Qc_of_Z 1800.
Proof.
  assert (present demo_env demo_guild = [mkMember 7 false (mkVoice false false)])
    as Hp by (vm_compute; reflexivity).
  apply (discarded_time_is_lost demo_env (Qc_of_Z 1800) (Qc_of_Z 2400) demo_guild
           {[1%Z := Qc_of_Z 0]} (mkMember 7 false (mkVoice false false))).
  - right. exists (Qc_of_Z 0). split; [vm_compute; reflexivity|].
    vm_compute. reflexivity.
  - intros Hlt. vm_compute in Hlt. discriminate.
  - rewrite Hp. apply NoDup_singleton.
  - rewrite Hp. apply list_elem_of_here.
  - unfold eligible. simpl. repeat split; apply not_elem_of_empty.
Defined.

(** X18.  A scan of one guild leaves the last-scan instant of every other
    guild as it was and credits nothing under any other guild. *)
Theorem scan_touches_one_guild env now guild last_scan g :
  g ≠ guild_id guild →
  (_scan env now guild last_scan).1 !! g = last_scan !! g
  ∧ ∀ u, time_credited g u (_scan env now guild last_scan).2 = 0
         ∧ coins_credited g u (_scan env now guild last_scan).2 = 0.
Proof.
  intros Hg. unfold _scan.
  destruct (last_scan !! guild_id guild) as [last|]; simpl.
  - case_decide; simpl.
    + split; [by rewrite lookup_insert_ne|done].
    + split; [by rewrite lookup_insert_ne|]. intros u. by apply scan_members_guild.
  - split; [by rewrite lookup_insert_ne|done].
Qed.

Lemma scan_touches_one_guild_witness :
  (_scan demo_env (Qc_of_Z 600) demo_guild {[1%Z := Qc_of_Z 0; 2%Z := Qc_of_Z 5]}).1
    !! 2%Z = Some (Qc_of_Z 5).
Proof.
  destruct (scan_touches_one_guild demo_env (Qc_of_Z 600) demo_guild
              {[1%Z := Qc_of_Z 0; 2%Z := Qc_of_Z 5]} 2) as [Hmap _].
  - discriminate.
  - rewrite Hmap. vm_compute. reflexivity.
Defined.

End TimeTracker.

(** * Scheduled sessions ([accountability/commands.py]) *)

Module Accountability.

(** ** [ensure_exclusive] *)

(** What the guard reads of a command context: [ctx.author.id], [ctx.msg.id]
    and [ctx.tasks]. *)
Record Context : Type := mkContext {
  author : Z;
  msg : Z;
  ctx_tasks : list nat
}.

(** The module-level [user_locks] dictionary holds contexts by reference;
    [contexts] are the context objects, [loop_tasks] the tasks of the event
    loop. *)
Record Guard : Type := mkGuard {
  user_locks : gmap Z nat;
  contexts : gmap nat Context;
  loop_tasks : gmap nat TaskStatus
}.

(** [[task.cancel() for task in tasks]] *)
Definition cancel_all (ts : list nat) (tasks : gmap nat TaskStatus) : gmap nat TaskStatus :=
  foldl (λ acc t, alter status_cancel t acc) tasks ts.

(** Entering [with ensure_exclusive(ctx)]: the code before [yield]. *)
Definition ensure_exclusive_enter (ctx : nat) (c : Context) (g : Guard) : Guard :=
  let old_ctx := user_locks g !! author c in
  let locks1 := delete (author c) (user_locks g) in
  let tasks1 :=
    match old_ctx with
    | Some old =>
        match contexts g !! old with
        | Some oc => cancel_all (ctx_tasks oc) (loop_tasks g)
        | None => loop_tasks g
        end
    | None => loop_tasks g
    end in
  mkGuard (<[author c := ctx]> locks1) (contexts g) tasks1.

(** Leaving it: the [finally] clause. *)
Definition ensure_exclusive_exit (c : Context) (g : Guard) : Guard :=
  match user_locks g !! author c with
  | Some new_ctx =>
      match contexts g !! new_ctx with
      | Some nc =>
          if decide (msg nc = msg c)
          then mkGuard (delete (author c) (user_locks g)) (contexts g) (loop_tasks g)
          else g
      | None => g
      end
  | None => g
  end.

(** ** The streak calculation of the profile branch *)

(** A row of the member's history: its start, and the [attended] column. *)
Record HistoryRow : Type := mkHistory { h_start_at : Z; attended : bool }.

(** The variables of the loop.  [day_attended] is [None], [True] or [False];
    so is [current_streak] [None] or a number. *)
Record Loop : Type := mkLoop {
  i : nat;
  date : Z;
  day_attended : option bool;
  streak : nat;
  current_streak : option nat;
  max_streak : nat
}.

(** [datetime.timedelta(days=1)], in seconds. *)
Definition daydiff : Z := 86400.

(** The statements after the [if] chain, reached by [pass]. *)
Definition streak_broken (i' : nat) (date' : Z) (l : Loop) : Loop :=
  mkLoop i' date' (day_attended l) 0
         (match current_streak l with None => Some (streak l) | cs => cs end)
         (max (max_streak l) (streak l)).

(** One test of the [while] condition: [None] when the loop exits, the state
    after the body otherwise. *)
Definition iteration (history : list HistoryRow) (l : Loop) : option Loop :=
  match history !! i l with
  | None => None
  | Some row =>
      let i1 := S (i l) in
      if negb (attended row) then
        Some (streak_broken i1 (date l) l)
      else if decide (date l < h_start_at row) then
        Some (mkLoop i1 (date l) (Some true) (streak l) (current_streak l) (max_streak l))
      else
        match day_attended l with
        | None =>
            Some (mkLoop (i1 - 1) (date l - daydiff) (Some false) (streak l)
                         (current_streak l) (max_streak l))
        | Some false =>
            Some (streak_broken (i1 - 1) (date l - daydiff) l)
        | Some true =>
            Some (mkLoop (i1 - 1) (date l - daydiff) (Some false) (S (streak l))
                         (current_streak l) (max_streak l))
        end
  end.

(** The loop, run for at most [fuel] iterations: the state at exit. *)
Fixpoint run (history : list HistoryRow) (fuel : nat) (l : Loop) : option Loop :=
  match iteration history l with
  | None => Some l
  | Some l' =>
      match fuel with
      | O => None
      | S fuel' => run history fuel' l'
      end
  end.

(** The statements after the loop: [(current_streak, max_streak)]. *)
Definition last_streak (l : Loop) : nat * nat :=
  let streak1 := if default false (day_attended l) then S (streak l) else streak l in
  let max1 := max (max_streak l) streak1 in
  (match current_streak l with None => streak1 | Some cs => cs end, max1).

(** The whole calculation, from midnight [today] of the member's day. *)
Definition streaks (history : list HistoryRow) (today : Z) (fuel : nat)
    : option (nat * nat) :=
  last_streak <$> run history fuel (mkLoop 0 today None 0 None 0).

(** The number of iterations left is bounded by this: one for each remaining
    row, and one for each time the day can still move back before the row's
    start exceeds it. *)
Fixpoint rows_bound (date : Z) (rows : list HistoryRow) : nat :=
  match rows with
  | [] => 0
  | row :: rest => S (Z.to_nat (date - h_start_at row + 1)) + rows_bound date rest
  end.

Definition bound (history : list HistoryRow) (l : Loop) : nat :=
  rows_bound (date l) (drop (i l) history).

(** ** Booking and cancelling *)

(** Rows of [accountability_rooms] and of [accountability_members], and what
    the commands read of a row of the [accountability_member_info] view. *)
Record RoomRow : Type := mkRoom {
  slotid : Z;
  room_guildid : Z;
  start_at : Z;
  channelid : option Z;
  messageid : option Z
}.

Record MemberRow : Type := mkMemberRow {
  member_slotid : Z;
  member_userid : Z;
  paid : Z
}.

Record InfoRow : Type := mkInfo {
  info_slotid : Z;
  info_guildid : Z;
  info_start_at : Z
}.

(** What the commands read and write of a [TimeSlot]: [members] maps a user
    to the slot of the [SlotMember] stored for him. *)
Record TimeSlot : Type := mkSlot {
  start_time : Z;
  slot_data : option RoomRow;
  slot_channel : option Z;
  slot_members : gmap Z Z
}.

Record AGuild : Type := mkAGuild { upcoming_slot : option TimeSlot }.

(** The calls a command makes on its collaborators, and its in-memory
    updates of the upcoming slot, in the order they happen. *)
Inductive Call : Type :=
  | room_lock_acquire
  | room_lock_release
  | rooms_fetch
  | rooms_insert
  | rooms_update
  | members_insert
  | members_delete
  | slot_refresh
  | slot_open
  | slot_members_set
  | slot_members_pop
  | set_permissions
  | update_status
  | add_coins.

#[global] Instance Call_eq_dec : EqDecision Call.
Proof. solve_decision. Defined.

(** The state a command works on: the two tables (slot ids come from a
    sequence), the coins of the author's [ctx.alion], [AGuild.cache], and the
    log of the calls made so far. *)
Record Store : Type := mkStore {
  rooms : list RoomRow;
  next_slotid : Z;
  members : list MemberRow;
  coins : Z;
  cache : gmap Z AGuild;
  log : list Call
}.

(** What the commands read of [ctx]. *)
Record Ctx : Type := mkCtx {
  ctx_author : Z;
  ctx_guild : Z;
  accountability_price : Z
}.

(** How a command ends when no exception escapes it. *)
Inductive Reply : Type :=
  | NoValidSelection
  | RunningSession
  | InsufficientFunds
  | Booked
  | NoValidCancellation
  | SlotRunning
  | CancelledSessions.

(** Commands thread the store and may raise. *)
Definition M (A : Type) : Type := Store → result A * Store.

#[global] Instance M_ret : MRet M := λ A a s, (Ok a, s).

#[global] Instance M_bind : MBind M := λ A B f m s,
  match m s with
  | (Ok a, s') => f a s'
  | (Raise e, s') => (Raise e, s')
  end.

Definition raise {A : Type} (e : exn) : M A := λ s, (Raise e, s).

Definition gets {A : Type} (f : Store → A) : M A := λ s, (Ok (f s), s).

Definition modify (f : Store → Store) : M unit := λ s, (Ok (), f s).

Definition logged (k : Call) (s : Store) : Store :=
  mkStore (rooms s) (next_slotid s) (members s) (coins s) (cache s) (log s ++ [k]).

(** An update of the in-memory slot: it cannot fail. *)
Definition note (k : Call) : M unit := modify (logged k).

Definition set_upcoming (g : Z) (slot : TimeSlot) : M unit :=
  modify (λ s, mkStore (rooms s) (next_slotid s) (members s) (coins s)
                       (<[g := mkAGuild (Some slot)]> (cache s)) (log s)).

(** [async with room_lock]: the lock is released however the body ends. *)
Definition with_room_lock {A : Type} (body : M A) : M A := λ s,
  let '(r, s') := body (logged room_lock_acquire s) in
  (r, logged room_lock_release s').

(** [[rows[index] for index in indices if index < len(rows)]] *)
Definition selection {A : Type} (rows : list A) (indices : list nat) : list A :=
  omap (λ index, rows !! index) indices.

Section commands.

(** Which calls on a collaborator raise; what [slot._refresh()] makes of the
    slot, given the tables; and what [slot.open()] returns and makes of the
    slot.  [TimeSlot] is not part of this file. *)
Variable fails : Call → bool.
Variable refresh : list RoomRow → list MemberRow → TimeSlot → TimeSlot.
Variable open : TimeSlot → Z * Z * TimeSlot.

(** A call on a collaborator. *)
Definition call (k : Call) : M unit :=
  if fails k then raise (ExternalFailure "call") else note k.

(** A call inside [try: ... except discord.HTTPException: pass]. *)
Definition call_ignoring_http (k : Call) : M unit :=
  if fails k then mret () else note k.

(** [accountability_rooms.fetch_rows_where(guildid=g, start_at=starts)] *)
Definition fetch_rooms (g : Z) (starts : list Z) : M (list RoomRow) :=
  call rooms_fetch;;
  gets (λ s, filter (λ r, room_guildid r = g ∧ start_at r ∈ starts) (rooms s)).

(** The rows [insert_many] creates, with ids from the sequence. *)
Fixpoint new_rooms (g : Z) (next : Z) (starts : list Z) : list RoomRow :=
  match starts with
  | [] => []
  | t :: rest => mkRoom next g t None None :: new_rooms g (next + 1) rest
  end.

(** [accountability_rooms.insert_many], one [(g, start_at)] for each [start_at]
    of [to_add]. *)
Definition insert_rooms (g : Z) (to_add : list Z) : M (list RoomRow) :=
  call rooms_insert;;
  next ← gets next_slotid;
  modify (λ s, mkStore (rooms s ++ new_rooms g next to_add)
                       (next_slotid s + Z.of_nat (length to_add))
                       (members s) (coins s) (cache s) (log s));;
  mret (new_rooms g next to_add).

(** [accountability_members.insert_many], one [(slotid, u, price)] for each
    [slotid] of [slotids]. *)
Definition insert_members (slotids : list Z) (u price : Z) : M unit :=
  call members_insert;;
  modify (λ s, mkStore (rooms s) (next_slotid s)
                       (members s ++ ((λ sid, mkMemberRow sid u price) <$> slotids))
                       (coins s) (cache s) (log s)).

(** [accountability_rooms.update_where({channelid, messageid}, slotid=sid)] *)
Definition update_room (sid cid mid : Z) : M unit :=
  call rooms_update;;
  modify (λ s, mkStore ((λ r, if decide (slotid r = sid)
                              then mkRoom (slotid r) (room_guildid r) (start_at r)
                                          (Some cid) (Some mid)
                              else r) <$> rooms s)
                       (next_slotid s) (members s) (coins s) (cache s) (log s)).

(** [accountability_members.delete_where(userid=u, slotid=slotids)]: the rows
    deleted are returned. *)
Definition delete_members (u : Z) (slotids : list Z) : M (list MemberRow) :=
  call members_delete;;
  deleted ← gets (λ s, filter (λ m, member_userid m = u ∧ member_slotid m ∈ slotids)
                              (members s));
  modify (λ s, mkStore (rooms s) (next_slotid s)
                       (filter (λ m, ¬ (member_userid m = u ∧ member_slotid m ∈ slotids))
                               (members s))
                       (coins s) (cache s) (log s));;
  mret deleted.

(** [ctx.alion.addCoins(amount)].  [ctx.alion] is the author's account in
    the guild the command is typed in, and the store holds the coins of that
    one account: two commands run on one store are commands of one author in
    one guild. *)
Definition addCoins (amount : Z) : M unit :=
  modify (λ s, mkStore (rooms s) (next_slotid s) (members s) (coins s + amount)
                       (cache s) (log s ++ [add_coins])).

(** The block of the book branch headed "Handle case where the slot has
    already opened". *)
Definition book_activation (ctx : Ctx) (to_book : list Z) : M unit :=
  aguild ← gets (λ s, cache s !! ctx_guild ctx);
  match aguild with
  | None => mret ()
  | Some aguild =>
      match upcoming_slot aguild with
      | None => mret ()
      | Some slot =>
          if decide (start_time slot ∈ to_book) then
            match slot_data slot with
            | None =>
                (* Handle slot activation *)
                call slot_refresh;;
                slot1 ← gets (λ s, refresh (rooms s) (members s) slot);
                set_upcoming (ctx_guild ctx) slot1;;
                call slot_open;;
                set_upcoming (ctx_guild ctx) (open slot1).2;;
                match slot_data (open slot1).2 with
                | None => raise (AttributeError "slotid")
                | Some d => update_room (slotid d) (open slot1).1.1 (open slot1).1.2
                end
            | Some d =>
                note slot_members_set;;
                set_upcoming (ctx_guild ctx)
                  (mkSlot (start_time slot) (slot_data slot) (slot_channel slot)
                          (<[ctx_author ctx := slotid d]> (slot_members slot)));;
                match slot_channel slot with
                | None => raise (AttributeError "set_permissions")
                | Some _ => call_ignoring_http set_permissions
                end
            end;;
            call update_status
          else mret ()
      end
  end.

(** [cost = len(to_book) * ctx.guild_settings.accountability_price.value] *)
Definition cost (ctx : Ctx) (to_book : list Z) : Z :=
  Z.of_nat (length to_book) * accountability_price ctx.

(** The book branch of [cmd_rooms], from the member's reply on.  [times] is
    the menu that was shown, [indices] what [parse_ranges] made of the reply,
    [now] the instant of the check.  Python leaves the order in which the set
    [to_add] is inserted open; here it is the order of the selection. *)
Definition book (ctx : Ctx) (now : Z) (times : list Z) (indices : list nat) : M Reply :=
  let to_book := selection times indices in
  if decide (to_book = []) then mret NoValidSelection
  else if decide (Exists (λ time, time < now) to_book) then mret RunningSession
  else
    balance ← gets coins;
    if decide (cost ctx to_book > balance) then mret InsufficientFunds
    else
      slot_rows ← fetch_rooms (ctx_guild ctx) to_book;
      let to_add := list_difference (remove_dups to_book) (start_at <$> slot_rows) in
      added ← (if decide (to_add = []) then mret []
               else insert_rooms (ctx_guild ctx) to_add);
      let slotids := (slotid <$> slot_rows) ++ (slotid <$> added) in
      insert_members slotids (ctx_author ctx) (accountability_price ctx);;
      book_activation ctx to_book;;
      addCoins (- cost ctx to_book);;
      mret Booked.

(** The loop of the cancel branch headed "Handle case where the slot has
    already opened"; it stops at the first row whose guild's upcoming slot is
    among the cancelled ones. *)
Fixpoint cancel_opened (ctx : Ctx) (slotids : list Z) (rows : list InfoRow) : M unit :=
  match rows with
  | [] => mret ()
  | row :: rest =>
      aguild ← gets (λ s, cache s !! info_guildid row);
      match aguild with
      | Some (mkAGuild (Some slot)) =>
          match slot_data slot with
          | Some d =>
              if decide (slotid d ∈ slotids) then
                note slot_members_pop;;
                set_upcoming (info_guildid row)
                  (mkSlot (start_time slot) (slot_data slot) (slot_channel slot)
                          (delete (ctx_author ctx) (slot_members slot)));;
                match slot_channel slot with
                | Some _ => call_ignoring_http set_permissions
                | None => mret ()
                end;;
                call update_status
              else cancel_opened ctx slotids rest
          | None => cancel_opened ctx slotids rest
          end
      | _ => cancel_opened ctx slotids rest
      end
  end.

(** The cancel branch of [cmd_rooms], from the member's reply on.
    [joined_rows] are the member's bookings as the menu showed them. *)
Definition cancel (ctx : Ctx) (now : Z) (joined_rows : list InfoRow)
    (indices : list nat) : M Reply :=
  let to_cancel := selection joined_rows indices in
  if decide (to_cancel = []) then mret NoValidCancellation
  else if decide (Exists (λ row, info_start_at row < now) to_cancel) then mret SlotRunning
  else
    let slotids := info_slotid <$> to_cancel in
    deleted ← with_room_lock
      (deleted ← delete_members (ctx_author ctx) slotids;
       cancel_opened ctx slotids to_cancel;;
       mret deleted);
    addCoins (foldr Z.add 0 (paid <$> deleted));;
    mret CancelledSessions.

End commands.

(** What identifies a slot row and never changes: its id, guild and start. *)
Definition room_key (r : RoomRow) : Z * Z * Z :=
  (slotid r, room_guildid r, start_at r).

(** The table holds one slot for a guild and a start. *)
Definition rooms_unique (rows : list RoomRow) : Prop :=
  NoDup ((λ r, (room_guildid r, start_at r)) <$> rows).

(** The steps the design puts under the room lock: finding or creating slot
    rows, changing the member set of the live slot, and the row changes of an
    activation. *)
Definition critical (k : Call) : bool :=
  match k with
  | rooms_fetch | rooms_insert | rooms_update
  | slot_refresh | slot_open | slot_members_set | slot_members_pop => true
  | _ => false
  end.

(** Whether every critical step of a log happens while the lock is held. *)
Fixpoint guarded (held : bool) (calls : list Call) : bool :=
  match calls with
  | [] => true
  | room_lock_acquire :: rest => guarded true rest
  | room_lock_release :: rest => guarded false rest
  | k :: rest => (negb (critical k) || held) && guarded held rest
  end.

(** ** The booking menu and the statistics *)

(** The hours the booking menu offers.  [now] is the instant [start_time]
    is taken from; the source reads the clock again for each of the 24 hours
    it tests, [tested_at n] is the instant read for hour [n].  An hour is
    offered when the member has not booked it ([joined_rows]) and it starts
    more than 660 seconds after the instant of its test.  Instants are
    seconds; the hours are whole numbers of seconds, so the fraction of a
    second an instant carries in the source changes neither the rounding
    down to the hour nor the comparison with 660. *)
Definition menu (now : Z) (tested_at : Z → Z) (joined_rows : list InfoRow) : list Z :=
  let already_joined_times := info_start_at <$> joined_rows in
  let start_time := now - now `mod` 3600 in
  (λ n, start_time + n * 3600)
    <$> filter (λ n, (start_time + n * 3600 ∉ already_joined_times)
                     ∧ start_time + n * 3600 - tested_at n > 660)
               (seqZ 1 24).

(** [attended_count = sum(row['attended'] for row in history)] *)
Definition attended_count (history : list HistoryRow) : nat :=
  length (filter (λ row, attended row = true) history).

(** ** A guild for the examples *)

Definition no_faults : Call → bool := λ _, false.

(** Modelled from the spec: [TimeSlot._refresh] and [TimeSlot.open], which
    belong to [TimeSlot.py] and are not part of this file.  Activation
    "creates the room/message identities and persists them on the Slot": the
    refresh reads the slot's row back from the table, and opening gives the
    slot its channel and returns the channel and message identities.  The
    commands are stated for any two such functions; these two serve the
    examples. *)
Definition demo_refresh (rows : list RoomRow) (_ : list MemberRow) (slot : TimeSlot)
    : TimeSlot :=
  mkSlot (start_time slot)
         (head (filter (λ r, start_at r = start_time slot) rows))
         (slot_channel slot) (slot_members slot).

Definition demo_open (slot : TimeSlot) : Z * Z * TimeSlot :=
  (500, 600, mkSlot (start_time slot) (slot_data slot) (Some 500) (slot_members slot)).

(** Member 7 of guild 1, where a session costs 10 coins; he has 50. *)
Definition demo_ctx : Ctx := mkCtx 7 1 10.

Definition demo_store : Store := mkStore [] 1 [] 50 ∅ [].

(** The same, the guild's upcoming slot (the hour starting at 7200) not yet
    opened. *)
Definition demo_store_upcoming : Store :=
  mkStore [] 1 [] 50 {[1 := mkAGuild (Some (mkSlot 7200 None None ∅))]} [].

(** The same, the upcoming slot open in channel 500, member 8 booked. *)
Definition demo_store_open : Store :=
  mkStore [mkRoom 1 1 7200 (Some 500) (Some 600)] 2 [mkMemberRow 1 8 10] 50
          {[1 := mkAGuild (Some (mkSlot 7200 (Some (mkRoom 1 1 7200 (Some 500) (Some 600)))
                                        (Some 500) {[8 := 1]}))]} [].

(** A menu whose 24 tests all read the clock at 3001. *)
Definition demo_tested_at : Z → Z := λ _, 3001.

(** Every call goes through but the status update of the live slot. *)
Definition status_fails : Call → bool := λ k, bool_decide (k = update_status).

(** The guild's upcoming slot open, but without a channel. *)
Definition demo_store_no_channel : Store :=
  mkStore [mkRoom 1 1 7200 None None] 2 [mkMemberRow 1 8 10] 50
          {[1 := mkAGuild (Some (mkSlot 7200 (Some (mkRoom 1 1 7200 None None))
                                        None {[8 := 1]}))]} [].

(** Two flows of member 5: the first waits in task 0, the second in task 1. *)
Definition demo_guard : Guard :=
  mkGuard ∅ {[0%nat := mkContext 5 100 [0%nat]; 1%nat := mkContext 5 101 [1%nat]]}
          {[0%nat := Sleeping; 1%nat := Sleeping]}.

(** ** Termination of the streak calculation *)

Lemma rows_bound_mono d d' rows : d' ≤ d → (rows_bound d' rows ≤ rows_bound d rows)%nat.
Proof.
  intros Hd. induction rows as [|row rows IH]; simpl; [lia|].
  assert (Z.to_nat (d' - h_start_at row + 1) ≤ Z.to_nat (d - h_start_at row + 1))%nat
    by lia. lia.
Qed.

Lemma bound_advance history l row i' d' da s cs ms :
  history !! i l = Some row →
  i' = S (i l) → d' = date l →
  (bound history (mkLoop i' d' da s cs ms) < bound history l)%nat.
Proof.
  intros Hrow -> ->. unfold bound. simpl.
  rewrite (drop_S _ _ _ Hrow). simpl. lia.
Qed.

Lemma bound_back history l row i' d' da s cs ms :
  history !! i l = Some row →
  h_start_at row ≤ date l →
  i' = i l → d' = date l - daydiff →
  (bound history (mkLoop i' d' da s cs ms) < bound history l)%nat.
Proof.
  intros Hrow Hle -> ->. unfold bound. simpl.
  rewrite (drop_S _ _ _ Hrow). simpl.
  pose proof (rows_bound_mono (date l) (date l - daydiff) (drop (S (i l)) history)) as Hm.
  unfold daydiff in *.
  assert (Z.to_nat (date l - 86400 - h_start_at row + 1)
          < Z.to_nat (date l - h_start_at row + 1))%nat by lia.
  lia.
Qed.

(** One iteration either moves on to the next row, the day unchanged, or
    stays on its row (whose start the day has not passed yet) and moves the
    day back by one; either way the bound drops. *)
Lemma iteration_progress history l l' :
  iteration history l = Some l' →
  ((i l' = S (i l) ∧ date l' = date l)
   ∨ (i l' = i l ∧ date l' = date l - daydiff
      ∧ ∃ row, history !! i l = Some row ∧ h_start_at row ≤ date l))
  ∧ (bound history l' < bound history l)%nat.
Proof.
  unfold iteration. destruct (history !! i l) as [row|] eqn:Hrow; [|done].
  destruct (attended row); simpl.
  - case_decide as Hd.
    + intros [= <-]. split; [by left|]. by eapply bound_advance.
    + assert (h_start_at row ≤ date l) as Hle by lia.
      destruct (day_attended l) as [[]|]; intros [= <-]; simpl;
        (split; [right; rewrite Nat.sub_0_r; eauto|]);
        unfold streak_broken; eapply bound_back; eauto; lia.
  - intros [= <-]. split; [by left|]. unfold streak_broken. by eapply bound_advance.
Qed.

Lemma run_enough_fuel history fuel l :
  (bound history l ≤ fuel)%nat →
  ∃ l', run history fuel l = Some l' ∧ iteration history l' = None.
Proof.
  revert l. induction fuel as [|fuel IH]; intros l Hb; simpl.
  - destruct (iteration history l) as [l'|] eqn:Hit; [|by eauto].
    apply iteration_progress in Hit as [_ Hlt]. lia.
  - destruct (iteration history l) as [l'|] eqn:Hit; [|by eauto].
    apply IH. apply iteration_progress in Hit as [_ Hlt]. lia.
Qed.

(** C10.  For every history and every starting day the loop terminates: each
    iteration either advances the index past a row, leaving the day alone, or
    keeps the index and moves the day back by one day, which it does only
    while the row's start has not passed the day, and each iteration lowers
    a bound on the iterations left; so with that many iterations allowed (or
    more) the loop has exited, with the index past the last row, and the
    current and the longest streak are defined, the same whatever the
    allowance. *)
Theorem streak_loop_terminates (history : list HistoryRow) (today : Z) :
  (∀ l l', iteration history l = Some l' →
     ((i l' = S (i l) ∧ date l' = date l)
      ∨ (i l' = i l ∧ date l' = date l - daydiff
         ∧ ∃ row, history !! i l = Some row ∧ h_start_at row ≤ date l))
     ∧ (bound history l' < bound history l)%nat)
  ∧ ∃ l_exit,
      (length history ≤ i l_exit)%nat
      ∧ ∀ fuel, (bound history (mkLoop 0 today None 0 None 0) ≤ fuel)%nat →
          run history fuel (mkLoop 0 today None 0 None 0) = Some l_exit
          ∧ streaks history today fuel = Some (last_streak l_exit).
Proof.
  split; [apply iteration_progress|].
  destruct (run_enough_fuel history _ (mkLoop 0 today None 0 None 0) (le_n _))
    as (l_exit & Hrun & Hexit).
  exists l_exit. split.
  - unfold iteration in Hexit.
    destruct (history !! i l_exit) as [row|] eqn:Hrow.
    + destruct (negb (attended row)); [done|]. case_decide; [done|].
      by destruct (day_attended l_exit) as [[]|].
    + by apply lookup_ge_None in Hrow.
  - intros fuel Hfuel.
    assert (∀ f1 f2 l r, (f1 ≤ f2)%nat → run history f1 l = Some r →
                         run history f2 l = Some r) as Hmono.
    { induction f1 as [|f1 IH]; intros f2 l r Hle; simpl.
      - destruct (iteration history l) eqn:Hit; [done|]. intros [= <-].
        destruct f2; simpl; by rewrite Hit.
      - destruct f2 as [|f2]; [lia|]. simpl.
        destruct (iteration history l); [|done]. apply IH. lia. }
    pose proof (Hmono _ _ _ _ Hfuel Hrun) as Hr.
    split; [exact Hr|]. unfold streaks. by rewrite Hr.
Qed.

Lemma streak_loop_terminates_witness :
  ∃ l_exit,
    run [mkHistory 90000 true; mkHistory 3600 true]
        (bound [mkHistory 90000 true; mkHistory 3600 true] (mkLoop 0 86400 None 0 None 0))
        (mkLoop 0 86400 None 0 None 0) = Some l_exit
    ∧ (2 ≤ i l_exit)%nat.
Proof.
  destruct (streak_loop_terminates [mkHistory 90000 true; mkHistory 3600 true] 86400)
    as [_ (l_exit & Hi & Hrun)].
  exists l_exit. split; [|exact Hi].
  exact (proj1 (Hrun _ (le_n _))).
Defined.

(** Today and yesterday attended, then a day missed: a streak of two days. *)
Example streaks_two_days :
  streaks [mkHistory (10 * 86400 + 3600) true; mkHistory (9 * 86400 + 3600) true;
           mkHistory (7 * 86400 + 3600) true] (10 * 86400) 20 = Some (2%nat, 2%nat).
Proof. vm_compute. reflexivity. Qed.

(** A missed session ends the streak that is counted as the current one. *)
Example streaks_missed_session :
  streaks [mkHistory (9 * 86400 + 3600) true; mkHistory (8 * 86400 + 3600) true;
           mkHistory (7 * 86400 + 3600) false; mkHistory (6 * 86400) true]
          (10 * 86400) 20 = Some (1%nat, 1%nat).
Proof. vm_compute. reflexivity. Qed.

(** ** The exclusive-interaction guard *)

Lemma cancel_all_lookup ts tasks t :
  cancel_all ts tasks !! t
  = if decide (t ∈ ts) then status_cancel <$> tasks !! t else tasks !! t.
Proof.
  unfold cancel_all. revert tasks.
  induction ts as [|a ts IH]; intros tasks; cbn [foldl].
  - rewrite decide_False; [done|]. apply not_elem_of_nil.
  - rewrite IH, lookup_alter.
    destruct (decide (a = t)) as [->|Hne].
    + rewrite (decide_True (P := t ∈ t :: ts)) by apply list_elem_of_here.
      destruct (decide (t ∈ ts)); [|done].
      destruct (tasks !! t); simpl; [|done]. by rewrite status_cancel_idem.
    + destruct (decide (t ∈ ts)) as [Hin|Hnin].
      * by rewrite (decide_True (P := t ∈ a :: ts)) by (by apply list_elem_of_further).
      * rewrite (decide_False (P := t ∈ a :: ts)); [done|].
        intros [?|?]%elem_of_cons; by subst.
Qed.

(** C9.  [user_locks] holds one context per member.  Entering the guard with
    a context registers it as its author's current one, cancels every task of
    the context registered before for that author (and no other task), and
    leaves other members' registrations alone.  Leaving the guard removes the
    author's registration when it is the leaving flow's (the same message),
    and changes nothing when another flow has been registered since or none
    is; leaving never touches a task. *)
Theorem ensure_exclusive_replaces (g : Guard) (ctx : nat) (c : Context) :
  user_locks (ensure_exclusive_enter ctx c g) !! author c = Some ctx
  ∧ (∀ u, u ≠ author c →
       user_locks (ensure_exclusive_enter ctx c g) !! u = user_locks g !! u)
  ∧ (∀ old oc, user_locks g !! author c = Some old → contexts g !! old = Some oc →
       ∀ t, loop_tasks (ensure_exclusive_enter ctx c g) !! t
            = if decide (t ∈ ctx_tasks oc) then status_cancel <$> loop_tasks g !! t
              else loop_tasks g !! t)
  ∧ (user_locks g !! author c = None →
       loop_tasks (ensure_exclusive_enter ctx c g) = loop_tasks g)
  ∧ (∀ g' cur cc, user_locks g' !! author c = Some cur → contexts g' !! cur = Some cc →
       (msg cc = msg c →
          ensure_exclusive_exit c g'
          = mkGuard (delete (author c) (user_locks g')) (contexts g') (loop_tasks g'))
       ∧ (msg cc ≠ msg c → ensure_exclusive_exit c g' = g'))
  ∧ (∀ g', user_locks g' !! author c = None → ensure_exclusive_exit c g' = g').
Proof.
  unfold ensure_exclusive_enter, ensure_exclusive_exit. simpl.
  split; [by rewrite lookup_insert_eq|].
  split. { intros u Hu. rewrite lookup_insert_ne by done. by rewrite lookup_delete_ne. }
  split. { intros old oc -> -> t. apply cancel_all_lookup. }
  split. { by intros ->. }
  split.
  - intros g' cur cc -> ->. split; intros Hm.
    + by rewrite decide_True.
    + by rewrite decide_False.
  - by intros g' ->.
Qed.

(** ** Reasoning about commands *)

Lemma bind_inv {A B : Type} (m : M A) (f : A → M B) s r s' :
  (m ≫= f) s = (r, s') →
  (∃ a s1, m s = (Ok a, s1) ∧ f a s1 = (r, s'))
  ∨ (∃ e, m s = (Raise e, s') ∧ r = Raise e).
Proof.
  unfold mbind, M_bind. destruct (m s) as [[a|e] s1]; intros H.
  - left. eauto.
  - right. injection H as <- <-. eauto.
Qed.

Lemma bind_ok {A B : Type} (m : M A) (f : A → M B) s a s1 :
  m s = (Ok a, s1) → (m ≫= f) s = f a s1.
Proof. unfold mbind, M_bind. by intros ->. Qed.

(** A state reached without touching the tables or the coins: only the
    cache of slots and the log may differ, and the log has grown by [calls]. *)
Definition quiet (calls : list Call) (s s' : Store) : Prop :=
  rooms s' = rooms s ∧ next_slotid s' = next_slotid s ∧ members s' = members s
  ∧ coins s' = coins s ∧ log s' = log s ++ calls.

Lemma quiet_refl s : quiet [] s s.
Proof. unfold quiet. by rewrite app_nil_r. Qed.

Lemma quiet_trans c1 c2 s1 s2 s3 :
  quiet c1 s1 s2 → quiet c2 s2 s3 → quiet (c1 ++ c2) s1 s3.
Proof.
  unfold quiet. intros (-> & -> & -> & -> & H1) (-> & -> & -> & -> & ->).
  rewrite H1. by rewrite app_assoc.
Qed.

Lemma quiet_logged k s : quiet [k] s (logged k s).
Proof. by unfold quiet. Qed.

(** The calls other than the lock operations and the change of coins. *)
Definition plain (k : Call) : bool :=
  match k with
  | room_lock_acquire | room_lock_release | add_coins => false
  | _ => true
  end.

Lemma new_rooms_start g next starts : start_at <$> new_rooms g next starts = starts.
Proof.
  revert next. induction starts as [|t starts IH]; intros next; simpl; [done|].
  by rewrite IH.
Qed.

Lemma new_rooms_guild g next starts r :
  r ∈ new_rooms g next starts → room_guildid r = g.
Proof.
  revert next. induction starts as [|t starts IH]; intros next; simpl.
  - by intros ?%elem_of_nil.
  - intros [->|Hin]%elem_of_cons; [done|]. by eapply IH.
Qed.

Lemma unique_starts g rows :
  rooms_unique rows →
  Forall (λ r, room_guildid r = g) rows →
  NoDup (start_at <$> rows).
Proof.
  unfold rooms_unique. induction rows as [|r rows IH]; simpl; [constructor|].
  intros [Hfresh Hnd]%NoDup_cons [Hg Hall]%Forall_cons.
  apply NoDup_cons. split; [|by apply IH].
  intros (r' & Hst & Hin)%list_elem_of_fmap. apply Hfresh.
  apply list_elem_of_fmap. exists r'. split; [|done].
  rewrite Forall_forall in Hall. by rewrite Hg, (Hall r' Hin), Hst.
Qed.

(** The slots found and the slots to add cover the selection, once each. *)
Lemma found_or_added g (to_book : list Z) rows :
  NoDup to_book →
  rooms_unique rows →
  (start_at <$> filter (λ r, room_guildid r = g ∧ start_at r ∈ to_book) rows)
  ++ list_difference (remove_dups to_book)
       (start_at <$> filter (λ r, room_guildid r = g ∧ start_at r ∈ to_book) rows)
  ≡ₚ to_book.
Proof.
  intros Hnd Huniq.
  set (found := filter (λ r, room_guildid r = g ∧ start_at r ∈ to_book) rows).
  assert (NoDup (start_at <$> found)) as Hfound.
  { apply (unique_starts g).
    - unfold rooms_unique. eapply sublist_NoDup; [exact Huniq|].
      apply fmap_sublist, sublist_filter.
    - apply Forall_forall. intros r Hr. by apply list_elem_of_filter in Hr as [[? _] _]. }
  apply NoDup_Permutation; [|done|].
  - apply NoDup_app. split; [done|]. split.
    + intros t Ht Hd. by apply list_elem_of_difference in Hd as [_ ?].
    + apply NoDup_list_difference, NoDup_remove_dups.
  - intros t. rewrite elem_of_app, list_elem_of_difference, elem_of_remove_dups.
    split.
    + intros [(r & -> & Hr)%list_elem_of_fmap|[? _]]; [|done].
      by apply list_elem_of_filter in Hr as [[_ ?] _].
    + intros Ht. destruct (decide (t ∈ start_at <$> found)); [by left|by right].
Qed.

Lemma update_room_keys sid cid mid (rows : list RoomRow) :
  room_key <$> ((λ r, if decide (slotid r = sid)
                      then mkRoom (slotid r) (room_guildid r) (start_at r)
                                  (Some cid) (Some mid)
                      else r) <$> rows)
  = room_key <$> rows.
Proof.
  induction rows as [|r rows IH]; [done|].
  rewrite !fmap_cons, IH. f_equal. by case_decide.
Qed.

(** Every selected start has its slot, found or added, and the slot ids
    collected are as many as the selected starts. *)
Lemma rows_cover g (to_book : list Z) rows next :
  NoDup to_book →
  rooms_unique rows →
  let found := filter (λ r, room_guildid r = g ∧ start_at r ∈ to_book) rows in
  let added :=
    new_rooms g next (list_difference (remove_dups to_book) (start_at <$> found)) in
  length ((slotid <$> found) ++ (slotid <$> added)) = length to_book
  ∧ ∀ t, t ∈ to_book →
      ∃ sid, (sid, g, t) ∈ room_key <$> (rows ++ added)
             ∧ sid ∈ (slotid <$> found) ++ (slotid <$> added).
Proof.
  intros Hnd Huniq found added.
  pose proof (found_or_added g to_book rows Hnd Huniq) as Hperm.
  fold found in Hperm. split.
  - rewrite <- (Permutation_length Hperm).
    rewrite !length_app, !length_fmap. f_equal.
    unfold added. rewrite <- (length_fmap start_at (new_rooms _ _ _)).
    by rewrite new_rooms_start.
  - intros t Ht. rewrite <- Hperm in Ht. apply elem_of_app in Ht as [Ht|Ht].
    + apply list_elem_of_fmap in Ht as (r & -> & Hr).
      exists (slotid r). split.
      * apply list_elem_of_fmap. exists r. split.
        -- apply list_elem_of_filter in Hr as [[Hg _] _]. unfold room_key. by rewrite Hg.
        -- apply elem_of_app. left. by apply list_elem_of_filter in Hr as [_ ?].
      * apply elem_of_app. left. by apply list_elem_of_fmap_2.
    + rewrite <- (new_rooms_start g next) in Ht. fold added in Ht.
      apply list_elem_of_fmap in Ht as (r & -> & Hr).
      exists (slotid r). split.
      * apply list_elem_of_fmap. exists r. split.
        -- unfold room_key. by rewrite (new_rooms_guild _ _ _ _ Hr).
        -- apply elem_of_app. by right.
      * apply elem_of_app. right. by apply list_elem_of_fmap_2.
Qed.

(** A state reached without touching the reservations or the coins, with
    the same slots (up to their channel and message), the log grown by
    [calls]. *)
Definition steady (calls : list Call) (s s' : Store) : Prop :=
  room_key <$> rooms s' = room_key <$> rooms s
  ∧ members s' = members s ∧ coins s' = coins s ∧ log s' = log s ++ calls.

Lemma guarded_plain calls rest :
  forallb plain calls = true → guarded true (calls ++ rest) = guarded true rest.
Proof.
  induction calls as [|k calls IH]; simpl; [done|].
  intros [Hk Hp]%andb_prop. destruct k; simpl in *; try discriminate; by apply IH.
Qed.

Section commands_facts.
Context (fails : Call → bool).
Context (refresh : list RoomRow → list MemberRow → TimeSlot → TimeSlot).
Context (open : TimeSlot → Z * Z * TimeSlot).

Lemma call_inv k s r s' :
  call fails k s = (r, s') →
  (fails k = false ∧ r = Ok () ∧ s' = logged k s)
  ∨ (fails k = true ∧ s' = s ∧ ∃ e, r = Raise e).
Proof.
  unfold call. destruct (fails k); intros [= <- <-]; [right|left]; eauto.
Qed.

Lemma call_ok k s : fails k = false → call fails k s = (Ok (), logged k s).
Proof. unfold call. by intros ->. Qed.

(** The loop over the cancelled rows changes neither table nor the coins,
    and ends normally when [update_status] does. *)
Lemma cancel_opened_quiet ctx slotids rows s r s' :
  cancel_opened fails ctx slotids rows s = (r, s') →
  (∃ calls, quiet calls s s' ∧ forallb plain calls = true)
  ∧ (fails update_status = false → r = Ok ()).
Proof.
  revert s. induction rows as [|row rows IH]; intros s; simpl.
  - intros [= <- <-]. split; [|done]. exists []. split; [apply quiet_refl|done].
  - unfold mbind at 1, M_bind at 1, gets at 1.
    destruct (cache s !! info_guildid row) as [[[slot|]]|]; try apply IH.
    destruct (slot_data slot) as [d|]; try apply IH.
    case_decide; try apply IH.
    unfold note, modify, set_upcoming, mbind, M_bind. simpl.
    destruct (slot_channel slot) as [ch|]; simpl.
    + unfold call_ignoring_http, call, note, modify, raise.
      destruct (fails set_permissions), (fails update_status); simpl;
        intros [= <- <-]; (split; [|done]); eexists;
        (split; [unfold quiet; simpl; repeat split; try reflexivity;
                 rewrite <- ?app_assoc; reflexivity|reflexivity]).
    + unfold call, note, modify, raise.
      destruct (fails update_status); simpl;
        intros [= <- <-]; (split; [|done]); eexists;
        (split; [unfold quiet; simpl; repeat split; try reflexivity;
                 rewrite <- ?app_assoc; reflexivity|reflexivity]).
Qed.

Ltac close_steady :=
  eexists; split;
  [ unfold steady; simpl; rewrite ?update_room_keys;
    repeat split; try reflexivity; rewrite <- ?app_assoc; try reflexivity;
    rewrite ?app_nil_r; reflexivity
  | reflexivity ].

(** The activation block of the book branch changes neither the
    reservations nor the coins, and keeps the slots (up to channel and
    message); it takes no lock. *)
Lemma book_activation_steady ctx to_book s r s' :
  book_activation fails refresh open ctx to_book s = (r, s') →
  ∃ calls, steady calls s s' ∧ forallb plain calls = true.
Proof.
  unfold book_activation. unfold mbind at 1, M_bind at 1, gets at 1.
  destruct (cache s !! ctx_guild ctx) as [[[slot|]]|]; cbn [upcoming_slot];
    try (intros [= <- <-]; exists []; split; [|done];
         unfold steady; by rewrite app_nil_r).
  case_decide;
    try (intros [= <- <-]; exists []; split; [|done];
         unfold steady; by rewrite app_nil_r).
  unfold update_room.
  unfold call, call_ignoring_http, note, modify, raise, set_upcoming,
    gets, mbind, M_bind, mret, M_ret.
  destruct (slot_data slot) as [d|].
  - destruct (slot_channel slot); simpl.
    + destruct (fails set_permissions), (fails update_status); simpl;
        intros [= <- <-]; close_steady.
    + intros [= <- <-]; close_steady.
  - destruct (fails slot_refresh); simpl; [intros [= <- <-]; close_steady|].
    destruct (fails slot_open); simpl; [intros [= <- <-]; close_steady|].
    destruct (slot_data (open (refresh (rooms s) (members s) slot)).2); simpl;
      [|intros [= <- <-]; close_steady].
    destruct (fails rooms_update); simpl; [intros [= <- <-]; close_steady|].
    destruct (fails update_status); simpl; intros [= <- <-]; close_steady.
Qed.

Lemma find_or_create_inv g to_add s r s1 :
  (if decide (to_add = []) then mret [] else insert_rooms fails g to_add) s = (r, s1) →
  (r = Ok (new_rooms g (next_slotid s) to_add)
   ∧ rooms s1 = rooms s ++ new_rooms g (next_slotid s) to_add
   ∧ members s1 = members s ∧ coins s1 = coins s
   ∧ ∃ calls, log s1 = log s ++ calls ∧ forallb plain calls = true)
  ∨ (s1 = s ∧ ∃ e, r = Raise e).
Proof.
  case_decide as Hadd.
  - subst to_add. intros [= <- <-]. left. simpl. rewrite app_nil_r.
    repeat split. exists []. by rewrite app_nil_r.
  - unfold insert_rooms, call, note, modify, raise, gets, mbind, M_bind, mret, M_ret.
    destruct (fails rooms_insert); simpl; intros [= <- <-].
    + right. eauto.
    + left. repeat split. by exists [rooms_insert].
Qed.

Lemma insert_members_inv slotids u price s r s1 :
  insert_members fails slotids u price s = (r, s1) →
  (r = Ok ()
   ∧ rooms s1 = rooms s
   ∧ members s1 = members s ++ ((λ sid, mkMemberRow sid u price) <$> slotids)
   ∧ coins s1 = coins s
   ∧ log s1 = log s ++ [members_insert])
  ∨ (s1 = s ∧ ∃ e, r = Raise e).
Proof.
  unfold insert_members, call, note, modify, raise, mbind, M_bind.
  destruct (fails members_insert); simpl; intros [= <- <-].
  - right. eauto.
  - by left.
Qed.

(** How a booking that passed the checks ends: either an exception escapes
    and the coins are what they were, or it is booked, and then the rows have
    been created and the coins debited, in that order. *)
Lemma book_run ctx now times indices s r s' :
  selection times indices ≠ [] →
  Forall (λ time, now ≤ time) (selection times indices) →
  cost ctx (selection times indices) ≤ coins s →
  book fails refresh open ctx now times indices s = (r, s') →
  let found :=
    filter (λ r, room_guildid r = ctx_guild ctx ∧ start_at r ∈ selection times indices)
           (rooms s) in
  let added :=
    new_rooms (ctx_guild ctx) (next_slotid s)
      (list_difference (remove_dups (selection times indices)) (start_at <$> found)) in
  ((∃ e, r = Raise e) ∧ coins s' = coins s
   ∧ ∃ calls, log s' = log s ++ calls ∧ forallb plain calls = true)
  ∨ (r = Ok Booked
     ∧ coins s' = coins s - cost ctx (selection times indices)
     ∧ members s'
       = members s
         ++ ((λ sid, mkMemberRow sid (ctx_author ctx) (accountability_price ctx))
             <$> (slotid <$> found) ++ (slotid <$> added))
     ∧ room_key <$> rooms s' = room_key <$> (rooms s ++ added)
     ∧ ∃ before, log s' = log s ++ before ++ [add_coins]
                 ∧ members_insert ∈ before ∧ forallb plain before = true).
Proof.
  intros Hne Hfut Hfunds Hrun found added. revert Hrun. unfold book.
  rewrite decide_False by done.
  rewrite decide_False.
  2:{ intros Hex. apply Exists_exists in Hex as (t & Hin & Hlt).
      rewrite Forall_forall in Hfut. specialize (Hfut t Hin). lia. }
  unfold mbind at 1, M_bind at 1, gets at 1.
  rewrite decide_False by lia.
  unfold fetch_rooms.
  unfold mbind at 1, M_bind at 1. unfold mbind at 1, M_bind at 1.
  destruct (call fails rooms_fetch s) as [r0 s0] eqn:Hfetch.
  apply call_inv in Hfetch as [(Hf & -> & ->)|(Hf & -> & e & ->)].
  2:{ intros [= <- <-]. left. split; [eauto|]. split; [done|].
      exists []. by rewrite app_nil_r. }
  unfold gets at 1. cbn [logged rooms].
  intros Hrun.
  apply bind_inv in Hrun as [(rows & s1 & Hadd & Hrun)|(e & Hadd & ->)].
  2:{ apply find_or_create_inv in Hadd as [(? & _)|(-> & _)]; [done|]. left.
      split; [eauto|]. split; [done|]. by exists [rooms_fetch]. }
  apply find_or_create_inv in Hadd
    as [(Hrows & Hrooms1 & Hmem1 & Hcoins1 & calls1 & Hlog1 & Hplain1)|(_ & ? & ?)];
    [|done].
  injection Hrows as ->. simpl in Hrooms1, Hmem1, Hcoins1, Hlog1.
  apply bind_inv in Hrun as [([] & s2 & Hins & Hrun)|(e & Hins & ->)].
  2:{ apply insert_members_inv in Hins as [(? & _)|(-> & _)]; [done|].
      left. split; [eauto|]. split; [done|].
      exists ([rooms_fetch] ++ calls1). split; [by rewrite Hlog1, <- app_assoc|].
      by rewrite forallb_app, Hplain1. }
  apply insert_members_inv in Hins
    as [(_ & Hrooms2 & Hmem2 & Hcoins2 & Hlog2)|(_ & ? & ?)]; [|done].
  apply bind_inv in Hrun as [([] & s3 & Hact & Hrun)|(e & Hact & ->)].
  2:{ apply book_activation_steady in Hact as (calls & (_ & _ & Hc & Hl) & Hp).
      left. split; [eauto|]. split; [by rewrite Hc, Hcoins2, Hcoins1|].
      exists ([rooms_fetch] ++ calls1 ++ [members_insert] ++ calls).
      split; [rewrite Hl, Hlog2, Hlog1; by rewrite <- !app_assoc|].
      rewrite !forallb_app. simpl. by rewrite Hplain1, Hp. }
  apply book_activation_steady in Hact
    as (calls3 & (Hrooms3 & Hmem3 & Hcoins3 & Hlog3) & Hplain3).
  unfold addCoins, modify, mbind, M_bind, mret, M_ret in Hrun. simpl in Hrun.
  injection Hrun as <- <-. right. simpl.
  split; [done|]. split; [rewrite Hcoins3, Hcoins2, Hcoins1; lia|].
  split; [by rewrite Hmem3, Hmem2, Hmem1|].
  split; [by rewrite Hrooms3, Hrooms2, Hrooms1|].
  exists ([rooms_fetch] ++ calls1 ++ [members_insert] ++ calls3). split; [|split].
  - rewrite Hlog3, Hlog2, Hlog1. by rewrite <- !app_assoc.
  - apply elem_of_app. right. apply elem_of_app. right. apply list_elem_of_here.
  - simpl. rewrite !forallb_app. simpl. by rewrite Hplain1, Hplain3.
Qed.

(** The book branch never takes the room lock: whatever the reply, the
    collaborators and the state, the log grows by calls among which there is
    no [room_lock_acquire]. *)
Lemma book_takes_no_lock ctx now times indices s :
  ∃ calls,
    log (book fails refresh open ctx now times indices s).2 = log s ++ calls
    ∧ room_lock_acquire ∉ calls.
Proof.
  assert (∀ calls, forallb plain calls = true → room_lock_acquire ∉ calls) as Hplain.
  { intros calls Hp Hin. rewrite forallb_forall in Hp.
    apply list_elem_of_In in Hin. by apply Hp in Hin. }
  destruct (decide (selection times indices = [])) as [Hnil|Hne].
  { unfold book. rewrite decide_True by done. exists []. simpl.
    split; [by rewrite app_nil_r|apply not_elem_of_nil]. }
  destruct (decide (Exists (λ time, time < now) (selection times indices)))
    as [Hpast|Hfut].
  { unfold book. rewrite decide_False, decide_True by done. exists []. simpl.
    split; [by rewrite app_nil_r|apply not_elem_of_nil]. }
  destruct (decide (cost ctx (selection times indices) > coins s)) as [Hpoor|Hfunds].
  { unfold book. rewrite !decide_False by done.
    unfold mbind at 1, M_bind at 1, gets at 1. rewrite decide_True by done.
    exists []. simpl. split; [by rewrite app_nil_r|apply not_elem_of_nil]. }
  apply not_Exists_Forall in Hfut; [|intros ?; apply _].
  assert (Forall (λ time, now ≤ time) (selection times indices)) as Hfut'.
  { eapply Forall_impl; [exact Hfut|]. simpl. intros. lia. }
  destruct (book fails refresh open ctx now times indices s) as [r s'] eqn:Hrun.
  destruct (book_run ctx now times indices s r s' Hne Hfut' ltac:(lia) Hrun)
    as [(_ & _ & calls & Hlog & Hp)|(_ & _ & _ & _ & before & Hlog & _ & Hp)]; simpl.
  - exists calls. split; [done|]. by apply Hplain.
  - exists (before ++ [add_coins]). split; [done|].
    intros [Hin|Hin]%elem_of_app.
    + by apply (Hplain before Hp).
    + by apply list_elem_of_singleton in Hin.
Qed.

(** A booking keeps the table at one slot for a guild and a start: the
    hypothesis of the next theorem is an invariant of the book branch. *)
Lemma booked_keeps_rooms_unique ctx now times indices s s' :
  rooms_unique (rooms s) →
  book fails refresh open ctx now times indices s = (Ok Booked, s') →
  rooms_unique (rooms s').
Proof.
  intros Huniq Hrun.
  destruct (decide (selection times indices = [])) as [Hnil|Hne].
  { unfold book in Hrun. by rewrite decide_True in Hrun by done. }
  destruct (decide (Exists (λ time, time < now) (selection times indices)))
    as [Hpast|Hfut].
  { unfold book in Hrun. by rewrite decide_False, decide_True in Hrun by done. }
  destruct (decide (cost ctx (selection times indices) > coins s)) as [Hpoor|Hfunds].
  { unfold book in Hrun. rewrite !decide_False in Hrun by done.
    unfold mbind at 1, M_bind at 1, gets at 1 in Hrun.
    by rewrite decide_True in Hrun by done. }
  apply not_Exists_Forall in Hfut; [|intros ?; apply _].
  assert (Forall (λ time, now ≤ time) (selection times indices)) as Hfut'.
  { eapply Forall_impl; [exact Hfut|]. simpl. intros. lia. }
  destruct (book_run ctx now times indices s _ s' Hne Hfut' ltac:(lia) Hrun)
    as [[[e ?] _]|(_ & _ & _ & Hrooms & _)]; [done|].
  unfold rooms_unique in *.
  assert (∀ l : list RoomRow,
            (λ r, (room_guildid r, start_at r)) <$> l
            = (λ k : Z * Z * Z, (k.1.2, k.2)) <$> (room_key <$> l)) as Hkey.
  { intros l. rewrite <- list_fmap_compose. by apply list_fmap_ext. }
  rewrite Hkey, Hrooms, <- Hkey, fmap_app.
  set (found := filter (λ r, room_guildid r = ctx_guild ctx
                             ∧ start_at r ∈ selection times indices) (rooms s)) in *.
  set (to_add := list_difference (remove_dups (selection times indices))
                   (start_at <$> found)) in *.
  assert (∀ next, (λ r, (room_guildid r, start_at r))
                    <$> new_rooms (ctx_guild ctx) next to_add
                  = (λ t, (ctx_guild ctx, t)) <$> to_add) as Hnew.
  { intros next. generalize to_add. clear. intros l. revert next.
    induction l as [|t l IH]; intros next; simpl; [done|]. by rewrite IH. }
  rewrite Hnew. apply NoDup_app. split; [done|]. split.
  - intros [g t] (r & [= -> ->] & Hr)%list_elem_of_fmap
      (t' & [= Hg <-] & Ht)%list_elem_of_fmap.
    apply list_elem_of_difference in Ht as [Ht Hnot]. apply Hnot.
    apply list_elem_of_fmap. exists r. split; [done|].
    apply list_elem_of_filter. split; [|done]. split; [done|].
    by rewrite elem_of_remove_dups in Ht.
  - apply NoDup_fmap_2.
    + by intros t t' [= ->].
    + apply NoDup_list_difference, NoDup_remove_dups.
Qed.

(** The book branch up to the activation block, the table calls going
    through. *)
Lemma book_until_activation ctx now times indices s :
  selection times indices ≠ [] →
  Forall (λ time, now ≤ time) (selection times indices) →
  cost ctx (selection times indices) ≤ coins s →
  fails rooms_fetch = false →
  fails rooms_insert = false →
  fails members_insert = false →
  ∃ s2,
    book fails refresh open ctx now times indices s
    = (book_activation fails refresh open ctx (selection times indices);;
       addCoins (- cost ctx (selection times indices));;
       mret Booked) s2
    ∧ cache s2 = cache s ∧ coins s2 = coins s.
Proof.
  intros Hne Hfut Hfunds Hfetch Hinsert Hmembers. unfold book.
  rewrite decide_False by done.
  rewrite decide_False.
  2:{ intros Hex. apply Exists_exists in Hex as (t & Hin & Hlt).
      rewrite Forall_forall in Hfut. specialize (Hfut t Hin). lia. }
  unfold mbind at 1, M_bind at 1, gets at 1. rewrite decide_False by lia.
  unfold fetch_rooms.
  unfold mbind at 1, M_bind at 1. unfold mbind at 1, M_bind at 1.
  rewrite call_ok by done. unfold gets at 1. cbn [logged rooms].
  unfold mbind at 1, M_bind at 1.
  case_decide.
  - unfold mret at 1, M_ret at 1. unfold insert_members.
    unfold mbind at 1, M_bind at 1. unfold mbind at 1, M_bind at 1.
    rewrite call_ok by done. unfold modify at 1.
    eexists. split; [reflexivity|]. done.
  - unfold insert_rooms.
    unfold mbind at 1, M_bind at 1. rewrite call_ok by done.
    unfold mbind at 1, M_bind at 1, gets at 1.
    unfold mbind at 1, M_bind at 1, modify at 1.
    unfold mret at 1, M_ret at 1. unfold insert_members.
    unfold mbind at 1, M_bind at 1. unfold mbind at 1, M_bind at 1.
    rewrite call_ok by done. unfold modify at 1.
    eexists. split; [reflexivity|]. done.
Qed.

(** The activation block ends normally when the calls it makes go through
    and the slot it works on has what it reads: an open slot its channel, a
    slot being opened its row afterwards. *)
Lemma book_activation_ok ctx to_book s :
  (∀ slot, cache s !! ctx_guild ctx = Some (mkAGuild (Some slot)) →
     start_time slot ∈ to_book →
     fails update_status = false
     ∧ (is_Some (slot_data slot) → is_Some (slot_channel slot))
     ∧ (slot_data slot = None →
        fails slot_refresh = false ∧ fails slot_open = false
        ∧ fails rooms_update = false
        ∧ ∀ rows mems, is_Some (slot_data (open (refresh rows mems slot)).2))) →
  ∃ s', book_activation fails refresh open ctx to_book s = (Ok (), s').
Proof.
  intros Hslot. unfold book_activation. unfold mbind at 1, M_bind at 1, gets at 1.
  destruct (cache s !! ctx_guild ctx) as [[[slot|]]|]; cbn [upcoming_slot];
    try (by eexists).
  case_decide as Hin; [|by eexists].
  destruct (Hslot slot eq_refl Hin) as (Hstatus & Hopen & Hclosed).
  unfold update_room.
  unfold call, call_ignoring_http, note, modify, raise, set_upcoming,
    gets, mbind, M_bind, mret, M_ret.
  rewrite Hstatus.
  destruct (slot_data slot) as [d|].
  - destruct (Hopen ltac:(by eexists)) as [ch ->].
    destruct (fails set_permissions); simpl; by eexists.
  - destruct (Hclosed eq_refl) as (-> & -> & -> & Hdata). simpl.
    destruct (Hdata (rooms s) (members s)) as [d ->]. simpl. by eexists.
Qed.

(** C3.  A booking of distinct starts, none of them past, in a table that
    holds one slot for a guild and a start:
    - if the author's coins are less than the number of starts times the
      price, the answer is "insufficient funds" and nothing has changed;
    - however else it ends without having booked, the coins are what they
      were;
    - if it books, the coins are down by exactly that cost; the reservations
      are the old ones followed by as many new ones as there are starts, each
      the author's at the price, one for the slot of every start, and that
      slot is in the table; a start that had its slot in the guild is
      reserved on that very slot; the slots are the old ones followed by new
      ones of the guild, one for each selected start that had none and for
      no other, so that the table still holds one slot for a guild and a
      start; the reservations were inserted before the coins changed, which
      is the last thing done, and done once;
    - and it does book when the coins suffice, the table calls go through
      and, if the booking includes the guild's upcoming slot, the work on
      that slot goes through: the status update does, an open slot has its
      channel, and a slot still to open is refreshed, opened and updated and
      has its row afterwards. *)
Theorem book_charges ctx now times indices s :
  selection times indices ≠ [] →
  Forall (λ time, now ≤ time) (selection times indices) →
  NoDup (selection times indices) →
  rooms_unique (rooms s) →
  (coins s < cost ctx (selection times indices) →
   book fails refresh open ctx now times indices s = (Ok InsufficientFunds, s))
  ∧ (∀ r s', book fails refresh open ctx now times indices s = (r, s') →
       r ≠ Ok Booked → coins s' = coins s)
  ∧ (∀ s', book fails refresh open ctx now times indices s = (Ok Booked, s') →
       coins s' = coins s - cost ctx (selection times indices)
       ∧ (∃ new,
            members s' = members s ++ new
            ∧ length new = length (selection times indices)
            ∧ Forall (λ m, member_userid m = ctx_author ctx
                           ∧ paid m = accountability_price ctx) new
            ∧ (∀ time, time ∈ selection times indices →
                 ∃ sid, (sid, ctx_guild ctx, time) ∈ room_key <$> rooms s'
                        ∧ mkMemberRow sid (ctx_author ctx) (accountability_price ctx)
                          ∈ new)
            ∧ (∀ r, r ∈ rooms s → room_guildid r = ctx_guild ctx →
                 start_at r ∈ selection times indices →
                 mkMemberRow (slotid r) (ctx_author ctx) (accountability_price ctx)
                 ∈ new))
       ∧ (∃ added,
            room_key <$> rooms s' = room_key <$> (rooms s ++ added)
            ∧ Forall (λ r, room_guildid r = ctx_guild ctx) added
            ∧ NoDup (start_at <$> added)
            ∧ ∀ time, time ∈ start_at <$> added
                ↔ time ∈ selection times indices
                  ∧ ¬ ∃ r, r ∈ rooms s ∧ room_guildid r = ctx_guild ctx
                           ∧ start_at r = time)
       ∧ rooms_unique (rooms s')
       ∧ ∃ before, log s' = log s ++ before ++ [add_coins]
                   ∧ members_insert ∈ before ∧ add_coins ∉ before)
  ∧ (cost ctx (selection times indices) ≤ coins s →
     fails rooms_fetch = false → fails rooms_insert = false →
     fails members_insert = false →
     (∀ slot, cache s !! ctx_guild ctx = Some (mkAGuild (Some slot)) →
        start_time slot ∈ selection times indices →
        fails update_status = false
        ∧ (is_Some (slot_data slot) → is_Some (slot_channel slot))
        ∧ (slot_data slot = None →
           fails slot_refresh = false ∧ fails slot_open = false
           ∧ fails rooms_update = false
           ∧ ∀ rows mems, is_Some (slot_data (open (refresh rows mems slot)).2))) →
     ∃ s', book fails refresh open ctx now times indices s = (Ok Booked, s')).
Proof.
  intros Hne Hfut Hnd Huniq.
  assert (¬ Exists (λ time, time < now) (selection times indices)) as Hnopast.
  { intros Hex. apply Exists_exists in Hex as (t & Hin & Hlt).
    rewrite Forall_forall in Hfut. specialize (Hfut t Hin). lia. }
  assert (∀ r s', book fails refresh open ctx now times indices s = (r, s') →
            coins s < cost ctx (selection times indices) →
            r = Ok InsufficientFunds ∧ s' = s) as Hpoor.
  { intros r s'. unfold book. rewrite !decide_False by done.
    unfold mbind at 1, M_bind at 1, gets at 1. intros Hrun Hlt.
    rewrite decide_True in Hrun by lia. by injection Hrun as <- <-. }
  split; [|split; [|split]].
  - intros Hlt.
    pose proof (Hpoor _ _ (surjective_pairing _) Hlt) as [Hr Hs].
    rewrite (surjective_pairing (book fails refresh open ctx now times indices s)).
    by rewrite Hr, Hs.
  - intros r s' Hrun Hr.
    destruct (decide (coins s < cost ctx (selection times indices))) as [Hlt|Hge].
    { by destruct (Hpoor r s' Hrun Hlt) as [_ ->]. }
    destruct (book_run ctx now times indices s r s' Hne Hfut ltac:(lia) Hrun)
      as [(_ & Hc & _)|[-> _]]; done.
  - intros s' Hrun.
    destruct (decide (coins s < cost ctx (selection times indices))) as [Hlt|Hge].
    { by destruct (Hpoor _ s' Hrun Hlt) as [? _]. }
    destruct (book_run ctx now times indices s _ s' Hne Hfut ltac:(lia) Hrun)
      as [[[e ?] _]|(_ & Hcoins & Hmem & Hrooms & before & Hlog & Hins & Hplain)];
      [done|].
    destruct (rows_cover (ctx_guild ctx) (selection times indices) (rooms s)
                (next_slotid s) Hnd Huniq) as [Hlen Hcover].
    split; [exact Hcoins|]. split; [|split; [|split]].
    + eexists. split; [exact Hmem|]. split; [by rewrite length_fmap|]. split; [|split].
      * apply Forall_forall. by intros m (sid & -> & _)%list_elem_of_fmap.
      * intros time Ht. destruct (Hcover time Ht) as (sid & Hkey & Hsid).
        exists sid. split; [by rewrite Hrooms|].
        apply list_elem_of_fmap. eauto.
      * intros r Hr Hg Hsel. apply list_elem_of_fmap. exists (slotid r).
        split; [done|]. apply elem_of_app. left. apply list_elem_of_fmap_2.
        by apply list_elem_of_filter.
    + eexists. split; [exact Hrooms|]. split; [|split].
      * apply Forall_forall. intros r Hr. by eapply new_rooms_guild.
      * rewrite new_rooms_start. apply NoDup_list_difference, NoDup_remove_dups.
      * intros time. rewrite new_rooms_start, list_elem_of_difference,
          elem_of_remove_dups. split.
        -- intros [Hsel Hnone]. split; [done|]. intros (r & Hr & Hg & Hst).
           apply Hnone. apply list_elem_of_fmap. exists r. split; [done|].
           apply list_elem_of_filter. split; [|done]. split; [done|].
           by rewrite Hst.
        -- intros [Hsel Hnone]. split; [done|].
           intros (r & -> & Hr)%list_elem_of_fmap.
           apply list_elem_of_filter in Hr as [[Hg _] Hr]. apply Hnone. eauto.
    + by eapply booked_keeps_rooms_unique.
    + exists before. split; [exact Hlog|]. split; [exact Hins|].
      intros Hin. rewrite forallb_forall in Hplain.
      apply list_elem_of_In in Hin. by apply Hplain in Hin.
  - intros Hfunds Hfetch Hinsert Hmembers Hslot.
    destruct (book_until_activation ctx now times indices s Hne Hfut Hfunds Hfetch
                Hinsert Hmembers) as (s2 & -> & Hc2 & _).
    destruct (book_activation_ok ctx (selection times indices) s2) as [s3 Hact].
    { by rewrite Hc2. }
    unfold mbind at 1, M_bind at 1. rewrite Hact.
    unfold addCoins, modify, mbind, M_bind, mret, M_ret. by eexists.
Qed.

(** C4.  A cancellation whose selection holds a slot that has already
    started is answered "running session" and changes nothing.  A
    cancellation of a selection that is not empty and holds no such slot
    (the delete and the status update going through) deletes exactly the
    author's reservations for the selected slots, keeps every other
    reservation as it was, in order, leaves the slots alone, and adds to the
    author's coins the sum of the [paid] column of the deleted rows. *)
Theorem cancel_refunds ctx now joined_rows indices s :
  (Exists (λ row, info_start_at row < now) (selection joined_rows indices) →
   cancel fails ctx now joined_rows indices s = (Ok SlotRunning, s))
  ∧ (selection joined_rows indices ≠ [] →
     Forall (λ row, now ≤ info_start_at row) (selection joined_rows indices) →
     fails members_delete = false →
     fails update_status = false →
     ∃ s',
       cancel fails ctx now joined_rows indices s = (Ok CancelledSessions, s')
       ∧ members s'
         = filter (λ m, ¬ (member_userid m = ctx_author ctx
                           ∧ member_slotid m ∈ info_slotid <$> selection joined_rows indices))
                  (members s)
       ∧ coins s'
         = coins s
           + foldr Z.add 0
               (paid <$> filter (λ m, member_userid m = ctx_author ctx
                                      ∧ member_slotid m
                                        ∈ info_slotid <$> selection joined_rows indices)
                                (members s))
       ∧ rooms s' = rooms s).
Proof.
  unfold cancel. split.
  - intros Hex. rewrite decide_False by (intros Hnil; rewrite Hnil in Hex; inversion Hex).
    by rewrite decide_True.
  - intros Hne Hfut Hdel Hupd. rewrite decide_False by done.
    rewrite decide_False.
    2:{ intros Hex. apply Exists_exists in Hex as (row & Hin & Hlt).
        rewrite Forall_forall in Hfut. specialize (Hfut row Hin). lia. }
    unfold with_room_lock, delete_members.
    unfold mbind at 1, M_bind at 1. unfold mbind at 1, M_bind at 1.
    unfold mbind at 1, M_bind at 1. rewrite call_ok by done.
    unfold mbind at 1, M_bind at 1, gets at 1. cbn [fst snd].
    unfold mbind at 1, M_bind at 1. unfold mbind at 1, M_bind at 1, modify at 1.
    unfold mret at 1, M_ret at 1. unfold mbind at 1, M_bind at 1.
    match goal with |- context [cancel_opened ?f ?c ?ids ?rows ?st] =>
      destruct (cancel_opened f c ids rows st) as [r1 s1] eqn:Hloop end.
    apply cancel_opened_quiet in Hloop as [(calls & Hq & _) Hr].
    rewrite (Hr Hupd). unfold mret, M_ret, addCoins, modify, mbind, M_bind. simpl.
    destruct Hq as (Hrooms & _ & Hmem & Hcoins & _). simpl in *.
    eexists. split; [reflexivity|]. simpl. rewrite Hrooms, Hmem, Hcoins. done.
Qed.

(** The cancel branch does all its work on the tables and on the live slot
    with the room lock held, however it ends. *)
Lemma cancel_is_guarded ctx now joined_rows indices s :
  ∃ calls,
    log (cancel fails ctx now joined_rows indices s).2 = log s ++ calls
    ∧ guarded false calls = true.
Proof.
  unfold cancel.
  case_decide; [exists []; simpl; by rewrite app_nil_r|].
  case_decide; [exists []; simpl; by rewrite app_nil_r|].
  unfold with_room_lock, delete_members.
  unfold mbind at 1, M_bind at 1. unfold mbind at 1, M_bind at 1.
  unfold mbind at 1, M_bind at 1. unfold call at 1.
  destruct (fails members_delete).
  { exists [room_lock_acquire; room_lock_release]. simpl.
    split; [by rewrite <- app_assoc|done]. }
  unfold note at 1, modify at 1.
  unfold mbind at 1, M_bind at 1, gets at 1. cbn [fst snd].
  unfold mbind at 1, M_bind at 1. unfold mbind at 1, M_bind at 1, modify at 1.
  unfold mret at 1, M_ret at 1. unfold mbind at 1, M_bind at 1.
  match goal with |- context [cancel_opened ?f ?c ?ids ?rows ?st] =>
    destruct (cancel_opened f c ids rows st) as [r1 s1] eqn:Hloop end.
  apply cancel_opened_quiet in Hloop as [(calls & (_ & _ & _ & _ & Hlog) & Hp) _].
  simpl in Hlog. destruct r1 as [[]|e]; simpl.
  - exists ([room_lock_acquire; members_delete] ++ calls
            ++ [room_lock_release; add_coins]).
    split.
    + rewrite Hlog. by rewrite <- !app_assoc.
    + simpl. by rewrite guarded_plain.
  - exists ([room_lock_acquire; members_delete] ++ calls ++ [room_lock_release]).
    split.
    + rewrite Hlog. by rewrite <- !app_assoc.
    + simpl. by rewrite guarded_plain.
Qed.

End commands_facts.

Lemma book_charges_witness :
  ∃ s',
    book no_faults demo_refresh demo_open demo_ctx 0 [3600; 7200; 10800]
         [1%nat; 2%nat] demo_store_open
    = (Ok Booked, s')
    ∧ coins s' = 30
    ∧ length (members s') = 3%nat
    ∧ mkMemberRow 1 7 10 ∈ members s'
    ∧ rooms_unique (rooms s').
Proof.
  assert (selection [3600; 7200; 10800] [1%nat; 2%nat] = [7200; 10800]) as Hsel
    by reflexivity.
  assert (selection [3600; 7200; 10800] [1%nat; 2%nat] ≠ []) as Hne
    by (rewrite Hsel; discriminate).
  assert (Forall (λ time, 0 ≤ time) (selection [3600; 7200; 10800] [1%nat; 2%nat]))
    as Hfut by (rewrite Hsel; repeat constructor; lia).
  assert (NoDup (selection [3600; 7200; 10800] [1%nat; 2%nat])) as Hnd.
  { rewrite Hsel. apply NoDup_cons. split; [|apply NoDup_singleton].
    intros Hin. apply list_elem_of_singleton in Hin. discriminate. }
  assert (rooms_unique (rooms demo_store_open)) as Huniq by apply NoDup_singleton.
  destruct (book_charges no_faults demo_refresh demo_open demo_ctx 0
              [3600; 7200; 10800] [1%nat; 2%nat] demo_store_open Hne Hfut Hnd Huniq)
    as (_ & _ & Hbooked & Hbooks).
  assert (cost demo_ctx (selection [3600; 7200; 10800] [1%nat; 2%nat])
          ≤ coins demo_store_open) as Hfunds
    by (rewrite Hsel; vm_compute; discriminate).
  destruct (Hbooks Hfunds eq_refl eq_refl eq_refl) as [s' Hrun].
  { intros slot Hslot _.
    assert (slot = mkSlot 7200 (Some (mkRoom 1 1 7200 (Some 500) (Some 600)))
                          (Some 500) {[8 := 1]}) as ->.
    { vm_compute in Hslot. by injection Hslot as <-. }
    split; [reflexivity|]. split; [intros _; by eexists|discriminate]. }
  exists s'. split; [exact Hrun|].
  destruct (Hbooked s' Hrun)
    as (Hcoins & (new & Hmem & Hlen & _ & _ & Hfound) & _ & Huniq' & _).
  split; [rewrite Hcoins, Hsel; reflexivity|].
  split; [rewrite Hmem, length_app, Hlen, Hsel; reflexivity|].
  split; [|exact Huniq'].
  rewrite Hmem. apply elem_of_app. right.
  apply (Hfound (mkRoom 1 1 7200 (Some 500) (Some 600))).
  - apply list_elem_of_here.
  - reflexivity.
  - rewrite Hsel. apply list_elem_of_here.
Defined.

Lemma cancel_refunds_witness :
  ∃ s',
    cancel no_faults demo_ctx 0 [mkInfo 1 1 7200; mkInfo 2 1 10800] [0%nat]
      (mkStore [mkRoom 1 1 7200 None None; mkRoom 2 1 10800 None None] 3
               [mkMemberRow 1 7 10; mkMemberRow 1 8 10; mkMemberRow 2 7 12] 40 ∅ [])
    = (Ok CancelledSessions, s')
    ∧ members s' = [mkMemberRow 1 8 10; mkMemberRow 2 7 12]
    ∧ coins s' = 50.
Proof.
  set (s := mkStore [mkRoom 1 1 7200 None None; mkRoom 2 1 10800 None None] 3
              [mkMemberRow 1 7 10; mkMemberRow 1 8 10; mkMemberRow 2 7 12] 40 ∅ []).
  assert (selection [mkInfo 1 1 7200; mkInfo 2 1 10800] [0%nat] = [mkInfo 1 1 7200])
    as Hsel by reflexivity.
  destruct (cancel_refunds no_faults demo_ctx 0 [mkInfo 1 1 7200; mkInfo 2 1 10800]
              [0%nat] s) as [_ Hcancel].
  destruct Hcancel as (s' & Hrun & Hmem & Hcoins & _).
  - rewrite Hsel. discriminate.
  - rewrite Hsel. repeat constructor. simpl. lia.
  - reflexivity.
  - reflexivity.
  - exists s'. split; [exact Hrun|]. split.
    + rewrite Hmem. vm_compute. reflexivity.
    + rewrite Hcoins. vm_compute. reflexivity.
Defined.

Lemma ensure_exclusive_replaces_witness :
  loop_tasks (ensure_exclusive_enter 1 (mkContext 5 101 [1%nat])
                (ensure_exclusive_enter 0 (mkContext 5 100 [0%nat]) demo_guard))
    !! 0%nat = Some Cancelled
  ∧ ensure_exclusive_exit (mkContext 5 100 [0%nat])
      (ensure_exclusive_enter 1 (mkContext 5 101 [1%nat])
         (ensure_exclusive_enter 0 (mkContext 5 100 [0%nat]) demo_guard))
    = ensure_exclusive_enter 1 (mkContext 5 101 [1%nat])
        (ensure_exclusive_enter 0 (mkContext 5 100 [0%nat]) demo_guard).
Proof.
  set (g1 := ensure_exclusive_enter 0 (mkContext 5 100 [0%nat]) demo_guard).
  set (g2 := ensure_exclusive_enter 1 (mkContext 5 101 [1%nat]) g1).
  destruct (ensure_exclusive_replaces g1 1 (mkContext 5 101 [1%nat]))
    as (_ & _ & Hcancel & _).
  destruct (ensure_exclusive_replaces g1 0 (mkContext 5 100 [0%nat]))
    as (_ & _ & _ & _ & Hexit & _).
  split.
  - fold g2 in Hcancel.
    rewrite (Hcancel 0%nat (mkContext 5 100 [0%nat]))
      by (vm_compute; reflexivity).
    vm_compute. reflexivity.
  - apply (Hexit g2 1%nat (mkContext 5 101 [1%nat])).
    + vm_compute. reflexivity.
    + vm_compute. reflexivity.
    + simpl. discriminate.
Defined.

(** C1.  The book branch never takes the room lock, whatever it is given;
    the cancel branch always works under it.  So a booking that lands on the
    guild's upcoming slot activates it (refresh, open, row update), or joins
    its member set when it is already open, with the lock not held. *)
Theorem book_activates_without_lock :
  (∀ fails refresh open ctx now times indices s,
     ∃ calls,
       log (book fails refresh open ctx now times indices s).2 = log s ++ calls
       ∧ room_lock_acquire ∉ calls)
  ∧ (∀ fails ctx now joined_rows indices s,
       ∃ calls,
         log (cancel fails ctx now joined_rows indices s).2 = log s ++ calls
         ∧ guarded false calls = true)
  ∧ log (book no_faults demo_refresh demo_open demo_ctx 0 [3600; 7200] [1%nat]
              demo_store_upcoming).2
    = [rooms_fetch; rooms_insert; members_insert; slot_refresh; slot_open;
       rooms_update; update_status; add_coins]
  ∧ guarded false
      (log (book no_faults demo_refresh demo_open demo_ctx 0 [3600; 7200] [1%nat]
                 demo_store_upcoming).2) = false
  ∧ log (book no_faults demo_refresh demo_open demo_ctx 0 [3600; 7200] [1%nat]
              demo_store_open).2
    = [rooms_fetch; members_insert; slot_members_set; set_permissions;
       update_status; add_coins]
  ∧ guarded false
      (log (book no_faults demo_refresh demo_open demo_ctx 0 [3600; 7200] [1%nat]
                 demo_store_open).2) = false.
Proof.
  split; [intros; apply book_takes_no_lock|].
  split; [intros; apply cancel_is_guarded|].
  vm_compute. repeat split; reflexivity.
Qed.

(** ** The booking menu *)

Lemma selection_elem_of {A : Type} (rows : list A) indices x :
  x ∈ selection rows indices → x ∈ rows.
Proof.
  unfold selection. intros (i & _ & Hi)%list_elem_of_omap.
  by eapply list_elem_of_lookup_2.
Qed.

Lemma selection_NoDup {A : Type} (rows : list A) indices :
  NoDup rows → NoDup indices → NoDup (selection rows indices).
Proof.
  intros Hrows. unfold selection.
  induction indices as [|i indices IH]; intros Hnd; simpl; [constructor|].
  apply NoDup_cons in Hnd as [Hfresh Hnd].
  destruct (rows !! i) as [x|] eqn:Hx; simpl; [|by apply IH].
  apply NoDup_cons. split; [|by apply IH].
  intros (j & Hj & Hxj)%list_elem_of_omap.
  assert (i = j) as -> by exact (NoDup_lookup rows i j x Hrows Hx Hxj).
  by apply Hfresh.
Qed.

Lemma menu_elem_of now tested_at joined_rows time :
  time ∈ menu now tested_at joined_rows →
  ∃ n, 1 ≤ n ≤ 24 ∧ time = now - now `mod` 3600 + n * 3600
       ∧ (time ∉ info_start_at <$> joined_rows)
       ∧ 660 < time - tested_at n.
Proof.
  unfold menu. intros (n & -> & Hin)%list_elem_of_fmap.
  apply list_elem_of_filter in Hin as [[Hnot Hlate] Hn]. apply elem_of_seqZ in Hn.
  exists n. split; [lia|]. split; [done|]. split; [done|lia].
Qed.

Lemma menu_NoDup now tested_at joined_rows : NoDup (menu now tested_at joined_rows).
Proof.
  unfold menu. apply NoDup_fmap_2; [|apply NoDup_filter, NoDup_seqZ].
  intros n1 n2 Heq. lia.
Qed.

(** X19.  The clock not running backwards, every hour on the booking menu is
    a full hour, starts more than 660 seconds and at most 24 hours after the
    menu was begun, and is not one the member has booked; no hour is offered
    twice, and at most 24 are. *)
Theorem menu_offers_bookable_hours now tested_at joined_rows :
  (∀ n, now ≤ tested_at n) →
  (∀ time, time ∈ menu now tested_at joined_rows →
     time `mod` 3600 = 0
     ∧ now + 660 < time ≤ now + 24 * 3600
     ∧ (time ∉ info_start_at <$> joined_rows))
  ∧ NoDup (menu now tested_at joined_rows)
  ∧ (length (menu now tested_at joined_rows) ≤ 24)%nat.
Proof.
  intros Hclock. split; [|split; [apply menu_NoDup|]].
  - intros time (n & Hn & -> & Hnot & Hlate)%menu_elem_of.
    split; [|split; [|done]].
    + rewrite Z.mod_add by lia.
      pose proof (Z.div_mod now 3600 ltac:(lia)) as Hdm.
      replace (now - now `mod` 3600) with (now `div` 3600 * 3600) by lia.
      by apply Z.mod_mul.
    + pose proof (Z.mod_pos_bound now 3600 ltac:(lia)).
      specialize (Hclock n). lia.
  - unfold menu. rewrite length_fmap. etrans; [apply length_filter|].
    by rewrite length_seqZ.
Qed.

Lemma menu_offers_bookable_hours_witness :
  (∀ time, time ∈ menu 3000 demo_tested_at [mkInfo 1 1 7200] →
     time `mod` 3600 = 0
     ∧ 3000 + 660 < time ≤ 3000 + 24 * 3600
     ∧ (time ∉ info_start_at <$> [mkInfo 1 1 7200]))
  ∧ NoDup (menu 3000 demo_tested_at [mkInfo 1 1 7200])
  ∧ (length (menu 3000 demo_tested_at [mkInfo 1 1 7200]) ≤ 24)%nat.
Proof.
  apply (menu_offers_bookable_hours 3000 demo_tested_at [mkInfo 1 1 7200]).
  intros n. unfold demo_tested_at. lia.
Defined.

(** X20.  A reply that selects entries of the booking menu, each once, and
    is handled no later than 660 seconds after the menu was begun, selects
    distinct hours that have not started; so the book branch never answers
    it with "running session". *)
Theorem menu_selection_never_running now tested_at joined_rows indices now' :
  (∀ n, now ≤ tested_at n) →
  now' ≤ now + 660 →
  NoDup indices →
  NoDup (selection (menu now tested_at joined_rows) indices)
  ∧ Forall (λ time, now' < time) (selection (menu now tested_at joined_rows) indices)
  ∧ ∀ fails refresh open ctx s,
      (book fails refresh open ctx now' (menu now tested_at joined_rows) indices s).1
      ≠ Ok RunningSession.
Proof.
  intros Hclock Hsoon Hnd.
  set (times := menu now tested_at joined_rows).
  assert (Forall (λ time, now' < time) (selection times indices)) as Hfut.
  { apply Forall_forall. intros time Hin%selection_elem_of.
    apply menu_elem_of in Hin as (n & _ & _ & _ & Hlate).
    specialize (Hclock n). lia. }
  split; [by apply selection_NoDup; [apply menu_NoDup|]|]. split; [exact Hfut|].
  intros fails refresh open ctx s.
  assert (¬ Exists (λ time, time < now') (selection times indices)) as Hnopast.
  { intros Hex. apply Exists_exists in Hex as (t & Hin & Hlt).
    rewrite Forall_forall in Hfut. specialize (Hfut t Hin). lia. }
  destruct (decide (selection times indices = [])) as [Hnil|Hne].
  { unfold book. by rewrite decide_True by done. }
  destruct (decide (cost ctx (selection times indices) > coins s)) as [Hpoor|Hfunds].
  { unfold book. rewrite !decide_False by done.
    unfold mbind at 1, M_bind at 1, gets at 1. by rewrite decide_True by done. }
  assert (Forall (λ time, now' ≤ time) (selection times indices)) as Hfut'.
  { eapply Forall_impl; [exact Hfut|]. simpl. intros. lia. }
  destruct (book fails refresh open ctx now' times indices s) as [r s'] eqn:Hrun.
  destruct (book_run fails refresh open ctx now' times indices s r s' Hne Hfut'
              ltac:(lia) Hrun) as [([e ->] & _)|(-> & _)]; simpl; discriminate.
Qed.

Lemma menu_selection_never_running_witness :
  NoDup (selection (menu 3000 demo_tested_at [mkInfo 1 1 7200]) [0%nat; 2%nat])
  ∧ Forall (λ time, 3030 < time)
           (selection (menu 3000 demo_tested_at [mkInfo 1 1 7200]) [0%nat; 2%nat])
  ∧ ∀ fails refresh open ctx s,
      (book fails refresh open ctx 3030 (menu 3000 demo_tested_at [mkInfo 1 1 7200])
            [0%nat; 2%nat] s).1
      ≠ Ok RunningSession.
Proof.
  apply (menu_selection_never_running 3000 demo_tested_at [mkInfo 1 1 7200]
           [0%nat; 2%nat] 3030).
  - intros n. unfold demo_tested_at. lia.
  - lia.
  - apply NoDup_cons. split.
    + intros Hin. apply list_elem_of_singleton in Hin. discriminate.
    + apply NoDup_singleton.
Defined.

(** ** Bookings and cancellations, end to end *)

Lemma filter_all {A : Type} (P : A → Prop) `{!∀ x, Decision (P x)} (l : list A) :
  Forall P l → filter P l = l.
Proof.
  induction 1 as [|x l Hx _ IH]; [done|].
  rewrite filter_cons_True by done. by rewrite IH.
Qed.

Lemma filter_none {A : Type} (P : A → Prop) `{!∀ x, Decision (P x)} (l : list A) :
  Forall (λ x, ¬ P x) l → filter P l = [].
Proof.
  induction 1 as [|x l Hx _ IH]; [done|].
  by rewrite filter_cons_False by done.
Qed.

Lemma paid_sum u price (slotids : list Z) :
  foldr Z.add 0 (paid <$> ((λ sid, mkMemberRow sid u price) <$> slotids))
  = Z.of_nat (length slotids) * price.
Proof.
  induction slotids as [|sid slotids IH]; [done|].
  rewrite !fmap_cons. cbn [foldr length paid]. rewrite IH. lia.
Qed.

Lemma remove_dups_fixed (l : list Z) : NoDup l → remove_dups l = l.
Proof.
  induction 1 as [|x l Hx Hl IH]; [done|].
  simpl. destruct (decide_rel elem_of x l) as [Hin|_].
  - by destruct (Hx Hin).
  - by f_equal.
Qed.

Lemma remove_dups_length (l : list Z) : (length (remove_dups l) ≤ length l)%nat.
Proof.
  induction l as [|x l IH]; simpl; [done|].
  destruct (decide_rel elem_of x l); simpl; lia.
Qed.

(** The slots found and the slots to add cover the distinct hours of the
    selection, once each, whether or not the selection repeats an hour. *)
Lemma slots_count g (to_book : list Z) rows next :
  rooms_unique rows →
  let found := filter (λ r, room_guildid r = g ∧ start_at r ∈ to_book) rows in
  let added :=
    new_rooms g next (list_difference (remove_dups to_book) (start_at <$> found)) in
  length ((slotid <$> found) ++ (slotid <$> added)) = length (remove_dups to_book).
Proof.
  intros Huniq found added.
  assert (∀ t, t ∈ to_book ↔ t ∈ remove_dups to_book) as Hsame.
  { intros t. by rewrite elem_of_remove_dups. }
  pose proof (found_or_added g (remove_dups to_book) rows
                (NoDup_remove_dups _) Huniq) as Hperm.
  assert (filter (λ r, room_guildid r = g ∧ start_at r ∈ remove_dups to_book) rows
          = found) as Hfound.
  { apply list_filter_iff. intros r. by rewrite Hsame. }
  rewrite Hfound in Hperm.
  assert (remove_dups (remove_dups to_book) = remove_dups to_book) as Hidem.
  { apply remove_dups_fixed, NoDup_remove_dups. }
  rewrite Hidem in Hperm.
  rewrite <- (Permutation_length Hperm).
  rewrite !length_app, !length_fmap. f_equal.
  unfold added. rewrite <- (length_fmap start_at (new_rooms _ _ _)).
  by rewrite new_rooms_start.
Qed.

(** What a reply "booked" tells about the request. *)
Lemma booked_inv fails refresh open ctx now times indices s r s' :
  book fails refresh open ctx now times indices s = (r, s') →
  (r = Ok Booked ∨ ∃ e, r = Raise e) →
  selection times indices ≠ []
  ∧ Forall (λ time, now ≤ time) (selection times indices)
  ∧ cost ctx (selection times indices) ≤ coins s.
Proof.
  intros Hrun Hr.
  destruct (decide (selection times indices = [])) as [Hnil|Hne].
  { unfold book in Hrun. rewrite decide_True in Hrun by done.
    injection Hrun as <- <-. by destruct Hr as [?|[? ?]]. }
  destruct (decide (Exists (λ time, time < now) (selection times indices)))
    as [Hpast|Hfut].
  { unfold book in Hrun. rewrite decide_False, decide_True in Hrun by done.
    injection Hrun as <- <-. by destruct Hr as [?|[? ?]]. }
  destruct (decide (cost ctx (selection times indices) > coins s)) as [Hpoor|Hfunds].
  { unfold book in Hrun. rewrite !decide_False in Hrun by done.
    unfold mbind at 1, M_bind at 1, gets at 1 in Hrun.
    rewrite decide_True in Hrun by done.
    injection Hrun as <- <-. by destruct Hr as [?|[? ?]]. }
  apply not_Exists_Forall in Hfut; [|intros ?; apply _].
  split; [done|]. split; [|lia].
  eapply Forall_impl; [exact Hfut|]. simpl. intros. lia.
Qed.

(** How a cancellation that passed the checks ends, the delete going
    through: the author's reservations for the selected slots are gone and
    the slots are as they were; then either the refund has been made, or the
    status update has raised and the coins are what they were.  The lock has
    been released either way. *)
Lemma cancel_run fails ctx now joined_rows indices s r s' :
  selection joined_rows indices ≠ [] →
  Forall (λ row, now ≤ info_start_at row) (selection joined_rows indices) →
  fails members_delete = false →
  cancel fails ctx now joined_rows indices s = (r, s') →
  members s'
  = filter (λ m, ¬ (member_userid m = ctx_author ctx
                    ∧ member_slotid m ∈ info_slotid <$> selection joined_rows indices))
           (members s)
  ∧ rooms s' = rooms s
  ∧ ((r = Ok CancelledSessions
      ∧ coins s'
        = coins s
          + foldr Z.add 0
              (paid <$> filter (λ m, member_userid m = ctx_author ctx
                                     ∧ member_slotid m
                                       ∈ info_slotid <$> selection joined_rows indices)
                               (members s))
      ∧ ∃ calls, log s' = log s ++ calls ++ [room_lock_release; add_coins])
     ∨ ((∃ e, r = Raise e) ∧ fails update_status = true ∧ coins s' = coins s
        ∧ ∃ calls, log s' = log s ++ calls ++ [room_lock_release])).
Proof.
  intros Hne Hfut Hdel. unfold cancel. rewrite decide_False by done.
  rewrite decide_False.
  2:{ intros Hex. apply Exists_exists in Hex as (row & Hin & Hlt).
      rewrite Forall_forall in Hfut. specialize (Hfut row Hin). lia. }
  unfold with_room_lock, delete_members.
  unfold mbind at 1, M_bind at 1. unfold mbind at 1, M_bind at 1.
  unfold mbind at 1, M_bind at 1. rewrite call_ok by done.
  unfold mbind at 1, M_bind at 1, gets at 1. cbn [fst snd].
  unfold mbind at 1, M_bind at 1. unfold mbind at 1, M_bind at 1, modify at 1.
  unfold mret at 1, M_ret at 1. unfold mbind at 1, M_bind at 1.
  match goal with |- context [cancel_opened ?f ?c ?ids ?rows ?st] =>
    destruct (cancel_opened f c ids rows st) as [r1 s1] eqn:Hloop end.
  apply cancel_opened_quiet in Hloop as [(calls & Hq & _) Hr].
  destruct Hq as (Hrooms & _ & Hmem & Hcoins & Hlog). simpl in Hrooms, Hmem, Hcoins, Hlog.
  destruct r1 as [[]|e].
  - unfold mret, M_ret, addCoins, modify, mbind, M_bind. simpl.
    intros [= <- <-]. simpl. rewrite Hrooms, Hmem, Hcoins, Hlog.
    split; [done|]. split; [done|]. left. split; [done|]. split; [done|].
    exists ([room_lock_acquire; members_delete] ++ calls).
    by rewrite <- !app_assoc.
  - simpl. intros [= <- <-]. simpl. rewrite Hrooms, Hmem, Hcoins, Hlog.
    split; [done|]. split; [done|]. right. split; [eauto|].
    split; [|split; [done|]].
    + destruct (fails update_status); [done|]. by specialize (Hr eq_refl).
    + exists ([room_lock_acquire; members_delete] ++ calls).
      by rewrite <- !app_assoc.
Qed.

(** X21.  Booking distinct hours and then cancelling, in the same guild,
    exactly the slots just booked, before they start, gives the member the
    coins back and leaves the reservations as they were before the booking,
    whatever the price has become in between; the slots the booking created
    stay.  The two commands are the same author's in the same guild: the
    refund goes to [ctx.alion] of the guild the cancellation is typed in,
    which is the wallet the booking debited only then. *)
Theorem book_then_cancel_restores fails refresh open ctx ctx' now now' times indices
    joined_rows indices' s s1 :
  NoDup (selection times indices) →
  rooms_unique (rooms s) →
  book fails refresh open ctx now times indices s = (Ok Booked, s1) →
  ctx_author ctx' = ctx_author ctx →
  ctx_guild ctx' = ctx_guild ctx →
  (∀ sid, sid ∈ info_slotid <$> selection joined_rows indices'
          ↔ sid ∈ member_slotid <$> drop (length (members s)) (members s1)) →
  (∀ m, m ∈ members s → member_userid m = ctx_author ctx →
        member_slotid m ∉ info_slotid <$> selection joined_rows indices') →
  Forall (λ row, now' ≤ info_start_at row) (selection joined_rows indices') →
  fails members_delete = false →
  fails update_status = false →
  ∃ s2,
    cancel fails ctx' now' joined_rows indices' s1 = (Ok CancelledSessions, s2)
    ∧ members s2 = members s
    ∧ coins s2 = coins s
    ∧ rooms s2 = rooms s1.
Proof.
  intros Hnd Huniq Hbook Hauthor Hguild Hsame Hnone Hfut Hdel Hupd.
  destruct (booked_inv _ _ _ _ _ _ _ _ _ _ Hbook ltac:(by left))
    as (Hne & Hfut0 & Hfunds).
  destruct (book_run fails refresh open ctx now times indices s _ s1 Hne Hfut0
              Hfunds Hbook)
    as [[[e ?] _]|(_ & Hcoins & Hmem & _)]; [done|].
  destruct (rows_cover (ctx_guild ctx) (selection times indices) (rooms s)
              (next_slotid s) Hnd Huniq) as [Hlen _].
  set (slotids := (slotid <$> filter _ (rooms s)) ++ (slotid <$> new_rooms _ _ _)) in *.
  set (new := (λ sid, mkMemberRow sid (ctx_author ctx) (accountability_price ctx))
                <$> slotids) in *.
  assert (member_slotid <$> new = slotids) as Hids.
  { unfold new. rewrite <- list_fmap_compose. apply list_fmap_id. }
  rewrite Hmem, drop_app_length, Hids in Hsame.
  assert (selection joined_rows indices' ≠ []) as Hne'.
  { intros Hnil. destruct slotids as [|sid slotids'] eqn:Hs.
    - simpl in Hlen. by destruct (selection times indices).
    - assert (sid ∈ info_slotid <$> selection joined_rows indices') as Hin
        by (apply Hsame, list_elem_of_here).
      rewrite Hnil in Hin. by apply elem_of_nil in Hin. }
  destruct (cancel fails ctx' now' joined_rows indices' s1) as [r s2] eqn:Hcancel.
  destruct (cancel_run fails ctx' now' joined_rows indices' s1 r s2 Hne' Hfut Hdel
              Hcancel) as (Hmem2 & Hrooms2 & Hend).
  destruct Hend as [(-> & Hcoins2 & _)|(_ & Hfail & _)]; [|congruence].
  exists s2. split; [done|].
  assert (Forall (λ m, ¬ (member_userid m = ctx_author ctx'
                          ∧ member_slotid m
                            ∈ info_slotid <$> selection joined_rows indices'))
                 (members s)) as Hold.
  { apply Forall_forall. intros m Hm [Hu Hs]. rewrite Hauthor in Hu.
    by apply (Hnone m Hm Hu). }
  assert (Forall (λ m, member_userid m = ctx_author ctx'
                       ∧ member_slotid m
                         ∈ info_slotid <$> selection joined_rows indices') new)
    as Hnew.
  { apply Forall_forall. intros m (sid & -> & Hsid)%list_elem_of_fmap. simpl.
    split; [done|]. by apply Hsame. }
  split; [|split; [|done]].
  - rewrite Hmem2, Hmem, filter_app.
    rewrite (filter_all _ (members s)) by done.
    rewrite (filter_none _ new); [by rewrite app_nil_r|].
    eapply Forall_impl; [exact Hnew|]. simpl. tauto.
  - rewrite Hcoins2, Hmem, filter_app.
    rewrite (filter_none _ (members s)).
    2:{ eapply Forall_impl; [exact Hold|]. simpl. tauto. }
    rewrite (filter_all _ new) by done. simpl.
    unfold new. rewrite paid_sum, Hcoins, Hlen. unfold cost. lia.
Qed.

Lemma book_then_cancel_restores_witness :
  ∃ s2,
    cancel no_faults (mkCtx 7 1 25) 100 [mkInfo 1 1 3600; mkInfo 2 1 7200]
      [0%nat; 1%nat]
      (book no_faults demo_refresh demo_open demo_ctx 0 [3600; 7200] [0%nat; 1%nat]
            demo_store).2
    = (Ok CancelledSessions, s2)
    ∧ members s2 = members demo_store
    ∧ coins s2 = coins demo_store.
Proof.
  set (s1 := (book no_faults demo_refresh demo_open demo_ctx 0 [3600; 7200]
                   [0%nat; 1%nat] demo_store).2).
  assert (book no_faults demo_refresh demo_open demo_ctx 0 [3600; 7200]
               [0%nat; 1%nat] demo_store = (Ok Booked, s1)) as Hbook
    by (vm_compute; reflexivity).
  destruct (book_then_cancel_restores no_faults demo_refresh demo_open demo_ctx
              (mkCtx 7 1 25) 0 100 [3600; 7200] [0%nat; 1%nat]
              [mkInfo 1 1 3600; mkInfo 2 1 7200] [0%nat; 1%nat] demo_store s1)
    as (s2 & Hcancel & Hmem & Hcoins & _).
  - change (NoDup [3600; 7200]). apply NoDup_cons. split.
    + intros Hin. apply list_elem_of_singleton in Hin. discriminate.
    + apply NoDup_singleton.
  - apply NoDup_nil_2.
  - exact Hbook.
  - reflexivity.
  - reflexivity.
  - intros sid. vm_compute. tauto.
  - intros m Hm. vm_compute in Hm. inversion Hm.
  - change (Forall (λ row, 100 ≤ info_start_at row)
                   [mkInfo 1 1 3600; mkInfo 2 1 7200]).
    repeat constructor; simpl; lia.
  - reflexivity.
  - reflexivity.
  - exists s2. split; [exact Hcancel|]. split; [exact Hmem|exact Hcoins].
Defined.

(** X22.  A booking debits the price once for every index of the reply, and
    makes one reservation for every distinct hour selected: a reply that
    names an hour twice pays for it twice and holds it once, and what the
    reservations record as paid falls short of the debit by the price of
    the repeats. *)
Theorem booking_debits_every_index fails refresh open ctx now times indices s s' :
  rooms_unique (rooms s) →
  book fails refresh open ctx now times indices s = (Ok Booked, s') →
  ∃ new,
    members s' = members s ++ new
    ∧ length new = length (remove_dups (selection times indices))
    ∧ (length new ≤ length (selection times indices))%nat
    ∧ coins s - coins s'
      = Z.of_nat (length (selection times indices)) * accountability_price ctx
    ∧ foldr Z.add 0 (paid <$> new)
      = Z.of_nat (length new) * accountability_price ctx.
Proof.
  intros Huniq Hbook.
  destruct (booked_inv _ _ _ _ _ _ _ _ _ _ Hbook ltac:(by left))
    as (Hne & Hfut & Hfunds).
  destruct (book_run fails refresh open ctx now times indices s _ s' Hne Hfut
              Hfunds Hbook)
    as [[[e ?] _]|(_ & Hcoins & Hmem & _)]; [done|].
  pose proof (slots_count (ctx_guild ctx) (selection times indices) (rooms s)
                (next_slotid s) Huniq) as Hlen.
  eexists. split; [exact Hmem|].
  rewrite length_fmap, paid_sum. split; [exact Hlen|]. split.
  - rewrite Hlen. apply remove_dups_length.
  - split; [|done]. rewrite Hcoins. unfold cost. lia.
Qed.

Lemma booking_debits_every_index_witness :
  ∃ new,
    members (book no_faults demo_refresh demo_open demo_ctx 0 [3600; 7200]
                  [1%nat; 1%nat] demo_store).2
    = members demo_store ++ new
    ∧ length new = 1%nat
    ∧ coins demo_store
      - coins (book no_faults demo_refresh demo_open demo_ctx 0 [3600; 7200]
                    [1%nat; 1%nat] demo_store).2
      = 20
    ∧ foldr Z.add 0 (paid <$> new) = 10.
Proof.
  set (s' := (book no_faults demo_refresh demo_open demo_ctx 0 [3600; 7200]
                   [1%nat; 1%nat] demo_store).2).
  assert (book no_faults demo_refresh demo_open demo_ctx 0 [3600; 7200]
               [1%nat; 1%nat] demo_store = (Ok Booked, s')) as Hbook
    by (vm_compute; reflexivity).
  destruct (booking_debits_every_index no_faults demo_refresh demo_open demo_ctx 0
              [3600; 7200] [1%nat; 1%nat] demo_store s'
              (NoDup_nil_2 : rooms_unique (rooms demo_store)) Hbook)
    as (new & Hmem & Hlen & _ & Hcoins & Hpaid).
  exists new. split; [exact Hmem|]. split; [exact Hlen|].
  split; [exact Hcoins|]. rewrite Hpaid, Hlen. reflexivity.
Defined.

(** X23.  When the table calls go through and an exception escapes the book
    branch all the same, it escapes after the reservations were inserted and
    before the debit: the member holds new reservations at the price, and
    the member's coins are what they were. *)
Theorem failed_activation_keeps_reservations fails refresh open ctx now times indices
    s e s' :
  fails rooms_fetch = false →
  fails rooms_insert = false →
  fails members_insert = false →
  book fails refresh open ctx now times indices s = (Raise e, s') →
  ∃ new,
    members s' = members s ++ new
    ∧ new ≠ []
    ∧ Forall (λ m, member_userid m = ctx_author ctx
                   ∧ paid m = accountability_price ctx) new
    ∧ coins s' = coins s.
Proof.
  intros Hfetch Hinsert Hmembers Hbook.
  destruct (booked_inv _ _ _ _ _ _ _ _ _ _ Hbook ltac:(right; eauto))
    as (Hne & Hfut & Hfunds).
  revert Hbook. unfold book. rewrite decide_False by done.
  rewrite decide_False.
  2:{ intros Hex. apply Exists_exists in Hex as (t & Hin & Hlt).
      rewrite Forall_forall in Hfut. specialize (Hfut t Hin). lia. }
  unfold mbind at 1, M_bind at 1, gets at 1.
  rewrite decide_False by lia.
  unfold fetch_rooms.
  unfold mbind at 1, M_bind at 1. unfold mbind at 1, M_bind at 1.
  rewrite call_ok by done. unfold gets at 1. cbn [logged rooms].
  set (found := filter (λ r, room_guildid r = ctx_guild ctx
                             ∧ start_at r ∈ selection times indices) (rooms s)).
  set (to_add := list_difference (remove_dups (selection times indices))
                   (start_at <$> found)).
  intros Hrun.
  apply bind_inv in Hrun as [(rows & s1 & Hadd & Hrun)|(e' & Hadd & _)].
  2:{ revert Hadd. case_decide; [done|].
      unfold insert_rooms. unfold mbind at 1, M_bind at 1.
      rewrite call_ok by done. discriminate. }
  assert (to_add = [] → found ≠ []) as Hfound.
  { intros Hnil Hf. destruct (selection times indices) as [|t sel] eqn:Hsel; [done|].
    assert (t ∈ to_add) as Hin.
    { apply list_elem_of_difference. split.
      - apply elem_of_remove_dups, list_elem_of_here.
      - rewrite Hf. apply not_elem_of_nil. }
    rewrite Hnil in Hin. by apply elem_of_nil in Hin. }
  apply find_or_create_inv in Hadd
    as [(Hrows & Hrooms1 & Hmem1 & Hcoins1 & _)|(_ & ? & ?)]; [|done].
  injection Hrows as ->. simpl in Hrooms1, Hmem1, Hcoins1.
  apply bind_inv in Hrun as [([] & s2 & Hins & Hrun)|(e' & Hins & _)].
  2:{ revert Hins. unfold insert_members. unfold mbind at 1, M_bind at 1.
      rewrite call_ok by done. discriminate. }
  apply insert_members_inv in Hins
    as [(_ & Hrooms2 & Hmem2 & Hcoins2 & _)|(_ & ? & ?)]; [|done].
  apply bind_inv in Hrun as [([] & s3 & Hact & Hrun)|(e' & Hact & _)].
  { unfold addCoins, modify, mbind, M_bind, mret, M_ret in Hrun. discriminate. }
  apply book_activation_steady in Hact as (calls & (_ & Hm & Hc & _) & _).
  eexists. split; [by rewrite Hm, Hmem2, Hmem1|]. split; [|split].
  - intros Hnil. apply fmap_nil_inv in Hnil.
    apply app_eq_nil in Hnil as [Hf Ha].
    apply fmap_nil_inv in Hf. apply fmap_nil_inv in Ha.
    apply Hfound; [|done].
    pose proof (new_rooms_start (ctx_guild ctx) (next_slotid s) to_add) as Hst.
    rewrite Ha in Hst. symmetry. exact Hst.
  - apply Forall_forall. by intros m (sid & -> & _)%list_elem_of_fmap.
  - by rewrite Hc, Hcoins2, Hcoins1.
Qed.

Lemma failed_activation_keeps_reservations_witness :
  ∃ new,
    members (book status_fails demo_refresh demo_open demo_ctx 0 [3600; 7200] [1%nat]
                  demo_store_open).2
    = members demo_store_open ++ new
    ∧ new ≠ []
    ∧ coins (book status_fails demo_refresh demo_open demo_ctx 0 [3600; 7200] [1%nat]
                  demo_store_open).2
      = coins demo_store_open.
Proof.
  set (s' := (book status_fails demo_refresh demo_open demo_ctx 0 [3600; 7200]
                   [1%nat] demo_store_open).2).
  assert (book status_fails demo_refresh demo_open demo_ctx 0 [3600; 7200] [1%nat]
               demo_store_open = (Raise (ExternalFailure "call"), s')) as Hbook
    by (vm_compute; reflexivity).
  destruct (failed_activation_keeps_reservations status_fails demo_refresh demo_open
              demo_ctx 0 [3600; 7200] [1%nat] demo_store_open _ s'
              eq_refl eq_refl eq_refl Hbook)
    as (new & Hmem & Hne & _ & Hcoins).
  exists new. split; [exact Hmem|]. split; [exact Hne|exact Hcoins].
Defined.

(** X24.  A booking that includes the guild's upcoming slot, open but without
    a channel, passes the checks, inserts the reservations, adds the member
    to the live slot, and then fails on the slot's missing channel: an
    [AttributeError] escapes, the status of the slot is not updated and the
    coins are not debited. *)
Theorem booking_open_slot_without_channel fails refresh open ctx now times indices
    s slot d :
  selection times indices ≠ [] →
  Forall (λ time, now ≤ time) (selection times indices) →
  cost ctx (selection times indices) ≤ coins s →
  fails rooms_fetch = false →
  fails rooms_insert = false →
  fails members_insert = false →
  cache s !! ctx_guild ctx = Some (mkAGuild (Some slot)) →
  start_time slot ∈ selection times indices →
  slot_data slot = Some d →
  slot_channel slot = None →
  ∃ s',
    book fails refresh open ctx now times indices s
    = (Raise (AttributeError "set_permissions"), s')
    ∧ cache s' !! ctx_guild ctx
      = Some (mkAGuild (Some (mkSlot (start_time slot) (Some d) None
                                     (<[ctx_author ctx := slotid d]> (slot_members slot)))))
    ∧ coins s' = coins s
    ∧ last (log s') = Some slot_members_set.
Proof.
  intros Hne Hfut Hfunds Hfetch Hinsert Hmembers Hcache Hin Hdata Hchannel.
  destruct (book_until_activation fails refresh open ctx now times indices s
              Hne Hfut Hfunds Hfetch Hinsert Hmembers) as (s2 & -> & Hc2 & Hcoins2).
  unfold book_activation.
  unfold mbind at 1, M_bind at 1. unfold mbind at 1, M_bind at 1.
  unfold mbind at 1, M_bind at 1, gets at 1.
  rewrite Hc2, Hcache. cbn [upcoming_slot]. rewrite decide_True by done.
  rewrite Hdata, Hchannel.
  unfold note, set_upcoming, modify, raise, mbind, M_bind. simpl.
  eexists. split; [reflexivity|]. simpl.
  rewrite lookup_insert_eq.
  split; [done|]. split; [done|]. apply last_snoc.
Qed.

Lemma booking_open_slot_without_channel_witness :
  ∃ s',
    book no_faults demo_refresh demo_open demo_ctx 0 [3600; 7200] [1%nat]
         demo_store_no_channel
    = (Raise (AttributeError "set_permissions"), s')
    ∧ coins s' = 50.
Proof.
  destruct (booking_open_slot_without_channel no_faults demo_refresh demo_open
              demo_ctx 0 [3600; 7200] [1%nat] demo_store_no_channel
              (mkSlot 7200 (Some (mkRoom 1 1 7200 None None)) None {[8 := 1]})
              (mkRoom 1 1 7200 None None))
    as (s' & Hrun & _ & Hcoins & _).
  - discriminate.
  - change (Forall (λ time, 0 ≤ time) [7200]). repeat constructor. lia.
  - vm_compute. discriminate.
  - reflexivity.
  - reflexivity.
  - reflexivity.
  - vm_compute. reflexivity.
  - apply list_elem_of_here.
  - reflexivity.
  - reflexivity.
  - exists s'. split; [exact Hrun|exact Hcoins].
Defined.

(** X25.  A booking that includes the guild's upcoming slot, open in a
    channel, adds the member to the live slot and books, whether or not the
    change of the channel's permissions goes through: that failure is
    swallowed. *)
Theorem booking_joins_open_slot fails refresh open ctx now times indices s slot d ch :
  selection times indices ≠ [] →
  Forall (λ time, now ≤ time) (selection times indices) →
  cost ctx (selection times indices) ≤ coins s →
  fails rooms_fetch = false →
  fails rooms_insert = false →
  fails members_insert = false →
  fails update_status = false →
  cache s !! ctx_guild ctx = Some (mkAGuild (Some slot)) →
  start_time slot ∈ selection times indices →
  slot_data slot = Some d →
  slot_channel slot = Some ch →
  ∃ s',
    book fails refresh open ctx now times indices s = (Ok Booked, s')
    ∧ cache s' !! ctx_guild ctx
      = Some (mkAGuild (Some (mkSlot (start_time slot) (Some d) (Some ch)
                                     (<[ctx_author ctx := slotid d]> (slot_members slot)))))
    ∧ coins s' = coins s - cost ctx (selection times indices).
Proof.
  intros Hne Hfut Hfunds Hfetch Hinsert Hmembers Hstatus Hcache Hin Hdata Hchannel.
  destruct (book_until_activation fails refresh open ctx now times indices s
              Hne Hfut Hfunds Hfetch Hinsert Hmembers) as (s2 & -> & Hc2 & Hcoins2).
  unfold book_activation.
  unfold mbind at 1, M_bind at 1. unfold mbind at 1, M_bind at 1.
  unfold mbind at 1, M_bind at 1, gets at 1.
  rewrite Hc2, Hcache. cbn [upcoming_slot]. rewrite decide_True by done.
  rewrite Hdata, Hchannel.
  unfold call_ignoring_http, call. rewrite Hstatus.
  unfold addCoins, note, set_upcoming, modify, raise, mbind, M_bind, mret, M_ret.
  destruct (fails set_permissions); simpl;
    (eexists; split; [reflexivity|]; simpl;
     rewrite lookup_insert_eq, Hcoins2; split; [done|lia]).
Qed.

Lemma booking_joins_open_slot_witness :
  ∃ s',
    book (λ k, bool_decide (k = set_permissions)) demo_refresh demo_open demo_ctx 0
         [3600; 7200] [1%nat] demo_store_open
    = (Ok Booked, s')
    ∧ coins s' = 40.
Proof.
  destruct (booking_joins_open_slot (λ k, bool_decide (k = set_permissions))
              demo_refresh demo_open demo_ctx 0 [3600; 7200] [1%nat] demo_store_open
              (mkSlot 7200 (Some (mkRoom 1 1 7200 (Some 500) (Some 600))) (Some 500)
                      {[8 := 1]})
              (mkRoom 1 1 7200 (Some 500) (Some 600)) 500)
    as (s' & Hrun & _ & Hcoins).
  - discriminate.
  - change (Forall (λ time, 0 ≤ time) [7200]). repeat constructor. lia.
  - vm_compute. discriminate.
  - reflexivity.
  - reflexivity.
  - reflexivity.
  - reflexivity.
  - vm_compute. reflexivity.
  - apply list_elem_of_here.
  - reflexivity.
  - reflexivity.
  - exists s'. split; [exact Hrun|]. rewrite Hcoins. reflexivity.
Defined.

(** X26.  When the delete goes through and an exception escapes the cancel
    branch all the same, the member's reservations for the selected slots are
    gone, the lock has been released, and the refund has not been made. *)
Theorem failed_cancel_forfeits_refund fails ctx now joined_rows indices s e s' :
  fails members_delete = false →
  cancel fails ctx now joined_rows indices s = (Raise e, s') →
  members s'
  = filter (λ m, ¬ (member_userid m = ctx_author ctx
                    ∧ member_slotid m ∈ info_slotid <$> selection joined_rows indices))
           (members s)
  ∧ coins s' = coins s
  ∧ rooms s' = rooms s
  ∧ last (log s') = Some room_lock_release.
Proof.
  intros Hdel Hrun.
  destruct (decide (selection joined_rows indices = [])) as [Hnil|Hne].
  { unfold cancel in Hrun. by rewrite decide_True in Hrun by done. }
  destruct (decide (Exists (λ row, info_start_at row < now)
                           (selection joined_rows indices))) as [Hpast|Hfut].
  { unfold cancel in Hrun. by rewrite decide_False, decide_True in Hrun by done. }
  apply not_Exists_Forall in Hfut; [|intros ?; apply _].
  assert (Forall (λ row, now ≤ info_start_at row) (selection joined_rows indices))
    as Hfut'.
  { eapply Forall_impl; [exact Hfut|]. simpl. intros. lia. }
  destruct (cancel_run fails ctx now joined_rows indices s _ s' Hne Hfut' Hdel Hrun)
    as (Hmem & Hrooms & [(? & _)|(_ & _ & Hcoins & calls & Hlog)]); [done|].
  split; [done|]. split; [done|]. split; [done|].
  rewrite Hlog, app_assoc. apply last_snoc.
Qed.

Lemma failed_cancel_forfeits_refund_witness :
  members (cancel status_fails (mkCtx 8 1 10) 0 [mkInfo 1 1 7200] [0%nat]
                  demo_store_open).2 = []
  ∧ coins (cancel status_fails (mkCtx 8 1 10) 0 [mkInfo 1 1 7200] [0%nat]
                  demo_store_open).2 = 50.
Proof.
  set (s' := (cancel status_fails (mkCtx 8 1 10) 0 [mkInfo 1 1 7200] [0%nat]
                     demo_store_open).2).
  assert (cancel status_fails (mkCtx 8 1 10) 0 [mkInfo 1 1 7200] [0%nat]
                 demo_store_open = (Raise (ExternalFailure "call"), s')) as Hrun
    by (vm_compute; reflexivity).
  destruct (failed_cancel_forfeits_refund status_fails (mkCtx 8 1 10) 0
              [mkInfo 1 1 7200] [0%nat] demo_store_open _ s' eq_refl Hrun)
    as (Hmem & Hcoins & _).
  split.
  - rewrite Hmem. vm_compute. reflexivity.
  - rewrite Hcoins. reflexivity.
Defined.

(** ** The streaks and the attendance *)

(** The attended sessions among the first [n] rows of the history. *)
Definition attended_upto (history : list HistoryRow) (n : nat) : nat :=
  attended_count (take n history).

(** What the loop keeps true: the running streak, counting the day in
    progress, and the longest streak are no more than the attended sessions
    read so far, and the current streak, once set, is no more than the
    longest. *)
Definition streak_inv (history : list HistoryRow) (l : Loop) : Prop :=
  (streak l + (if default false (day_attended l) then 1 else 0)
   ≤ attended_upto history (i l))%nat
  ∧ (max_streak l ≤ attended_upto history (i l))%nat
  ∧ ∀ cs, current_streak l = Some cs → (cs ≤ max_streak l)%nat.

Lemma attended_upto_S history n row :
  history !! n = Some row →
  attended_upto history (S n)
  = (attended_upto history n + (if attended row then 1 else 0))%nat.
Proof.
  intros Hrow. unfold attended_upto, attended_count.
  rewrite (take_S_r _ _ _ Hrow), filter_app, length_app. f_equal.
  destruct (attended row) eqn:Ha.
  - by rewrite filter_cons_True by done.
  - rewrite filter_cons_False; [done|]. by rewrite Ha.
Qed.

Lemma attended_upto_le history n :
  (attended_upto history n ≤ attended_count history)%nat.
Proof.
  unfold attended_upto, attended_count.
  rewrite <- (take_drop n history) at 2. rewrite filter_app, length_app. lia.
Qed.

Lemma iteration_inv history l l' :
  iteration history l = Some l' → streak_inv history l → streak_inv history l'.
Proof.
  unfold iteration, streak_inv, streak_broken.
  destruct l as [n d da st cur mx].
  cbn [i date day_attended streak current_streak max_streak].
  destruct (history !! n) as [row|] eqn:Hrow; [|done].
  pose proof (attended_upto_S history n row Hrow) as HS.
  intros Hit (Hs & Hm & Hc). revert Hit.
  assert (∀ cs, match cur with None => Some st | Some c => Some c end = Some cs →
                (cs ≤ mx `max` st)%nat) as Hc'.
  { intros cs. destruct cur as [c|]; intros [= <-]; [|lia].
    specialize (Hc c eq_refl). lia. }
  destruct (attended row); simpl.
  - case_decide.
    + intros [= <-]. simpl. rewrite HS.
      destruct da as [[]|]; simpl in *; (split; [lia|split; [lia|done]]).
    + rewrite Nat.sub_0_r.
      destruct da as [[]|]; intros [= <-]; simpl in *;
        (split; [lia|split; [lia|done]]).
  - intros [= <-]. simpl. rewrite HS.
    destruct da as [[]|]; simpl in *; (split; [lia|split; [lia|done]]).
Qed.

Lemma run_inv (P : Loop → Prop) history fuel l l' :
  (∀ l1 l2, iteration history l1 = Some l2 → P l1 → P l2) →
  run history fuel l = Some l' → P l → P l'.
Proof.
  intros Hstep. revert l. induction fuel as [|fuel IH]; intros l; simpl.
  - destruct (iteration history l); [done|]. by intros [= <-].
  - destruct (iteration history l) as [l1|] eqn:Hit; [|by intros [= <-]].
    intros Hrun Hl. eapply IH; [exact Hrun|]. by eapply Hstep.
Qed.

(** X27.  The streak calculation gives a current streak no longer than the
    longest streak, and a longest streak no longer than the number of
    sessions the member attended. *)
Theorem streaks_within_attendance (history : list HistoryRow) (today : Z) :
  ∃ cs ms,
    streaks history today (bound history (mkLoop 0 today None 0 None 0))
    = Some (cs, ms)
    ∧ (cs ≤ ms)%nat
    ∧ (ms ≤ attended_count history)%nat.
Proof.
  destruct (run_enough_fuel history (bound history (mkLoop 0 today None 0 None 0))
              (mkLoop 0 today None 0 None 0) ltac:(done)) as (l' & Hrun & _).
  assert (streak_inv history l') as (Hs & Hm & Hc).
  { eapply (run_inv (streak_inv history)); [apply iteration_inv|exact Hrun|].
    unfold streak_inv. simpl. split; [lia|]. split; [lia|done]. }
  pose proof (attended_upto_le history (i l')) as Hle.
  unfold streaks. rewrite Hrun. simpl. unfold last_streak.
  eexists _, _. split; [reflexivity|].
  destruct (current_streak l') as [cs|].
  - specialize (Hc cs eq_refl). destruct (default false (day_attended l')); lia.
  - destruct (default false (day_attended l')); lia.
Qed.

(** X28.  When the most recent session of the history was not attended, the
    current streak is 0, whatever came before. *)
Theorem missed_latest_resets_streak (row : HistoryRow) (rest : list HistoryRow)
    (today : Z) :
  attended row = false →
  ∃ ms,
    streaks (row :: rest) today (bound (row :: rest) (mkLoop 0 today None 0 None 0))
    = Some (0%nat, ms).
Proof.
  intros Hrow.
  set (history := row :: rest). set (l0 := mkLoop 0 today None 0 None 0).
  assert (iteration history l0 = Some (mkLoop 1 today None 0 (Some 0%nat) 0)) as Hit.
  { unfold iteration, history, l0. simpl. by rewrite Hrow. }
  pose proof (iteration_progress history l0 _ Hit) as [_ Hlt].
  destruct (bound history l0) as [|fuel] eqn:Hb; [lia|].
  destruct (run_enough_fuel history fuel (mkLoop 1 today None 0 (Some 0%nat) 0)
              ltac:(lia)) as (l' & Hrun & _).
  assert (current_streak l' = Some 0%nat) as Hcs.
  { eapply (run_inv (λ l, current_streak l = Some 0%nat)); [|exact Hrun|done].
    intros l1 l2. unfold iteration.
    destruct (history !! i l1) as [r|]; [|done].
    destruct (attended r); simpl.
    - case_decide; [by intros [= <-]|].
      destruct (day_attended l1) as [[]|]; intros [= <-]; simpl; try done.
      by intros ->.
    - intros [= <-]. simpl. by intros ->. }
  unfold streaks. fold l0. cbn [run]. rewrite Hit, Hrun. simpl. unfold last_streak.
  rewrite Hcs. eauto.
Qed.

Lemma missed_latest_resets_streak_witness :
  ∃ ms,
    streaks [mkHistory 200000 false; mkHistory 100000 true; mkHistory 10000 true]
            250000
            (bound [mkHistory 200000 false; mkHistory 100000 true; mkHistory 10000 true]
                   (mkLoop 0 250000 None 0 None 0))
    = Some (0%nat, ms).
Proof.
  apply (missed_latest_resets_streak (mkHistory 200000 false)
           [mkHistory 100000 true; mkHistory 10000 true] 250000).
  reflexivity.
Defined.

(** ** The exclusive flows, entered and left *)

(** X29.  A flow that enters the exclusive block and leaves it, no other flow
    of the author having entered meanwhile, leaves the author without a lock;
    if the author held none before, everything is as it was; and the flow the
    author had before, cancelled by the entry, changes nothing when it leaves
    in its turn. *)
Theorem ensure_exclusive_round_trip (g : Guard) (ctx : nat) (c : Context) :
  contexts g !! ctx = Some c →
  user_locks (ensure_exclusive_exit c (ensure_exclusive_enter ctx c g))
  = delete (author c) (user_locks g)
  ∧ (user_locks g !! author c = None →
     ensure_exclusive_exit c (ensure_exclusive_enter ctx c g) = g)
  ∧ (∀ oc, author oc = author c →
       ensure_exclusive_exit oc
         (ensure_exclusive_exit c (ensure_exclusive_enter ctx c g))
       = ensure_exclusive_exit c (ensure_exclusive_enter ctx c g)).
Proof.
  intros Hctx.
  assert (ensure_exclusive_exit c (ensure_exclusive_enter ctx c g)
          = mkGuard (delete (author c) (user_locks g)) (contexts g)
                    (loop_tasks (ensure_exclusive_enter ctx c g))) as Hexit.
  { unfold ensure_exclusive_exit. cbn [ensure_exclusive_enter user_locks contexts].
    rewrite lookup_insert_eq, Hctx, decide_True by done.
    cbn [user_locks contexts loop_tasks].
    by rewrite delete_insert_eq, delete_delete_eq. }
  rewrite Hexit. split; [done|]. split.
  - intros Hnone. unfold ensure_exclusive_enter. rewrite Hnone. simpl.
    rewrite delete_id by done. by destruct g.
  - intros oc Hoc. unfold ensure_exclusive_exit at 1. simpl.
    by rewrite Hoc, lookup_delete_eq.
Qed.

Lemma ensure_exclusive_round_trip_witness :
  ensure_exclusive_exit (mkContext 5 100 [0%nat])
    (ensure_exclusive_enter 0 (mkContext 5 100 [0%nat]) demo_guard)
  = demo_guard.
Proof.
  destruct (ensure_exclusive_round_trip demo_guard 0 (mkContext 5 100 [0%nat]))
    as (_ & Hback & _).
  - vm_compute. reflexivity.
  - apply Hback. vm_compute. reflexivity.
Defined.

End Accountability.
